(** * SemVerGo: the version-decision engine of main.go

    A shallow embedding of the decision logic of [main.go]: the
    conventional-commit grammar ([commitPattern]), bump resolution
    ([determineBumpType]), version calculation ([calculateNewVersion]),
    tag formatting (the [tag-format] block of [main]) and changelog
    categorisation and rendering ([generateReleaseNotes]); then the
    functions around them: [getCurrentVersion], [isDefaultBranch],
    [pushTag], the message of [addAndCommitChangelog] and the choice of
    the new version in [main].

    Go strings are modelled by the sequence of their runes (Unicode code
    points), which is what [regexp], [unicode.IsSpace] and
    [unicode.ToLower] see of a valid UTF-8 string.  Every literal of the
    program is ASCII.  The output of the [git] commands the program runs
    is an input of the model. *)

From Stdlib Require Import List NArith ZArith Bool Ascii String Lia Permutation.
From Stdlib Require DecimalPos DecimalN.
Import ListNotations.

(** ** Runes and strings *)

Definition rune := N.
Definition gostring := list rune.

(** An ASCII literal of the source, as a Go string. *)
Definition str (s : string) : gostring :=
  map N_of_ascii (list_ascii_of_string s).

Definition LF : rune := 10%N.
Definition CR : rune := 13%N.
Definition quote : rune := 34%N.

Fixpoint streq (a b : gostring) : bool :=
  match a, b with
  | [], [] => true
  | x :: a', y :: b' => N.eqb x y && streq a' b'
  | _, _ => false
  end.

(** ** Package [strings] *)
Module strings.

(** [strings.HasPrefix(s, prefix)] *)
Fixpoint HasPrefix (s prefix : gostring) {struct prefix} : bool :=
  match prefix with
  | [] => true
  | p :: prefix' =>
      match s with
      | [] => false
      | c :: s' => N.eqb c p && HasPrefix s' prefix'
      end
  end.

(** [strings.TrimPrefix(s, prefix)] *)
Definition TrimPrefix (s prefix : gostring) : gostring :=
  if HasPrefix s prefix then skipn (List.length prefix) s else s.

(** [strings.Contains(s, substr)]: [substr] starts at some position of
    [s]. *)
Fixpoint Contains (s substr : gostring) : bool :=
  HasPrefix s substr ||
  match s with
  | [] => false
  | _ :: s' => Contains s' substr
  end.

(** [unicode.IsSpace]: the Latin-1 cases of the switch, then the
    White_Space table. *)
Definition IsSpace (r : rune) : bool :=
  ((9 <=? r) && (r <=? 13) || (r =? 32) || (r =? 133) || (r =? 160)
   || (r =? 5760) || (8192 <=? r) && (r <=? 8202)
   || (r =? 8232) || (r =? 8233) || (r =? 8239) || (r =? 8287)
   || (r =? 12288))%N.

Fixpoint dropWhile (f : rune -> bool) (s : gostring) : gostring :=
  match s with
  | [] => []
  | c :: s' => if f c then dropWhile f s' else s
  end.

Definition TrimLeft (s : gostring) : gostring := dropWhile IsSpace s.
Definition TrimRight (s : gostring) : gostring := rev (dropWhile IsSpace (rev s)).

(** [strings.TrimSpace(s)]: leading and trailing white space removed. *)
Definition TrimSpace (s : gostring) : gostring := TrimRight (TrimLeft s).

(** [unicode.ToLower] as far as the program can observe it: the ASCII
    letters, and the two runes outside ASCII whose lower case is an ASCII
    letter (U+0130 and the Kelvin sign U+212A).  The lower case of every
    other rune lies outside ASCII, where the program only compares with
    ASCII patterns; such runes are left as they are. *)
Definition ToLowerRune (r : rune) : rune :=
  (if (65 <=? r) && (r <=? 90) then r + 32
   else if r =? 304 then 105
   else if r =? 8490 then 107
   else r)%N.

(** [strings.ToLower(s)] *)
Definition ToLower (s : gostring) : gostring := map ToLowerRune s.

(** The scan shared by [Split] and [ReplaceAll]: the occurrences of a
    non-empty [sep] in [s] are found from the left and do not overlap.
    [skip] counts the runes of the occurrence just found that are still
    to be passed over. *)
Fixpoint splitFrom (sep : gostring) (skip : nat) (cur s : gostring)
  : list gostring :=
  match s with
  | [] => [rev cur]
  | c :: s' =>
      match skip with
      | S k => splitFrom sep k cur s'
      | O =>
          if HasPrefix s sep
          then rev cur :: splitFrom sep (List.length sep - 1) [] s'
          else splitFrom sep O (c :: cur) s'
      end
  end.

(** [strings.Split(s, sep)], for a non-empty [sep]. *)
Definition Split (s sep : gostring) : list gostring := splitFrom sep O [] s.

(** What follows the first occurrence of [sep] in [s], if there is one. *)
Fixpoint afterFirst (s sep : gostring) : option gostring :=
  if HasPrefix s sep then Some (skipn (List.length sep) s)
  else match s with
       | [] => None
       | _ :: s' => afterFirst s' sep
       end.

Fixpoint beforeFirst (s sep : gostring) : gostring :=
  if HasPrefix s sep then []
  else match s with
       | [] => []
       | c :: s' => c :: beforeFirst s' sep
       end.

(** [strings.SplitN(s, sep, 2)], for a non-empty [sep]: the text before
    and after the first occurrence, or [s] alone. *)
Definition SplitN2 (s sep : gostring) : list gostring :=
  match afterFirst s sep with
  | Some rest => [beforeFirst s sep; rest]
  | None => [s]
  end.

Fixpoint replaceFrom (old new : gostring) (skip : nat) (s : gostring)
  : gostring :=
  match s with
  | [] => []
  | c :: s' =>
      match skip with
      | S k => replaceFrom old new k s'
      | O =>
          if HasPrefix s old
          then new ++ replaceFrom old new (List.length old - 1) s'
          else c :: replaceFrom old new O s'
      end
  end.

(** [strings.ReplaceAll(s, old, new)], for a non-empty [old]. *)
Definition ReplaceAll (s old new : gostring) : gostring :=
  replaceFrom old new O s.

End strings.

(** ** The conventional-commit grammar *)

(** The sub-matches of [commitPattern] the program reads; a group that
    took no part in the match is the empty string, as in
    [FindStringSubmatch]. *)
Record Submatch := mkSubmatch {
  sub_type : gostring;
  sub_scope : gostring;
  sub_breaking : gostring;
  sub_subject : gostring
}.

(** The alternatives of the [type] group, in the order of the pattern. *)
Definition commitTypes : list gostring :=
  map str ["feat"; "fix"; "docs"; "style"; "refactor"; "perf"; "test";
           "build"; "ci"; "chore"; "revert"]%string.

(** [s] without [prefix], when it starts with it. *)
Definition stripPrefix (s prefix : gostring) : option gostring :=
  if strings.HasPrefix s prefix then Some (skipn (List.length prefix) s) else None.

(** The longest prefix of runes satisfying [f], and the rest. *)
Fixpoint span (f : rune -> bool) (s : gostring) : gostring * gostring :=
  match s with
  | [] => ([], [])
  | c :: s' =>
      if f c then let (a, b) := span f s' in (c :: a, b) else ([], s)
  end.

(** [[^()\r\n]] *)
Definition scopeRune (r : rune) : bool :=
  negb ((r =? 40) || (r =? 41) || (r =? CR) || (r =? LF))%N.

(** [.] without the [s] flag: any rune but a line feed. *)
Definition dotRune (r : rune) : bool := negb (r =? LF)%N.

(** The first alternative that succeeds, as a backtracking matcher
    tries them. *)
Definition orElse {A} (a b : option A) : option A :=
  match a with
  | Some _ => a
  | None => b
  end.

(** The end of the pattern, a colon, a space and the [subject] group
    (any runes, then [$]): without the [m] flag [$] is the end of the
    text, so the subject is all that is left and holds no line feed. *)
Definition matchSubject (s : gostring) : option gostring :=
  match stripPrefix s (str ": ") with
  | Some subject => if forallb dotRune subject then Some subject else None
  | None => None
  end.

(** The optional [breaking] group (an exclamation mark) and the end of
    the pattern: with the mark first, then without it. *)
Definition matchBreaking (s : gostring) : option (gostring * gostring) :=
  orElse
    (match stripPrefix s (str "!") with
     | Some s' => option_map (pair (str "!")) (matchSubject s')
     | None => None
     end)
    (option_map (pair []) (matchSubject s)).

(** The optional group after the type and the rest of the pattern: a
    [scope] in parentheses first, then a lone open parenthesis, then no
    group at all.  The scope is followed by a closing parenthesis, which
    is no scope rune, so only its longest run can match. *)
Definition matchScope (s : gostring)
  : option (gostring * (gostring * gostring)) :=
  orElse
    (match stripPrefix s (str "(") with
     | Some s1 =>
         let (scope, s2) := span scopeRune s1 in
         match stripPrefix s2 (str ")") with
         | Some s3 => option_map (pair scope) (matchBreaking s3)
         | None => None
         end
     | None => None
     end)
    (orElse
       (match stripPrefix s (str "(") with
        | Some s1 => option_map (pair []) (matchBreaking s1)
        | None => None
        end)
       (option_map (pair []) (matchBreaking s))).

(** One alternative [ty] of the [type] group and the rest of the
    pattern. *)
Definition matchType (s ty : gostring) : option Submatch :=
  match stripPrefix s ty with
  | Some s' =>
      match matchScope s' with
      | Some (scope, (breaking, subject)) =>
          Some (mkSubmatch ty scope breaking subject)
      | None => None
      end
  | None => None
  end.

(** [commitPattern.FindStringSubmatch(s)]; [None] is the nil slice.  The
    pattern starts with [^], so a match starts at the first rune. *)
Definition FindStringSubmatch (s : gostring) : option Submatch :=
  fold_right (fun ty r => orElse (matchType s ty) r) None commitTypes.

(** [commitPattern.MatchString(s)] *)
Definition MatchString (s : gostring) : bool :=
  match FindStringSubmatch s with
  | Some _ => true
  | None => false
  end.

(** ** Commit validation and bump resolution *)

(** The line feed as a string. *)
Definition nl : gostring := [LF].

(** The message [validateCommitMessage] formats for a message that does
    not follow the grammar; [shown] stands for [%s]. *)
Definition invalidFormatMessage (shown : gostring) : gostring :=
  nl ++ str "Invalid commit message format: " ++ [quote] ++ shown ++ [quote]
  ++ nl ++ nl
  ++ str "Please follow the Conventional Commits specification:" ++ nl
  ++ str "<type>[optional scope]: <description>" ++ nl ++ nl
  ++ str "Available types: feat, fix, docs, style, refactor, perf, test, build, ci, chore, revert"
  ++ nl ++ nl
  ++ str "Example: feat(auth): add login functionality".

(** [validateCommitMessage(message)] *)
Definition validateCommitMessage (message : gostring) : bool * gostring :=
  if strings.HasPrefix message (str "Merge ") then (true, [])
  else if negb (MatchString message)
       then (false, invalidFormatMessage (strings.TrimSpace message))
       else (true, []).

Definition breakingMarker : gostring := str "BREAKING CHANGE:".

(** The value both loops give their local [isBreaking]: the [breaking]
    group took part in the match, or the message holds the marker. *)
Definition isBreaking (msg : gostring) (matches : Submatch) : bool :=
  negb (streq (sub_breaking matches) [])
  || strings.Contains msg breakingMarker.

(** The loop of [determineBumpType]; [bumpType] is the local variable of
    that name, and leaving the recursion is [return "major", nil]. *)
Fixpoint determineBumpTypeFrom (bumpType : gostring) (commitMsgs : list gostring)
  : gostring :=
  match commitMsgs with
  | [] => bumpType
  | msg0 :: rest =>
      let msg := strings.TrimSpace msg0 in
      if streq msg [] || strings.HasPrefix msg (str "Merge ")
      then determineBumpTypeFrom bumpType rest
      else
        match FindStringSubmatch msg with
        | None => determineBumpTypeFrom bumpType rest
        | Some matches =>
            let commitType := sub_type matches in
            if isBreaking msg matches then str "major"
            else if streq commitType (str "feat")
            then determineBumpTypeFrom
                   (if negb (streq bumpType (str "major"))
                    then str "minor" else bumpType) rest
            else if streq commitType (str "fix")
            then determineBumpTypeFrom
                   (if negb (streq bumpType (str "major"))
                       && negb (streq bumpType (str "minor"))
                    then str "patch" else bumpType) rest
            else determineBumpTypeFrom bumpType rest
        end
  end.

(** [determineBumpType(commitMsgs)]; its error result is always nil. *)
Definition determineBumpType (commitMsgs : list gostring) : gostring :=
  determineBumpTypeFrom (str "none") commitMsgs.

(** [getCommitMessagesBetweenRefs], after the [git log] command: [out]
    is the output of the command, [None] when it failed. *)
Definition getCommitMessagesBetweenRefs (out : option gostring)
  : option (list gostring) :=
  match out with
  | None => None
  | Some out =>
      Some (filter (fun msg => negb (streq msg []))
              (map strings.TrimSpace (strings.Split out (nl ++ nl))))
  end.

(** ** Release notes *)

Definition skipPatterns : list gostring :=
  map str ["[skip-ci]"; "[ci skip]"; "skip-checks: true"]%string.

(** [shouldSkipCI(commitMsg)] *)
Definition shouldSkipCI (commitMsg : gostring) : bool :=
  let commitMsg := strings.ToLower commitMsg in
  existsb (fun pattern => strings.Contains commitMsg pattern) skipPatterns.

(** The four slices [generateReleaseNotes] fills. *)
Record Notes := mkNotes {
  breakingChanges : list gostring;
  features : list gostring;
  bugFixes : list gostring;
  otherChanges : list gostring
}.

Definition noNotes : Notes := mkNotes [] [] [] [].

(** One turn of the categorising loop of [generateReleaseNotes]. *)
Definition categorizeCommit (n : Notes) (msg : gostring) : Notes :=
  if shouldSkipCI msg || strings.HasPrefix msg (str "Merge ") then n
  else
    match FindStringSubmatch msg with
    | None =>
        mkNotes (breakingChanges n) (features n) (bugFixes n)
          (otherChanges n ++ [nth 0 (strings.Split msg nl) []])
    | Some matches =>
        let commitType := sub_type matches in
        let commitSubject := sub_subject matches in
        let isBreaking := isBreaking msg matches in
        let n1 :=
          if isBreaking then
            let breakingMsg := str "- **BREAKING CHANGE:** " ++ commitSubject in
            let breakingMsg :=
              if strings.Contains msg breakingMarker then
                let parts := strings.SplitN2 msg breakingMarker in
                if (1 <? List.length parts)%nat
                then breakingMsg ++ nl ++ str "  "
                     ++ strings.TrimSpace (nth 1 parts [])
                else breakingMsg
              else breakingMsg in
            mkNotes (breakingChanges n ++ [breakingMsg]) (features n)
              (bugFixes n) (otherChanges n)
          else n in
        if negb isBreaking then
          if streq commitType (str "feat") then
            mkNotes (breakingChanges n1)
              (features n1 ++ [str "- **feat:** " ++ commitSubject])
              (bugFixes n1) (otherChanges n1)
          else if streq commitType (str "fix") then
            mkNotes (breakingChanges n1) (features n1)
              (bugFixes n1 ++ [str "- **fix:** " ++ commitSubject])
              (otherChanges n1)
          else if negb (streq commitType (str "docs"))
                  && negb (streq commitType (str "style"))
                  && negb (streq commitType (str "test"))
                  && negb (streq commitType (str "chore"))
          then
            mkNotes (breakingChanges n1) (features n1) (bugFixes n1)
              (otherChanges n1
               ++ [str "- **" ++ commitType ++ str ":** " ++ commitSubject])
          else n1
        else n1
    end.

(** The categorising loop over the commit messages. *)
Definition categorize (commitMsgs : list gostring) : Notes :=
  fold_left categorizeCommit commitMsgs noNotes.

(** [sb.WriteString(s)] on a [strings.Builder] holding [sb]. *)
Definition WriteString (sb s : gostring) : gostring := sb ++ s.

(** One of the four section blocks of [generateReleaseNotes]; they
    differ in the title line and the slice only. *)
Definition writeSection (sb title : gostring) (entries : list gostring)
  : gostring :=
  if (0 <? List.length entries)%nat then
    let sb := WriteString sb title in
    let sb := fold_left (fun sb entry => WriteString sb (entry ++ nl)) entries sb in
    WriteString sb nl
  else sb.

Definition titleBreaking : gostring := str "### BREAKING CHANGES" ++ nl ++ nl.
Definition titleFeatures : gostring := str "### Features" ++ nl ++ nl.
Definition titleBugFixes : gostring := str "### Bug Fixes" ++ nl ++ nl.
Definition titleOther : gostring := str "### Other Changes" ++ nl ++ nl.

(** The header line, [fmt.Sprintf("## %s (%s)\n\n", ...)]; [today] is
    [time.Now().Format("2006-01-02")]. *)
Definition headerLine (newTagForHeader today : gostring) : gostring :=
  str "## " ++ newTagForHeader ++ str " (" ++ today ++ str ")" ++ nl ++ nl.

(** The Markdown built in the [strings.Builder]. *)
Definition buildMarkdown (newTagForHeader today : gostring) (n : Notes)
  : gostring :=
  let sb := WriteString [] (headerLine newTagForHeader today) in
  let sb := writeSection sb titleBreaking (breakingChanges n) in
  let sb := writeSection sb titleFeatures (features n) in
  let sb := writeSection sb titleBugFixes (bugFixes n) in
  let sb := writeSection sb titleOther (otherChanges n) in
  sb.

(** [generateReleaseNotes]: [log] is the output of [git log] ([None]
    when the command failed), [existing] the content of the changelog
    file (empty when there is none).  The result is the content written
    to the file, or [None] when the function returns an error; reading
    and writing the file are taken to succeed. *)
Definition generateReleaseNotes (log : option gostring)
    (newTagForHeader today existing : gostring) : option gostring :=
  match getCommitMessagesBetweenRefs log with
  | None => None
  | Some commitMsgs =>
      let newChangelogContent :=
        buildMarkdown newTagForHeader today (categorize commitMsgs) in
      Some (newChangelogContent ++ existing)
  end.

(** The flag [main] keeps of the call: set when the call returned no
    error. *)
Definition changelogGenerated (r : option gostring) : bool :=
  match r with
  | Some _ => true
  | None => false
  end.

(** ** Package [strconv] and [%d] *)
Module strconv.

Definition isDigit (r : rune) : bool := ((48 <=? r) && (r <=? 57))%N.

Fixpoint runesOfUint (d : Decimal.uint) : gostring :=
  match d with
  | Decimal.Nil => []
  | Decimal.D0 d => 48%N :: runesOfUint d
  | Decimal.D1 d => 49%N :: runesOfUint d
  | Decimal.D2 d => 50%N :: runesOfUint d
  | Decimal.D3 d => 51%N :: runesOfUint d
  | Decimal.D4 d => 52%N :: runesOfUint d
  | Decimal.D5 d => 53%N :: runesOfUint d
  | Decimal.D6 d => 54%N :: runesOfUint d
  | Decimal.D7 d => 55%N :: runesOfUint d
  | Decimal.D8 d => 56%N :: runesOfUint d
  | Decimal.D9 d => 57%N :: runesOfUint d
  end.

(** [strconv.FormatUint(n, 10)], and [%d] of an unsigned value. *)
Definition FormatUint (n : N) : gostring := runesOfUint (N.to_uint n).

(** [%d] of a signed value. *)
Definition FormatInt (z : Z) : gostring :=
  match z with
  | Zneg p => 45%N :: FormatUint (Npos p)
  | _ => FormatUint (Z.to_N z)
  end.

(** The value of a run of decimal digits. *)
Definition digitsValue (s : gostring) : N :=
  fold_left (fun acc r => acc * 10 + (r - 48))%N s 0%N.

Definition allDigits (s : gostring) : bool :=
  negb (streq s []) && forallb isDigit s.

(** [strconv.ParseUint(s, 10, 64)]; [None] is an error (a syntax error,
    or a value out of range). *)
Definition ParseUint (s : gostring) : option N :=
  if allDigits s then
    let n := digitsValue s in
    if (n <? 2 ^ 64)%N then Some n else None
  else None.

(** [strconv.Atoi(s)] with a 64-bit [int]: an optional sign and decimal
    digits; [None] is an error. *)
Definition Atoi (s : gostring) : option Z :=
  let (neg, ds) :=
    match s with
    | 43%N :: s' => (false, s')
    | 45%N :: s' => (true, s')
    | _ => (false, s)
    end in
  if allDigits ds then
    let z := if neg then (- Z.of_N (digitsValue ds))%Z
             else Z.of_N (digitsValue ds) in
    if ((- 2 ^ 63 <=? z) && (z <? 2 ^ 63))%Z then Some z else None
  else None.

End strconv.

(** Arithmetic of the 64-bit types [uint64] and [int]. *)
Definition wrapUint64 (n : N) : N := (n mod 2 ^ 64)%N.
Definition wrapInt64 (z : Z) : Z := ((z + 2 ^ 63) mod 2 ^ 64 - 2 ^ 63)%Z.

(** ** Package [github.com/Masterminds/semver/v3]

    The part of the library [main.go] calls, after its [version.go]. *)
Module semver.

(** A [Version]; the field [original] is left out, nothing the program
    calls reads it. *)
Record Version := mkVersion {
  major : N;
  minor : N;
  patch : N;
  pre : gostring;
  metadata : gostring
}.

Definition Major (v : Version) : N := major v.
Definition Minor (v : Version) : N := minor v.
Definition Patch (v : Version) : N := patch v.
Definition Prerelease (v : Version) : gostring := pre v.

(** [v.String()]: the three numbers, then a hyphen and the prerelease if
    there is one, then a plus sign and the metadata if there is some. *)
Definition String (v : Version) : gostring :=
  strconv.FormatUint (major v) ++ str "." ++ strconv.FormatUint (minor v)
  ++ str "." ++ strconv.FormatUint (patch v)
  ++ (if streq (pre v) [] then [] else str "-" ++ pre v)
  ++ (if streq (metadata v) [] then [] else str "+" ++ metadata v).

(** [v.IncPatch()]: a version with a prerelease loses it and keeps its
    patch number; any other version has its patch number incremented.
    The metadata is unset in both cases. *)
Definition IncPatch (v : Version) : Version :=
  if negb (streq (pre v) [])
  then mkVersion (major v) (minor v) (patch v) [] []
  else mkVersion (major v) (minor v) (wrapUint64 (patch v + 1)) [] [].

(** [v.IncMinor()] *)
Definition IncMinor (v : Version) : Version :=
  mkVersion (major v) (wrapUint64 (minor v + 1)) 0 [] [].

(** [v.IncMajor()] *)
Definition IncMajor (v : Version) : Version :=
  mkVersion (wrapUint64 (major v + 1)) 0 0 [] [].

Definition isLetter (r : rune) : bool :=
  ((97 <=? r) && (r <=? 122) || (65 <=? r) && (r <=? 90))%N.

(** The constant [allowed]: the letters, the hyphen and the digits. *)
Definition isAllowed (r : rune) : bool :=
  isLetter r || (r =? 45)%N || strconv.isDigit r.

(** [validatePrerelease(p)]; [true] is a nil error.  The identifiers
    between the dots are not empty; one made of digits alone does not
    start with a zero unless it is a single digit; any other holds
    allowed runes only. *)
Definition validatePrerelease (p : gostring) : bool :=
  forallb
    (fun part =>
       if streq part [] then false
       else if forallb strconv.isDigit part then
              negb ((1 <? List.length part)%nat
                    && streq (firstn 1 part) (str "0"))
       else forallb isAllowed part)
    (strings.Split p (str ".")).

(** [validateMetadata(m)] *)
Definition validateMetadata (m : gostring) : bool :=
  forallb (fun part => negb (streq part []) && forallb isAllowed part)
    (strings.Split m (str ".")).

(** [v.SetPrerelease(pre)]: the new version and whether the error is
    nil.  With an error the version returned is [v] as it was. *)
Definition SetPrerelease (v : Version) (p : gostring) : Version * bool :=
  if (0 <? List.length p)%nat && negb (validatePrerelease p)
  then (v, false)
  else (mkVersion (major v) (minor v) (patch v) p (metadata v), true).

(** A number of the pattern of the library, [0|[1-9]\d*], on a run of
    digits that a rune which is no digit follows: the run is a single
    zero, or it does not start with a zero. *)
Definition noLeadingZero (ds : gostring) : bool :=
  match ds with
  | 48%N :: _ :: _ => false
  | _ => true
  end.

(** A dot and a number, when they are there. *)
Definition optDotDigits (s : gostring) : gostring * gostring :=
  match s with
  | 46%N :: s' =>
      let (ds, rest) := span strconv.isDigit s' in
      match ds with
      | [] => ([], s)
      | _ => if noLeadingZero ds then (ds, rest) else ([], s)
      end
  | _ => ([], s)
  end.

Definition identRune (r : rune) : bool := isAllowed r || (r =? 46)%N.

(** After [mark], identifiers separated by dots, when [s] starts with
    [mark]: the group and what follows it.  [None] when the mark is
    there but what follows is not made of such identifiers. *)
Definition optIdents (mark : rune) (s : gostring)
  : option (gostring * gostring) :=
  match s with
  | c :: s' =>
      if (c =? mark)%N then
        let (ids, rest) := span identRune s' in
        if forallb (fun part => negb (streq part []))
             (strings.Split ids (str "."))
        then Some (ids, rest) else None
      else Some ([], s)
  | [] => Some ([], s)
  end.

(** [semver.NewVersion(v)]; [None] is an error.  The text is matched as
    a whole against the pattern of the library: an optional [v], a
    number, up to two more groups of a dot and a number, an optional
    hyphen and prerelease, an optional plus sign and metadata.  A number
    is a zero, or digits that do not start with a zero: [01.2.3] and
    [1.04.0] are errors.  Every group is followed by a rune it cannot
    hold, so the longest run is the only one that can match.  The
    numbers are read with [ParseUint]; the identifiers of the prerelease
    and of the metadata are the ones [validatePrerelease] and
    [validateMetadata] accept. *)
Definition NewVersion (v : gostring) : option Version :=
  let s0 := match v with
            | 118%N :: s => s
            | _ => v
            end in
  let (d1, s1) := span strconv.isDigit s0 in
  let (d2, s2) := optDotDigits s1 in
  let (d3, s3) := optDotDigits s2 in
  match optIdents 45%N s3 with
  | None => None
  | Some (p, s4) =>
      match optIdents 43%N s4 with
      | None => None
      | Some (m, s5) =>
          if negb (streq s5 []) then None
          else if negb (noLeadingZero d1) then None
          else
            match strconv.ParseUint d1 with
            | None => None
            | Some ma =>
                let parse d := if streq d [] then Some 0%N
                               else strconv.ParseUint d in
                match parse d2, parse d3 with
                | Some mi, Some pa =>
                    if negb (streq p []) && negb (validatePrerelease p)
                    then None
                    else if negb (streq m []) && negb (validateMetadata m)
                    then None
                    else Some (mkVersion ma mi pa p m)
                | _, _ => None
                end
            end
      end
  end.

End semver.

(** ** Version calculation *)

(** The replacement of every rune outside letters, digits and the hyphen
    by a hyphen, [ReplaceAllString(branch, "-")] of [calculateNewVersion]. *)
Definition sanitizeBranch (branch : gostring) : gostring :=
  map (fun r => if semver.isLetter r || strconv.isDigit r || (r =? 45)%N
                then r else 45%N) branch.

Definition bindOpt {A B} (a : option A) (f : A -> option B) : option B :=
  match a with
  | Some x => f x
  | None => None
  end.

Notation "x <- a ;; k" := (bindOpt a (fun x => k))
  (at level 61, a at next level, right associativity).

(** One or more digits: what is left after their longest run. *)
Definition digits1 (s : gostring) : option gostring :=
  let (ds, rest) := span strconv.isDigit s in
  match ds with
  | [] => None
  | _ => Some rest
  end.

(** [branchPreReleaseRegex] at the start of [s]: a [v], three numbers
    separated by dots, a hyphen, the sanitized branch, a dot, and the
    group of digits that ends the text.  The result is that group.  Each
    run of digits is followed by a rune that is no digit, so the longest
    run is the only one that can match. *)
Definition matchBranchPreReleaseHere (sanitizedBranch s : gostring)
  : option gostring :=
  s <- stripPrefix s (str "v") ;;
  s <- digits1 s ;;
  s <- stripPrefix s (str ".") ;;
  s <- digits1 s ;;
  s <- stripPrefix s (str ".") ;;
  s <- digits1 s ;;
  s <- stripPrefix s (str "-") ;;
  s <- stripPrefix s sanitizedBranch ;;
  s <- stripPrefix s (str ".") ;;
  let (ds, rest) := span strconv.isDigit s in
  match ds, rest with
  | _ :: _, [] => Some ds
  | _, _ => None
  end.

(** [branchPreReleaseRegex.FindStringSubmatch(tag)], its group 1: the
    pattern is not anchored at the start, the leftmost match is taken. *)
Fixpoint findBranchPreRelease (sanitizedBranch tag : gostring)
  : option gostring :=
  orElse (matchBranchPreReleaseHere sanitizedBranch tag)
    (match tag with
     | [] => None
     | _ :: tag' => findBranchPreRelease sanitizedBranch tag'
     end).

(** One turn of the loop over the tags: [st] holds
    [highestBranchPreRelease] and [highestBranchPreReleaseNum]. *)
Definition scanTag (sanitizedBranch : gostring)
    (st : option semver.Version * Z) (tag : gostring)
  : option semver.Version * Z :=
  match findBranchPreRelease sanitizedBranch tag with
  | Some digits =>
      match strconv.Atoi digits with
      | Some num =>
          match semver.NewVersion (strings.TrimPrefix tag (str "v")) with
          | Some v => if (num >? snd st)%Z then (Some v, num) else st
          | None => st
          end
      | None => st
      end
  | None => st
  end.

(** The search for the highest pre-release tag of the branch; [tags] are
    the fields of the output of [git tag -l --sort=-v:refname], [None]
    when the command failed. *)
Definition highestBranchPreRelease (sanitizedBranch : gostring)
    (tags : option (list gostring)) : option semver.Version * Z :=
  match tags with
  | Some tags => fold_left (scanTag sanitizedBranch) tags (None, (-1)%Z)
  | None => (None, (-1)%Z)
  end.

(** [semver.NewVersion("0.0.0")] *)
Definition version000 : semver.Version := semver.mkVersion 0 0 0 [] [].

(** The loop of [getCurrentReleaseVersion]. *)
Fixpoint firstRelease (tags : list gostring) : semver.Version :=
  match tags with
  | [] => version000
  | tag0 :: rest =>
      let tag := strings.TrimSpace tag0 in
      if strings.HasPrefix tag (str "v") then
        let verStr := strings.TrimPrefix tag (str "v") in
        match semver.NewVersion verStr with
        | Some v => if streq (semver.Prerelease v) [] then v
                    else firstRelease rest
        | None => firstRelease rest
        end
      else firstRelease rest
  end.

(** [getCurrentReleaseVersion()]; [tags] are the fields of the output of
    [git tag -l "v*" --sort=-v:refname], [None] when the command failed,
    which is the one case with an error. *)
Definition getCurrentReleaseVersion (tags : option (list gostring))
  : option semver.Version :=
  match tags with
  | Some tags => Some (firstRelease tags)
  | None => None
  end.

(** [calculateNewVersion(current, bumpType, branch, preRelease)];
    [allTags] and [vTags] are the outputs of the two [git tag] commands.
    The error result is always nil; [None] is the nil dereference of the
    default case, should [NewVersion] refuse the base it is given. *)
Definition calculateNewVersion (allTags vTags : option (list gostring))
    (current : semver.Version) (bumpType branch : gostring)
    (preRelease : bool) : option gostring :=
  if negb preRelease then
    if streq bumpType (str "major")
    then Some (semver.String (semver.IncMajor current))
    else if streq bumpType (str "minor")
    then Some (semver.String (semver.IncMinor current))
    else Some (semver.String (semver.IncPatch current))
  else
    let sanitizedBranch := sanitizeBranch branch in
    match highestBranchPreRelease sanitizedBranch allTags with
    | (Some highest, highestBranchPreReleaseNum) =>
        let newPreRelease :=
          sanitizedBranch ++ str "."
          ++ strconv.FormatInt (wrapInt64 (highestBranchPreReleaseNum + 1)) in
        let newVer := highest in
        bumpedBase <-
          (if streq bumpType (str "major") then Some (semver.IncMajor newVer)
           else if streq bumpType (str "minor") then Some (semver.IncMinor newVer)
           else if streq bumpType (str "patch") then Some (semver.IncPatch newVer)
           else
             let base :=
               strconv.FormatUint (semver.Major newVer) ++ str "."
               ++ strconv.FormatUint (semver.Minor newVer) ++ str "."
               ++ strconv.FormatUint (semver.Patch newVer) in
             semver.NewVersion base) ;;
        Some (semver.String (fst (semver.SetPrerelease bumpedBase newPreRelease)))
    | (None, _) =>
        let latestRelease :=
          match getCurrentReleaseVersion vTags with
          | Some v => v
          | None => version000
          end in
        let newPreRelease := sanitizedBranch ++ str ".0" in
        Some (semver.String (fst (semver.SetPrerelease latestRelease newPreRelease)))
    end.

(** ** Tag formatting *)

Definition phMajor : gostring := str "{{.Major}}".
Definition phMinor : gostring := str "{{.Minor}}".
Definition phPatch : gostring := str "{{.Patch}}".
Definition phPrerelease : gostring := str "{{.Prerelease}}".

(** The replacements [main] makes in [formattedTag]. *)
Definition formatTag (tagFormat : gostring) (parsedNewVer : semver.Version)
  : gostring :=
  let formattedTag := tagFormat in
  let formattedTag :=
    strings.ReplaceAll formattedTag phMajor
      (strconv.FormatUint (semver.Major parsedNewVer)) in
  let formattedTag :=
    strings.ReplaceAll formattedTag phMinor
      (strconv.FormatUint (semver.Minor parsedNewVer)) in
  let formattedTag :=
    strings.ReplaceAll formattedTag phPatch
      (strconv.FormatUint (semver.Patch parsedNewVer)) in
  let prereleasePart := semver.Prerelease parsedNewVer in
  if negb (streq prereleasePart [])
  then strings.ReplaceAll formattedTag phPrerelease (str "-" ++ prereleasePart)
  else strings.ReplaceAll formattedTag phPrerelease [].

(** [finalTagName] of [main], from the tag format and the new version;
    [None] is the exit of the program when the new version does not
    parse. *)
Definition finalTagName (tagFormat newVersion : gostring) : option gostring :=
  if negb (streq tagFormat []) then
    match semver.NewVersion newVersion with
    | Some parsedNewVer => Some (formatTag tagFormat parsedNewVer)
    | None => None
    end
  else Some (str "v" ++ newVersion).

(** The default of the [tag-format] flag. *)
Definition defaultTagFormat : gostring :=
  str "v{{.Major}}.{{.Minor}}.{{.Patch}}{{.Prerelease}}".

(** ** The rest of [main.go] *)

(** The commit message [addAndCommitChangelog] builds,
    [fmt.Sprintf("chore(release): update changelog for %s [skip-ci]", tagName)]. *)
Definition changelogCommitMessage (tagName : gostring) : gostring :=
  str "chore(release): update changelog for " ++ tagName ++ str " [skip-ci]".

(** One turn of the loop of [getCurrentVersion]; [GreaterThan] is the
    method of that name of the library, [latestVersion] the local
    variable, [None] when it is nil. *)
Definition currentVersionStep
    (GreaterThan : semver.Version -> semver.Version -> bool)
    (latestVersion : option semver.Version) (tag0 : gostring)
  : option semver.Version :=
  let tag := strings.TrimSpace tag0 in
  if strings.HasPrefix tag (str "v") then
    let verStr := strings.TrimPrefix tag (str "v") in
    match semver.NewVersion verStr with
    | Some v =>
        match latestVersion with
        | None => Some v
        | Some latest => if GreaterThan v latest then Some v else latestVersion
        end
    | None => latestVersion
    end
  else latestVersion.

(** [getCurrentVersion()]; [tags] are the fields of the output of
    [git tag -l "v*" --sort=-v:refname], [None] when the command failed,
    which is the one case with an error. *)
Definition getCurrentVersion
    (GreaterThan : semver.Version -> semver.Version -> bool)
    (tags : option (list gostring)) : option semver.Version :=
  match tags with
  | None => None
  | Some tags =>
      match fold_left (currentVersionStep GreaterThan) tags None with
      | Some latestVersion => Some latestVersion
      | None => semver.NewVersion (str "0.0.0")
      end
  end.

(** [fromRef] of [main], and [oldTag] of its changelog block: empty for
    the version 0.0.0, the tag of the current version otherwise. *)
Definition fromRef (currentVersion : semver.Version) : gostring :=
  if (semver.Major currentVersion =? 0)%N && (semver.Minor currentVersion =? 0)%N
     && (semver.Patch currentVersion =? 0)%N
     && streq (semver.Prerelease currentVersion) []
  then []
  else str "v" ++ semver.String currentVersion.

(** [tagExists(tagName)]; [out] is the output of [git tag -l tagName],
    [None] when the command failed. *)
Definition tagExists (out : option gostring) : bool :=
  match out with
  | None => false
  | Some out => (0 <? List.length (strings.TrimSpace out))%nat
  end.

(** [newVersion] of [main]: the version of the [set-version] flag when
    it is set, the calculated one otherwise.  [tagListing tagName] is
    the output of [git tag -l tagName]; [None] is an exit of the
    program. *)
Definition newVersionOfMain (setVersionFlag : gostring)
    (tagListing : gostring -> option gostring)
    (allTags vTags : option (list gostring))
    (currentVersion : semver.Version) (bumpType branch : gostring)
    (preRelease : bool) : option gostring :=
  if negb (streq setVersionFlag []) then
    let versionStr := setVersionFlag in
    let versionStr :=
      if negb (strings.HasPrefix versionStr (str "v"))
      then str "v" ++ versionStr else versionStr in
    if tagExists (tagListing versionStr) then None
    else
      match semver.NewVersion (strings.TrimPrefix versionStr (str "v")) with
      | None => None
      | Some _ => Some (strings.TrimPrefix versionStr (str "v"))
      end
  else calculateNewVersion allTags vTags currentVersion bumpType branch preRelease.

(** [maxRetries] of [pushTag]. *)
Definition maxRetries : nat := 2.

(** The retry loop of [pushTag] from its turn [i], with [turns] turns
    left before [i] exceeds [maxRetries]: [push i] is whether the run of
    [git push origin tagName] in turn [i] succeeds.  The result is
    whether the loop is left without an error, and the number of runs of
    the command. *)
Fixpoint pushLoop (push : nat -> bool) (i turns : nat) : bool * nat :=
  match turns with
  | O => (true, i)
  | S turns' =>
      if push i then (true, S i)
      else if (i =? maxRetries)%nat then (false, S i)
      else pushLoop push (S i) turns'
  end.

(** [pushTag(tagName)]: whether the error is nil, and the number of runs
    of [git push origin tagName].  [remote] is the output of
    [git remote], [None] when the command failed.  The dry run before
    the loop and the push of the branch after it do not change the
    result. *)
Definition pushTag (remote : option gostring) (push : nat -> bool) : bool * nat :=
  match remote with
  | None => (false, O)
  | Some out =>
      if (List.length (strings.TrimSpace out) =? 0)%nat then (false, O)
      else pushLoop push O (maxRetries + 1)
  end.

(** [\s] of [regexp]: tab, line feed, form feed, carriage return, space. *)
Definition reSpace (r : rune) : bool :=
  ((r =? 9) || (r =? 10) || (r =? 12) || (r =? 13) || (r =? 32))%N.

(** The literal text of the pattern of [isDefaultBranch]. *)
Definition headBranchLabel : gostring := str "HEAD branch:".

(** The pattern of [isDefaultBranch] at a start of line: white space,
    the text [HEAD branch:], white space, and the group of runes that
    are no white space.  Each run is followed by a rune it cannot hold,
    so the longest run is the only one that can match. *)
Definition matchHeadBranchHere (s : gostring) : option gostring :=
  s1 <- stripPrefix (strings.dropWhile reSpace s) headBranchLabel ;;
  let (name, _) := span (fun r => negb (reSpace r)) (strings.dropWhile reSpace s1) in
  match name with
  | [] => None
  | _ => Some name
  end.

(** [FindStringSubmatch] of that pattern, its group 1: with the [m] flag
    a match starts at the start of the text or after a line feed, and
    the leftmost one is taken.  [bol] is whether [s] starts a line. *)
Fixpoint findHeadBranch (bol : bool) (s : gostring) : option gostring :=
  orElse (if bol then matchHeadBranchHere s else None)
    (match s with
     | [] => None
     | c :: s' => findHeadBranch (c =? LF)%N s'
     end).

(** [isDefaultBranch(branch)]; [out] is the output of
    [git remote show origin], [None] when the command failed. *)
Definition isDefaultBranch (out : option gostring) (branch : gostring) : bool :=
  match
    match out with
    | Some out => findHeadBranch true out
    | None => None
    end
  with
  | Some name =>
      let defaultBranch := strings.TrimSpace name in
      streq branch defaultBranch
  | None => streq branch (str "main") || streq branch (str "master")
  end.

(** [preRelease] of [main] after the check of the branch. *)
Definition preReleaseOfMain (preRelease : bool) (out : option gostring)
    (branch : gostring) : bool :=
  if negb preRelease && negb (isDefaultBranch out branch) then true
  else preRelease.

(** * Vocabulary of the statements

    Names for what the statements below speak of.  None of them is part
    of the program. *)

(** The texts of [commitPattern], read off the pattern: a type, then
    nothing, an open parenthesis or a scope in parentheses, then an
    optional exclamation mark, a colon, a space, and a subject without
    line feed up to the end. *)
Inductive InPattern : gostring -> Prop :=
| in_pattern (ty group breaking subject : gostring) :
    In ty commitTypes ->
    group = [] \/ group = str "("
    \/ (exists scope, forallb scopeRune scope = true
                      /\ group = str "(" ++ scope ++ str ")") ->
    breaking = [] \/ breaking = str "!" ->
    forallb dotRune subject = true ->
    InPattern (ty ++ group ++ breaking ++ str ": " ++ subject).

(** Whether a text starts with a lower-case ASCII letter. *)
Definition startsLower (s : gostring) : bool :=
  match s with
  | c :: _ => ((97 <=? c) && (c <=? 122))%N
  | [] => false
  end.

(** What a message does to the loop of [determineBumpType]. *)
Inductive Effect := Skipped | Breaks | RaisesMinor | RaisesPatch.

(** The loop body of [determineBumpType], read as the effect of one
    message. *)
Definition effect (msg0 : gostring) : Effect :=
  let msg := strings.TrimSpace msg0 in
  if streq msg [] || strings.HasPrefix msg (str "Merge ") then Skipped
  else
    match FindStringSubmatch msg with
    | None => Skipped
    | Some matches =>
        if isBreaking msg matches then Breaks
        else if streq (sub_type matches) (str "feat") then RaisesMinor
        else if streq (sub_type matches) (str "fix") then RaisesPatch
        else Skipped
    end.

(** The two assignments to [bumpType] in the loop. *)
Definition raiseMinor (bumpType : gostring) : gostring :=
  if negb (streq bumpType (str "major")) then str "minor" else bumpType.

Definition raisePatch (bumpType : gostring) : gostring :=
  if negb (streq bumpType (str "major")) && negb (streq bumpType (str "minor"))
  then str "patch" else bumpType.

(** Whether a message has the effect [e]. *)
Definition hasEffect (e : Effect) (msg0 : gostring) : bool :=
  match effect msg0, e with
  | Skipped, Skipped | Breaks, Breaks
  | RaisesMinor, RaisesMinor | RaisesPatch, RaisesPatch => true
  | _, _ => false
  end.

(** [l'] is [l] with messages satisfying [P] inserted anywhere. *)
Inductive inserted (P : gostring -> Prop) : list gostring -> list gostring -> Prop :=
| inserted_nil : inserted P [] []
| inserted_keep x l l' : inserted P l l' -> inserted P (x :: l) (x :: l')
| inserted_new x l l' : P x -> inserted P l l' -> inserted P l (x :: l').

(** A message [determineBumpType] is meant to pass over: a merge commit,
    or one whose trimmed text the grammar does not recognize. *)
Definition passedOver (msg0 : gostring) : Prop :=
  strings.HasPrefix msg0 (str "Merge ") = true \/
  FindStringSubmatch (strings.TrimSpace msg0) = None.

(** An entry appended to one of the four slices. *)
Definition addBreaking (entry : gostring) (n : Notes) : Notes :=
  mkNotes (breakingChanges n ++ [entry]) (features n) (bugFixes n) (otherChanges n).
Definition addFeature (entry : gostring) (n : Notes) : Notes :=
  mkNotes (breakingChanges n) (features n ++ [entry]) (bugFixes n) (otherChanges n).
Definition addBugFix (entry : gostring) (n : Notes) : Notes :=
  mkNotes (breakingChanges n) (features n) (bugFixes n ++ [entry]) (otherChanges n).
Definition addOther (entry : gostring) (n : Notes) : Notes :=
  mkNotes (breakingChanges n) (features n) (bugFixes n) (otherChanges n ++ [entry]).

(** The first line of a message, [strings.Split(msg, "\n")[0]]. *)
Definition firstLine (msg : gostring) : gostring :=
  nth 0 (strings.Split msg nl) [].

(** The entry of a breaking commit: the subject, and on a line of its
    own what follows the first marker of the message, if it has one. *)
Definition breakingEntry (msg subject : gostring) : gostring :=
  str "- **BREAKING CHANGE:** " ++ subject
  ++ match strings.afterFirst msg breakingMarker with
     | Some rest => nl ++ str "  " ++ strings.TrimSpace rest
     | None => []
     end.

(** Whether a commit is left out of the release notes before the
    grammar is tried. *)
Definition leftOut (msg : gostring) : bool :=
  shouldSkipCI msg || strings.HasPrefix msg (str "Merge ").

(** A section as it is rendered: the title, the entries line by line,
    an empty line. *)
Definition renderSection (sec : gostring * list gostring) : gostring :=
  fst sec ++ List.concat (map (fun entry => entry ++ nl) (snd sec)) ++ nl.

(** The sections in the order of the document. *)
Definition sections (n : Notes) : list (gostring * list gostring) :=
  [(titleBreaking, breakingChanges n); (titleFeatures, features n);
   (titleBugFixes, bugFixes n); (titleOther, otherChanges n)].

(** [len(entries) > 0] *)
Definition hasEntries (sec : gostring * list gostring) : bool :=
  match snd sec with
  | [] => false
  | _ :: _ => true
  end.

(** A rune that is no white space. *)
Definition notSpace (c : rune) : bool := negb (strings.IsSpace c).

(** A commit message with a subject line, an empty line and a body that
    holds the marker. *)
Definition featWithBody : gostring :=
  str "feat: add api" ++ nl ++ nl ++ str "BREAKING CHANGE: removes v1".

(** The types the changelog loop leaves out. *)
Definition droppedTypes : list gostring :=
  map str ["docs"; "style"; "test"; "chore"]%string.

(** The placeholders of a template replaced in one pass from the left:
    where a placeholder of [rules] starts, its replacement is written
    and the placeholder passed over; any other rune is copied. *)
Fixpoint expandFrom (rules : list (gostring * gostring)) (skip : nat)
    (s : gostring) : gostring :=
  match s with
  | [] => []
  | c :: s' =>
      match skip with
      | S k => expandFrom rules k s'
      | O =>
          match find (fun rule => strings.HasPrefix s (fst rule)) rules with
          | Some (old, new) => new ++ expandFrom rules (List.length old - 1) s'
          | None => c :: expandFrom rules O s'
          end
      end
  end.

(** The one-pass expansion of a template. *)
Definition expand (rules : list (gostring * gostring)) (s : gostring) : gostring :=
  expandFrom rules O s.

(** What each placeholder stands for in a version. *)
Definition placeholders (v : semver.Version) : list (gostring * gostring) :=
  [(phMajor, strconv.FormatUint (semver.major v));
   (phMinor, strconv.FormatUint (semver.minor v));
   (phPatch, strconv.FormatUint (semver.patch v));
   (phPrerelease,
    if streq (semver.pre v) [] then [] else str "-" ++ semver.pre v)].

(** The version 1.2.3. *)
Definition version123 : semver.Version := semver.mkVersion 1 2 3 [] [].

(** The tags of the examples: a release alone, and a release with a
    pre-release tag of the branch [feature/X]. *)
Definition release140 : list gostring := [str "v1.4.0"].
Definition branchTag140 : list gostring := [str "v1.4.0-feature-X.0"; str "v1.4.0"].

(** The versions a [Version] of the library can hold: three [uint64]
    numbers, a prerelease and metadata that are empty or valid. *)
Definition wellFormed (v : semver.Version) : bool :=
  (semver.major v <? 2 ^ 64)%N && (semver.minor v <? 2 ^ 64)%N
  && (semver.patch v <? 2 ^ 64)%N
  && (streq (semver.pre v) [] || semver.validatePrerelease (semver.pre v))
  && (streq (semver.metadata v) [] || semver.validateMetadata (semver.metadata v)).

(** What [String] writes after the numbers. *)
Definition suffixOf (v : semver.Version) : gostring :=
  (if streq (semver.pre v) [] then [] else str "-" ++ semver.pre v)
  ++ (if streq (semver.metadata v) [] then [] else str "+" ++ semver.metadata v).

(** The rank of a bump type. *)
Definition bumpRank (bumpType : gostring) : nat :=
  if streq bumpType (str "major") then 3
  else if streq bumpType (str "minor") then 2
  else if streq bumpType (str "patch") then 1
  else 0.

(** The higher of two bump types. *)
Definition maxBump (a b : gostring) : gostring :=
  if (bumpRank a <? bumpRank b)%nat then b else a.

(** The entries of two runs of the categorising loop, one after the
    other. *)
Definition appendNotes (n1 n2 : Notes) : Notes :=
  mkNotes (breakingChanges n1 ++ breakingChanges n2) (features n1 ++ features n2)
    (bugFixes n1 ++ bugFixes n2) (otherChanges n1 ++ otherChanges n2).

(** The number of entries. *)
Definition countEntries (n : Notes) : nat :=
  List.length (breakingChanges n) + List.length (features n)
  + List.length (bugFixes n) + List.length (otherChanges n).

(** A tag that counts in the search for the highest pre-release of a
    branch, with its version and number. *)
Definition qualifies (sanitizedBranch tag : gostring) (v : semver.Version) (num : Z)
  : Prop :=
  exists digits,
    findBranchPreRelease sanitizedBranch tag = Some digits
    /\ strconv.Atoi digits = Some num
    /\ semver.NewVersion (strings.TrimPrefix tag (str "v")) = Some v.

(** A tag that counts in the search for the current release. *)
Definition releaseTag (tag0 : gostring) (v : semver.Version) : Prop :=
  strings.HasPrefix (strings.TrimSpace tag0) (str "v") = true
  /\ semver.NewVersion (strings.TrimPrefix (strings.TrimSpace tag0) (str "v")) = Some v
  /\ semver.pre v = [].
(** An entry of one line, and one of one or two lines. *)
Definition oneLine (entry : gostring) : Prop := ~ In LF entry.

Definition oneOrTwoLines (entry : gostring) : Prop :=
  exists a b, oneLine a /\ oneLine b /\ (entry = a \/ entry = a ++ nl ++ b).

(** The entries of the four slices, line by line. *)
Definition tidy (n : Notes) : Prop :=
  Forall oneOrTwoLines (breakingChanges n) /\ Forall oneLine (features n)
  /\ Forall oneLine (bugFixes n) /\ Forall oneLine (otherChanges n).

(** Whether a text ends, or starts, with a line feed. *)
Definition endsLF (p : gostring) : bool :=
  match rev p with
  | c :: _ => (c =? 10)%N
  | [] => false
  end.

Definition startsLF (s : gostring) : bool :=
  match s with
  | c :: _ => (c =? 10)%N
  | [] => false
  end.
(** The numbers of entries of the three sections that follow the bump:
    the breaking changes, the features and the bug fixes. *)
Definition sectionCounts (n : Notes) : nat * nat * nat :=
  (List.length (breakingChanges n), List.length (features n),
   List.length (bugFixes n)).

(** The number of messages with the effect [e]. *)
Definition countEffect (e : Effect) (commitMsgs : list gostring) : nat :=
  List.length (filter (hasEffect e) commitMsgs).

(** A tag that counts in the search for the current version. *)
Definition versionTag (tag0 : gostring) (v : semver.Version) : Prop :=
  strings.HasPrefix (strings.TrimSpace tag0) (str "v") = true
  /\ semver.NewVersion (strings.TrimPrefix (strings.TrimSpace tag0) (str "v")) = Some v.

(** The base of the next pre-release of a branch: the switch of
    [calculateNewVersion] on the bump type, at the highest pre-release
    version of the branch; its default case reads the three numbers
    back. *)
Definition bumpedBaseOf (bumpType : gostring) (highest : semver.Version)
  : semver.Version :=
  if streq bumpType (str "major") then semver.IncMajor highest
  else if streq bumpType (str "minor") then semver.IncMinor highest
  else if streq bumpType (str "patch") then semver.IncPatch highest
  else semver.mkVersion (semver.major highest) (semver.minor highest)
         (semver.patch highest) [] [].

(** * Properties of the model *)

(** ** Strings *)

Lemma streq_eq (a b : gostring) : streq a b = true <-> a = b.
Proof.
  revert b; induction a as [|x a IH]; intros [|y b]; simpl; split;
    try congruence; try reflexivity.
  - intros H. apply andb_true_iff in H as [H1 H2].
    apply N.eqb_eq in H1. apply IH in H2. congruence.
  - intros H. injection H as -> ->. rewrite N.eqb_refl. simpl. now apply IH.
Qed.

Lemma streq_neq (a b : gostring) : streq a b = false <-> a <> b.
Proof.
  rewrite <- streq_eq. destruct (streq a b); split; congruence.
Qed.

Lemma HasPrefix_iff (s p : gostring) :
  strings.HasPrefix s p = true <-> exists r, s = p ++ r.
Proof.
  revert s; induction p as [|x p IH]; intros s; simpl.
  - split; [intros _; now exists s | reflexivity].
  - destruct s as [|c s].
    + split; [discriminate | intros [r H]; discriminate].
    + rewrite andb_true_iff, N.eqb_eq, IH. split.
      * intros [-> [r ->]]. now exists r.
      * intros [r H]. injection H as -> ->. split; [reflexivity | now exists r].
Qed.

Lemma HasPrefix_app (p r : gostring) : strings.HasPrefix (p ++ r) p = true.
Proof. apply HasPrefix_iff. now exists r. Qed.

Lemma skipn_prefix (p r : gostring) : skipn (List.length p) (p ++ r) = r.
Proof. induction p; simpl; auto. Qed.

Lemma stripPrefix_Some (s p r : gostring) :
  stripPrefix s p = Some r <-> s = p ++ r.
Proof.
  unfold stripPrefix. split.
  - destruct (strings.HasPrefix s p) eqn:E; [|discriminate].
    apply HasPrefix_iff in E as [r' ->]. rewrite skipn_prefix. congruence.
  - intros ->. now rewrite HasPrefix_app, skipn_prefix.
Qed.

Lemma span_app (f : rune -> bool) (s a b : gostring) :
  span f s = (a, b) -> s = a ++ b /\ forallb f a = true.
Proof.
  revert a b; induction s as [|c s IH]; simpl; intros a b H.
  - injection H as <- <-. auto.
  - destruct (f c) eqn:E.
    + destruct (span f s) as [a' b']. injection H as <- <-.
      destruct (IH _ _ eq_refl) as [-> Hf]. simpl. now rewrite E.
    + injection H as <- <-. auto.
Qed.

Lemma Contains_iff (s sub : gostring) :
  strings.Contains s sub = true <-> exists a b, s = a ++ sub ++ b.
Proof.
  induction s as [|c s IH]; simpl.
  - rewrite orb_false_r, HasPrefix_iff. split.
    + intros [r H]. now exists [], r.
    + intros [a [b H]]. destruct a; simpl in H.
      * now exists b.
      * discriminate.
  - rewrite orb_true_iff, HasPrefix_iff, IH. split.
    + intros [[r H] | [a [b H]]].
      * now exists [], r.
      * exists (c :: a), b. simpl. now rewrite H.
    + intros [[|x a] [b H]]; simpl in H.
      * left. now exists b.
      * right. injection H as -> ->. now exists a, b.
Qed.

(** ** The grammar *)

Lemma forallb_dot_app (a b : gostring) :
  forallb dotRune (a ++ b) = forallb dotRune a && forallb dotRune b.
Proof. apply forallb_app. Qed.

Lemma scopeRune_dot (s : gostring) :
  forallb scopeRune s = true -> forallb dotRune s = true.
Proof.
  induction s as [|c s IH]; simpl; auto.
  rewrite !andb_true_iff. intros [H1 H2]. split; auto.
  unfold scopeRune, dotRune in *.
  destruct (c =? LF)%N; auto. now rewrite !orb_true_r in H1.
Qed.

Lemma matchSubject_dot (s subject : gostring) :
  matchSubject s = Some subject ->
  s = str ": " ++ subject /\ forallb dotRune subject = true.
Proof.
  unfold matchSubject. destruct (stripPrefix s (str ": ")) as [x|] eqn:E;
    [|discriminate].
  apply stripPrefix_Some in E.
  destruct (forallb dotRune x) eqn:F; [|discriminate].
  intros H; injection H as <-. auto.
Qed.

Lemma matchBreaking_dot (s b subject : gostring) :
  matchBreaking s = Some (b, subject) ->
  s = b ++ str ": " ++ subject /\ forallb dotRune subject = true
  /\ (b = [] \/ b = str "!").
Proof.
  assert (plain : option_map (pair ([] : gostring)) (matchSubject s) = Some (b, subject) ->
    s = b ++ str ": " ++ subject /\ forallb dotRune subject = true
    /\ (b = [] \/ b = str "!")).
  { destruct (matchSubject s) as [y|] eqn:M; cbn [option_map]; [|discriminate].
    intros H; injection H as <- <-.
    apply matchSubject_dot in M as [M1 M2]. auto. }
  unfold matchBreaking, orElse.
  destruct (stripPrefix s (str "!")) as [s'|] eqn:E; [|exact plain].
  destruct (matchSubject s') as [x|] eqn:M; cbn [option_map]; [|exact plain].
  apply stripPrefix_Some in E. subst s.
  intros H; injection H as <- <-.
  apply matchSubject_dot in M as [-> F]. auto.
Qed.

Lemma matchBreaking_LF (s b subject : gostring) :
  matchBreaking s = Some (b, subject) -> forallb dotRune s = true.
Proof.
  intros H. apply matchBreaking_dot in H as [-> [F [-> | ->]]];
    rewrite !forallb_dot_app, F; reflexivity.
Qed.

Lemma option_map_pair_Some {A B} (a : A) (o : option B) (x : A) (y : B) :
  option_map (pair a) o = Some (x, y) -> x = a /\ o = Some y.
Proof. destruct o; simpl; [|discriminate]. intros H; injection H as <- <-. auto. Qed.

Lemma matchScope_LF (s scope b subject : gostring) :
  matchScope s = Some (scope, (b, subject)) -> forallb dotRune s = true.
Proof.
  unfold matchScope, orElse.
  destruct (stripPrefix s (str "(")) as [s1|] eqn:E.
  - apply stripPrefix_Some in E. subst s.
    destruct (span scopeRune s1) as [sc s2] eqn:Sp.
    apply span_app in Sp as [-> Fsc].
    assert (alt2 : forall o, option_map (pair ([] : gostring)) (matchBreaking (sc ++ s2)) = Some o
              -> forallb dotRune (str "(" ++ sc ++ s2) = true).
    { intros [x [y z]] H. apply option_map_pair_Some in H as [_ H].
      apply matchBreaking_LF in H. rewrite forallb_dot_app, H. reflexivity. }
    assert (alt3 : forall o, option_map (pair ([] : gostring)) (matchBreaking (str "(" ++ sc ++ s2)) = Some o
              -> forallb dotRune (str "(" ++ sc ++ s2) = true).
    { intros [x [y z]] H. apply option_map_pair_Some in H as [_ H].
      now apply matchBreaking_LF in H. }
    destruct (stripPrefix s2 (str ")")) as [s3|] eqn:E3.
    + apply stripPrefix_Some in E3. subst s2.
      destruct (option_map (pair sc) (matchBreaking s3)) as [o|] eqn:M1.
      * intros _. destruct o as [x [y z]].
        apply option_map_pair_Some in M1 as [_ M1].
        apply matchBreaking_LF in M1.
        rewrite !forallb_dot_app, M1, (scopeRune_dot _ Fsc). reflexivity.
      * destruct (option_map (pair []) (matchBreaking (sc ++ str ")" ++ s3))) eqn:M2.
        -- intros _. eapply alt2; eauto.
        -- destruct (option_map (pair []) (matchBreaking (str "(" ++ sc ++ str ")" ++ s3))) eqn:M3;
             [|discriminate]. intros _. eapply alt3; eauto.
    + destruct (option_map (pair []) (matchBreaking (sc ++ s2))) eqn:M2.
      * intros _. eapply alt2; eauto.
      * destruct (option_map (pair []) (matchBreaking (str "(" ++ sc ++ s2))) eqn:M3;
          [|discriminate]. intros _. eapply alt3; eauto.
  - destruct (option_map (pair []) (matchBreaking s)) as [[x [y z]]|] eqn:M; [|discriminate].
    intros _. apply option_map_pair_Some in M as [_ M].
    now apply matchBreaking_LF in M.
Qed.

Lemma matchType_Some (s ty : gostring) (m : Submatch) :
  matchType s ty = Some m ->
  sub_type m = ty /\
  exists s', s = ty ++ s' /\
    matchScope s' = Some (sub_scope m, (sub_breaking m, sub_subject m)).
Proof.
  unfold matchType. destruct (stripPrefix s ty) as [s'|] eqn:E; [|discriminate].
  apply stripPrefix_Some in E.
  destruct (matchScope s') as [[sc [b sj]]|] eqn:M; [|discriminate].
  intros H; injection H as <-. simpl. split; [reflexivity|]. now exists s'.
Qed.

Lemma FindStringSubmatch_Some (s : gostring) (m : Submatch) :
  FindStringSubmatch s = Some m ->
  exists ty, In ty commitTypes /\ matchType s ty = Some m.
Proof.
  unfold FindStringSubmatch. induction commitTypes as [|ty l IH]; simpl.
  - discriminate.
  - unfold orElse at 1. destruct (matchType s ty) as [m'|] eqn:E.
    + intros H; injection H as <-. exists ty. auto.
    + intros H. destruct (IH H) as [ty' [I M]]. exists ty'. auto.
Qed.

Lemma matchSubject_complete (subject : gostring) :
  forallb dotRune subject = true ->
  matchSubject (str ": " ++ subject) = Some subject.
Proof.
  intros H. unfold matchSubject.
  rewrite (proj2 (stripPrefix_Some _ _ subject) eq_refl). now rewrite H.
Qed.

Lemma matchBreaking_complete (breaking subject : gostring) :
  breaking = [] \/ breaking = str "!" ->
  forallb dotRune subject = true ->
  matchBreaking (breaking ++ str ": " ++ subject) = Some (breaking, subject).
Proof.
  intros [-> | ->] H; unfold matchBreaking.
  - cbn [app]. change (stripPrefix (str ": " ++ subject) (str "!")) with (@None gostring).
    cbn [orElse]. now rewrite matchSubject_complete.
  - rewrite (proj2 (stripPrefix_Some _ _ (str ": " ++ subject)) eq_refl).
    now rewrite matchSubject_complete.
Qed.

Lemma span_run (f : rune -> bool) (a : gostring) (c : rune) (b : gostring) :
  forallb f a = true -> f c = false -> span f (a ++ c :: b) = (a, c :: b).
Proof.
  intros H N. induction a as [|x a IH]; simpl.
  - now rewrite N.
  - simpl in H. apply andb_true_iff in H as [H1 H2]. rewrite H1.
    now rewrite (IH H2).
Qed.

Lemma orElse_Some {A} (a b : option A) :
  b <> None -> orElse a b <> None.
Proof. destruct a; simpl; congruence. Qed.

Lemma matchScope_complete (group breaking subject : gostring) :
  group = [] \/ group = str "("
  \/ (exists scope, forallb scopeRune scope = true
                    /\ group = str "(" ++ scope ++ str ")") ->
  breaking = [] \/ breaking = str "!" ->
  forallb dotRune subject = true ->
  matchScope (group ++ breaking ++ str ": " ++ subject) <> None.
Proof.
  intros G B S. pose proof (matchBreaking_complete _ _ B S) as M.
  unfold matchScope. destruct G as [-> | [-> | [scope [F ->]]]].
  - apply orElse_Some, orElse_Some. cbn [app]. now rewrite M.
  - apply orElse_Some.
    rewrite (proj2 (stripPrefix_Some _ _ (breaking ++ str ": " ++ subject)) eq_refl).
    rewrite M. discriminate.
  - rewrite <- !app_assoc.
    rewrite (proj2 (stripPrefix_Some _ _
                      (scope ++ str ")" ++ breaking ++ str ": " ++ subject)) eq_refl).
    change (str ")" ++ breaking ++ str ": " ++ subject)
      with (41%N :: breaking ++ str ": " ++ subject).
    rewrite (span_run scopeRune scope 41%N _ F eq_refl).
    change (41%N :: breaking ++ str ": " ++ subject)
      with (str ")" ++ breaking ++ str ": " ++ subject).
    rewrite (proj2 (stripPrefix_Some _ _ (breaking ++ str ": " ++ subject)) eq_refl).
    rewrite M. discriminate.
Qed.

Lemma matchScope_sound (s scope b subject : gostring) :
  matchScope s = Some (scope, (b, subject)) ->
  exists group,
    s = group ++ b ++ str ": " ++ subject
    /\ (group = [] \/ group = str "("
        \/ (exists sc, forallb scopeRune sc = true
                       /\ group = str "(" ++ sc ++ str ")"))
    /\ (b = [] \/ b = str "!")
    /\ forallb dotRune subject = true.
Proof.
  assert (plain : forall t g, 
             (g = [] \/ g = str "(" \/ (exists sc, forallb scopeRune sc = true
                       /\ g = str "(" ++ sc ++ str ")")) ->
             option_map (pair ([] : gostring)) (matchBreaking t) = Some (scope, (b, subject)) ->
             exists group,
               g ++ t = group ++ b ++ str ": " ++ subject
               /\ (group = [] \/ group = str "("
                   \/ (exists sc, forallb scopeRune sc = true
                                  /\ group = str "(" ++ sc ++ str ")"))
               /\ (b = [] \/ b = str "!")
               /\ forallb dotRune subject = true).
  { intros t g G H. apply option_map_pair_Some in H as [_ H].
    apply matchBreaking_dot in H as [-> [F B]]. exists g. auto. }
  unfold matchScope.
  destruct (stripPrefix s (str "(")) as [s1|] eqn:E.
  - apply stripPrefix_Some in E. subst s.
    destruct (span scopeRune s1) as [sc s2] eqn:Sp.
    apply span_app in Sp as [-> Fsc].
    assert (rest : orElse (option_map (pair []) (matchBreaking (sc ++ s2)))
                     (option_map (pair []) (matchBreaking (str "(" ++ sc ++ s2)))
                   = Some (scope, (b, subject)) ->
                   exists group,
                     str "(" ++ sc ++ s2 = group ++ b ++ str ": " ++ subject
                     /\ (group = [] \/ group = str "("
                         \/ (exists sc, forallb scopeRune sc = true
                                        /\ group = str "(" ++ sc ++ str ")"))
                     /\ (b = [] \/ b = str "!")
                     /\ forallb dotRune subject = true).
    { destruct (option_map (pair []) (matchBreaking (sc ++ s2))) as [o|] eqn:M2;
        cbn [orElse].
      - intros H. rewrite H in M2. apply (plain _ (str "(")); auto.
      - intros H. apply (plain _ []) in H; auto. }
    destruct (stripPrefix s2 (str ")")) as [s3|] eqn:E3; [|exact rest].
    destruct (option_map (pair sc) (matchBreaking s3)) as [o|] eqn:M1;
      [|exact rest].
    cbn [orElse]. intros H. rewrite H in M1. apply option_map_pair_Some in M1 as [-> M1].
    apply stripPrefix_Some in E3. subst s2.
    apply matchBreaking_dot in M1 as [-> [F B]].
    exists (str "(" ++ sc ++ str ")"). split; [now rewrite <- !app_assoc|].
    split; [|auto]. right. right. now exists sc.
  - cbn [orElse]. intros H. apply (plain _ []) in H; auto.
Qed.

(** The matcher recognizes the texts of the pattern and no other. *)
Lemma MatchString_InPattern (s : gostring) :
  MatchString s = true <-> InPattern s.
Proof.
  unfold MatchString. split.
  - destruct (FindStringSubmatch s) as [m|] eqn:E; [|discriminate]. intros _.
    apply FindStringSubmatch_Some in E as [ty [I M]].
    apply matchType_Some in M as [_ [s' [-> M]]].
    apply matchScope_sound in M as [group [-> [G [B F]]]].
    now constructor.
  - intros [ty group breaking subject I G B F].
    assert (M : matchType (ty ++ group ++ breaking ++ str ": " ++ subject) ty <> None).
    { unfold matchType. rewrite (proj2 (stripPrefix_Some _ _ _) eq_refl).
      pose proof (matchScope_complete _ _ _ G B F) as C.
      destruct (matchScope _) as [[sc [b sj]]|]; congruence. }
    unfold FindStringSubmatch. revert I. induction commitTypes as [|ty' l IH].
    + intros [].
    + intros [-> | I]; cbn [fold_right].
      * destruct (matchType _ ty); [reflexivity | congruence].
      * destruct (matchType _ ty'); [reflexivity|]. cbn [orElse]. now apply IH.
Qed.

(** The first alternative that matches is taken: a scope in
    parentheses before a lone parenthesis with a breaking mark. *)
Example FindStringSubmatch_scope_first :
  FindStringSubmatch (str "feat(!: x): y")
  = Some (mkSubmatch (str "feat") (str "!: x") [] (str "y"))
  /\ FindStringSubmatch (str "feat(!: y")
     = Some (mkSubmatch (str "feat") [] (str "!") (str "y"))
  /\ FindStringSubmatch (str "feature: y") = None.
Proof. repeat split; reflexivity. Qed.

(** A message the grammar recognizes holds no line feed. *)
Lemma FindStringSubmatch_no_LF (s : gostring) (m : Submatch) :
  FindStringSubmatch s = Some m -> forallb dotRune s = true.
Proof.
  intros H. apply FindStringSubmatch_Some in H as [ty [I M]].
  apply matchType_Some in M as [_ [s' [-> M]]].
  apply matchScope_LF in M. rewrite forallb_dot_app, M, andb_true_r.
  assert (A : forallb (forallb dotRune) commitTypes = true) by reflexivity.
  rewrite forallb_forall in A. now apply A.
Qed.

Lemma In_LF_not_dot (s : gostring) :
  In LF s -> forallb dotRune s = false.
Proof.
  intros H. destruct (forallb dotRune s) eqn:E; [|reflexivity].
  rewrite forallb_forall in E. apply E in H. discriminate.
Qed.

(** A message with a line feed is not recognized. *)
Lemma FindStringSubmatch_LF (s : gostring) :
  In LF s -> FindStringSubmatch s = None.
Proof.
  intros H. destruct (FindStringSubmatch s) as [m|] eqn:E; [|reflexivity].
  apply FindStringSubmatch_no_LF in E. rewrite In_LF_not_dot in E; auto.
  discriminate.
Qed.

(** A recognized message starts with a lower-case letter, the first of
    its type. *)
Lemma FindStringSubmatch_startsLower (s : gostring) (m : Submatch) :
  FindStringSubmatch s = Some m -> startsLower s = true.
Proof.
  intros H. apply FindStringSubmatch_Some in H as [ty [I M]].
  apply matchType_Some in M as [_ [s' [-> M]]].
  assert (A : forallb startsLower commitTypes = true) by reflexivity.
  rewrite forallb_forall in A. apply A in I.
  destruct ty; [discriminate | exact I].
Qed.

Lemma startsLower_not_empty (s : gostring) :
  startsLower s = true -> streq s [] = false.
Proof. destruct s; [discriminate | reflexivity]. Qed.

Lemma startsLower_not_Merge (s : gostring) :
  startsLower s = true -> strings.HasPrefix s (str "Merge ") = false.
Proof.
  destruct s as [|c s]; [discriminate|]. simpl. intros H.
  destruct (c =? 77)%N eqn:E; [|reflexivity].
  apply N.eqb_eq in E. subst c. discriminate.
Qed.

(** ** Bump resolution *)

Lemma determineBumpTypeFrom_cons (b msg0 : gostring) (rest : list gostring) :
  determineBumpTypeFrom b (msg0 :: rest) =
  match effect msg0 with
  | Skipped => determineBumpTypeFrom b rest
  | Breaks => str "major"
  | RaisesMinor => determineBumpTypeFrom (raiseMinor b) rest
  | RaisesPatch => determineBumpTypeFrom (raisePatch b) rest
  end.
Proof.
  unfold effect, raiseMinor, raisePatch. cbn [determineBumpTypeFrom]. cbv zeta.
  destruct (streq (strings.TrimSpace msg0) []
            || strings.HasPrefix (strings.TrimSpace msg0) (str "Merge "));
    [reflexivity|].
  destruct (FindStringSubmatch (strings.TrimSpace msg0)) as [m|]; [|reflexivity].
  destruct (isBreaking (strings.TrimSpace msg0) m); [reflexivity|].
  destruct (streq (sub_type m) (str "feat")); [reflexivity|].
  destruct (streq (sub_type m) (str "fix")); reflexivity.
Qed.

Lemma raise_facts (b : gostring) :
  raiseMinor (raiseMinor b) = raiseMinor b /\
  raisePatch (raiseMinor b) = raiseMinor b /\
  raiseMinor (raisePatch b) = raiseMinor b /\
  raisePatch (raisePatch b) = raisePatch b.
Proof.
  unfold raiseMinor, raisePatch.
  destruct (streq b (str "major")) eqn:E1; cbn [negb andb].
  - rewrite ?E1; cbn [negb andb]; rewrite ?E1; auto.
  - destruct (streq b (str "minor")) eqn:E2; cbn [negb andb];
      rewrite ?E1, ?E2; cbn [negb andb]; auto.
Qed.

(** The loop computes the strongest effect of the list on [bumpType]. *)
Lemma determineBumpTypeFrom_spec (msgs : list gostring) (b : gostring) :
  determineBumpTypeFrom b msgs =
  if existsb (hasEffect Breaks) msgs then str "major"
  else if existsb (hasEffect RaisesMinor) msgs then raiseMinor b
  else if existsb (hasEffect RaisesPatch) msgs then raisePatch b
  else b.
Proof.
  revert b; induction msgs as [|m msgs IH]; intros b.
  - reflexivity.
  - rewrite determineBumpTypeFrom_cons. cbn [existsb]. unfold hasEffect at 1 3 5.
    destruct (raise_facts b) as [F1 [F2 [F3 F4]]].
    destruct (effect m); cbn [orb]; rewrite ?IH, ?F1, ?F2, ?F3, ?F4;
      try reflexivity;
      destruct (existsb (hasEffect Breaks) msgs); try reflexivity;
      destruct (existsb (hasEffect RaisesMinor) msgs); try reflexivity;
      destruct (existsb (hasEffect RaisesPatch) msgs); reflexivity.
Qed.

Lemma existsb_Permutation {A} (f : A -> bool) (l l' : list A) :
  Permutation l l' -> existsb f l = existsb f l'.
Proof.
  intros P. destruct (existsb f l) eqn:E; symmetry.
  - apply existsb_exists in E as [x [I F]]. apply existsb_exists.
    exists x. split; auto. eapply Permutation_in; eauto.
  - destruct (existsb f l') eqn:E'; [|reflexivity].
    apply existsb_exists in E' as [x [I F]].
    assert (existsb f l = true); [|congruence].
    apply existsb_exists. exists x. split; auto.
    eapply Permutation_in; [apply Permutation_sym|]; eauto.
Qed.

Lemma determineBumpType_Permutation (msgs msgs' : list gostring) :
  Permutation msgs msgs' -> determineBumpType msgs = determineBumpType msgs'.
Proof.
  intros P. unfold determineBumpType. rewrite !determineBumpTypeFrom_spec.
  now rewrite !(fun f => existsb_Permutation f _ _ P).
Qed.

(** ** White space *)

Lemma dropWhile_app_stop (f : rune -> bool) (a b : gostring) :
  existsb (fun c => negb (f c)) a = true ->
  strings.dropWhile f (a ++ b) = strings.dropWhile f a ++ b.
Proof.
  induction a as [|c a IH]; simpl; [discriminate|].
  destruct (f c); simpl; auto.
Qed.

Lemma dropWhile_all (f : rune -> bool) (a b : gostring) :
  existsb (fun c => negb (f c)) a = false ->
  strings.dropWhile f (a ++ b) = strings.dropWhile f b.
Proof.
  induction a as [|c a IH]; simpl; auto.
  destruct (f c); simpl; [auto | discriminate].
Qed.

(** Trimming on the right leaves a first rune that is no space. *)
Lemma TrimRight_cons (c : rune) (s : gostring) :
  strings.IsSpace c = false ->
  strings.TrimRight (c :: s) = c :: strings.TrimRight s.
Proof.
  intros H. unfold strings.TrimRight. simpl.
  destruct (existsb (fun c => negb (strings.IsSpace c)) (rev s)) eqn:E.
  - rewrite dropWhile_app_stop by exact E. now rewrite rev_app_distr.
  - rewrite dropWhile_all by exact E. simpl. rewrite H.
    replace (strings.dropWhile strings.IsSpace (rev s)) with ([] : gostring);
      [reflexivity|].
    symmetry. rewrite <- (app_nil_r (rev s)). now rewrite dropWhile_all.
Qed.

Lemma TrimSpace_cons (c : rune) (s : gostring) :
  strings.IsSpace c = false ->
  strings.TrimSpace (c :: s) = c :: strings.TrimRight s.
Proof.
  intros H. unfold strings.TrimSpace, strings.TrimLeft. simpl. rewrite H.
  now apply TrimRight_cons.
Qed.

(** Text between two runes that are no spaces survives the trimming. *)
Lemma TrimSpace_keeps (a b mid : gostring) (x y : rune) :
  strings.IsSpace x = false -> strings.IsSpace y = false ->
  exists a' b', strings.TrimSpace (a ++ x :: mid ++ y :: b) = a' ++ x :: mid ++ y :: b'.
Proof.
  intros Hx Hy. unfold strings.TrimSpace, strings.TrimLeft.
  assert (L : exists a', strings.dropWhile strings.IsSpace (a ++ x :: mid ++ y :: b)
                         = a' ++ x :: mid ++ y :: b).
  { induction a as [|c a [a' IH]]; simpl.
    - rewrite Hx. now exists [].
    - destruct (strings.IsSpace c); [now exists a' | now exists (c :: a)]. }
  destruct L as [a' ->].
  assert (R : forall s, exists b', strings.TrimRight (s ++ y :: b) = s ++ y :: b').
  { intros s. unfold strings.TrimRight. rewrite rev_app_distr. simpl.
    rewrite <- app_assoc. simpl.
    assert (Q : exists r, strings.dropWhile strings.IsSpace (rev b ++ y :: rev s)
                          = r ++ y :: rev s).
    { induction (rev b) as [|c r [r' IH]]; simpl.
      - rewrite Hy. now exists [].
      - destruct (strings.IsSpace c); [now exists r' | now exists (c :: r)]. }
    destruct Q as [r ->]. exists (rev r).
    rewrite rev_app_distr. simpl. rewrite rev_involutive, <- app_assoc. reflexivity. }
  destruct (R (a' ++ x :: mid)) as [b' E]. exists a', b'.
  rewrite <- !app_assoc in E. simpl in E. exact E.
Qed.

Lemma Contains_TrimSpace_marker (s : gostring) :
  strings.Contains s breakingMarker = true ->
  strings.Contains (strings.TrimSpace s) breakingMarker = true.
Proof.
  rewrite !Contains_iff. intros [a [b ->]].
  destruct (TrimSpace_keeps a b (str "REAKING CHANGE") 66%N 58%N
              eq_refl eq_refl) as [a' [b' E]].
  exists a', b'. exact E.
Qed.

(** ** The effect of a message on the bump *)

Lemma effect_recognized (msg0 : gostring) (m : Submatch) :
  FindStringSubmatch (strings.TrimSpace msg0) = Some m ->
  effect msg0 =
  if isBreaking (strings.TrimSpace msg0) m then Breaks
  else if streq (sub_type m) (str "feat") then RaisesMinor
  else if streq (sub_type m) (str "fix") then RaisesPatch
  else Skipped.
Proof.
  intros H. unfold effect. cbv zeta.
  pose proof (FindStringSubmatch_startsLower _ _ H) as L.
  rewrite (startsLower_not_empty _ L), (startsLower_not_Merge _ L), H.
  reflexivity.
Qed.

Lemma effect_unrecognized (msg0 : gostring) :
  FindStringSubmatch (strings.TrimSpace msg0) = None -> effect msg0 = Skipped.
Proof.
  intros H. unfold effect. cbv zeta. rewrite H.
  now destruct (streq _ _ || _).
Qed.

Lemma effect_Merge (msg0 : gostring) :
  strings.HasPrefix msg0 (str "Merge ") = true -> effect msg0 = Skipped.
Proof.
  intros H. apply HasPrefix_iff in H as [r ->]. apply effect_unrecognized.
  change (str "Merge " ++ r) with (77%N :: (str "erge " ++ r)).
  rewrite TrimSpace_cons by reflexivity.
  destruct (FindStringSubmatch _) as [m|] eqn:E; [|reflexivity].
  apply FindStringSubmatch_startsLower in E. discriminate.
Qed.

Lemma effect_LF (msg0 : gostring) :
  In LF (strings.TrimSpace msg0) -> effect msg0 = Skipped.
Proof.
  intros H. apply effect_unrecognized. now apply FindStringSubmatch_LF.
Qed.

Lemma hasEffect_true (e : Effect) (msg0 : gostring) :
  effect msg0 = e -> hasEffect e msg0 = true.
Proof. intros <-. unfold hasEffect. now destruct (effect msg0). Qed.

Lemma hasEffect_Skipped (e : Effect) (msg0 : gostring) :
  effect msg0 = Skipped -> e <> Skipped -> hasEffect e msg0 = false.
Proof. intros H N. unfold hasEffect. rewrite H. now destruct e. Qed.

Lemma passedOver_Skipped (msg0 : gostring) :
  passedOver msg0 -> effect msg0 = Skipped.
Proof. intros [H | H]; [now apply effect_Merge | now apply effect_unrecognized]. Qed.

Lemma existsb_inserted (e : Effect) (l l' : list gostring) :
  e <> Skipped -> inserted passedOver l l' ->
  existsb (hasEffect e) l' = existsb (hasEffect e) l.
Proof.
  intros N H. induction H; simpl.
  - reflexivity.
  - now rewrite IHinserted.
  - rewrite (hasEffect_Skipped e x (passedOver_Skipped x H) N). exact IHinserted.
Qed.

Lemma determineBumpTypeFrom_inserted (b : gostring) (l l' : list gostring) :
  inserted passedOver l l' ->
  determineBumpTypeFrom b l' = determineBumpTypeFrom b l.
Proof.
  intros H. rewrite !determineBumpTypeFrom_spec.
  now rewrite !(fun e N => existsb_inserted e _ _ N H) by discriminate.
Qed.

(** The result of [determineBumpType], by the effects present. *)
Lemma determineBumpType_spec (msgs : list gostring) :
  determineBumpType msgs =
  if existsb (hasEffect Breaks) msgs then str "major"
  else if existsb (hasEffect RaisesMinor) msgs then str "minor"
  else if existsb (hasEffect RaisesPatch) msgs then str "patch"
  else str "none".
Proof.
  unfold determineBumpType. now rewrite determineBumpTypeFrom_spec.
Qed.

Lemma existsb_In {A} (f : A -> bool) (l : list A) (x : A) :
  In x l -> f x = true -> existsb f l = true.
Proof. intros I F. apply existsb_exists. now exists x. Qed.

(** Claim C1, as the code has it: when a list of commit messages holds
    a message whose text, trimmed of white space as [determineBumpType]
    trims it, is recognized by the grammar, and that message is breaking
    (the [breaking] group took part in the match, or the message holds
    the marker [BREAKING CHANGE:]), then [determineBumpType] returns
    major, whatever the other messages and their order. *)
Theorem determineBumpType_breaking_major
    (commitMsgs : list gostring) (msg0 : gostring) (matches : Submatch) :
  In msg0 commitMsgs ->
  FindStringSubmatch (strings.TrimSpace msg0) = Some matches ->
  sub_breaking matches <> [] \/ strings.Contains msg0 breakingMarker = true ->
  determineBumpType commitMsgs = str "major".
Proof.
  intros I R B. rewrite determineBumpType_spec.
  rewrite (existsb_In (hasEffect Breaks) _ msg0 I); [reflexivity|].
  apply hasEffect_true. rewrite (effect_recognized _ _ R).
  replace (isBreaking (strings.TrimSpace msg0) matches) with true; [reflexivity|].
  symmetry. unfold isBreaking. apply orb_true_iff. destruct B as [B | B].
  - left. apply negb_true_iff. now apply streq_neq.
  - right. now apply Contains_TrimSpace_marker.
Qed.

(** The amended claim C1 at a list with a breaking feat between a fix
    and a feat. *)
Lemma determineBumpType_breaking_major_witness :
  determineBumpType [str "fix: a"; str " feat(api)!: b "; str "feat: c"] = str "major".
Proof.
  apply (determineBumpType_breaking_major _ (str " feat(api)!: b ")
           (mkSubmatch (str "feat") (str "api") (str "!") (str "b"))).
  - simpl. auto.
  - reflexivity.
  - left. discriminate.
Defined.

(** Claim C1 as it is stated fails: a breaking feat with an empty
    subject is recognized by the grammar as it stands, but trimmed it
    has lost the space after the colon, is no longer recognized and is
    passed over. *)
Lemma determineBumpType_blank_subject_not_major :
  FindStringSubmatch (str "feat!: ") = Some (mkSubmatch (str "feat") [] (str "!") [])
  /\ determineBumpType [str "feat!: "] = str "none".
Proof. split; reflexivity. Qed.

(** Without a breaking message no message has the effect [Breaks]. *)
Lemma existsb_Breaks_false (msgs : list gostring) :
  (forall msg m, In msg msgs ->
                 FindStringSubmatch (strings.TrimSpace msg) = Some m ->
                 isBreaking (strings.TrimSpace msg) m = false) ->
  existsb (hasEffect Breaks) msgs = false.
Proof.
  intros H. induction msgs as [|msg msgs IH]; [reflexivity|].
  cbn [existsb]. rewrite IH by (intros x m I; apply H; now right).
  rewrite orb_false_r. unfold hasEffect.
  destruct (FindStringSubmatch (strings.TrimSpace msg)) as [m|] eqn:R.
  - rewrite (effect_recognized _ _ R), (H msg m (or_introl eq_refl) R).
    destruct (streq (sub_type m) (str "feat")); [reflexivity|].
    now destruct (streq (sub_type m) (str "fix")).
  - now rewrite (effect_unrecognized _ R).
Qed.

(** Claim C6, as the code has it: the result of [determineBumpType] is
    the same for every permutation of the list; inserting anywhere in
    the list merge commits, or messages whose trimmed text the grammar
    does not recognize, does not change it; and a list that contains a
    feat and a fix, neither breaking, wherever they stand and whatever
    else it contains, gives minor when none of its messages is breaking,
    and major when one is. *)
Theorem determineBumpType_order_independent :
  (forall msgs msgs' : list gostring,
      Permutation msgs msgs' ->
      determineBumpType msgs = determineBumpType msgs')
  /\ (forall msgs msgs' : list gostring,
         inserted passedOver msgs msgs' ->
         determineBumpType msgs' = determineBumpType msgs)
  /\ (forall (msgs : list gostring) (featMsg fixMsg : gostring)
             (mfeat mfix : Submatch),
         In featMsg msgs ->
         In fixMsg msgs ->
         FindStringSubmatch (strings.TrimSpace featMsg) = Some mfeat ->
         sub_type mfeat = str "feat" ->
         isBreaking (strings.TrimSpace featMsg) mfeat = false ->
         FindStringSubmatch (strings.TrimSpace fixMsg) = Some mfix ->
         sub_type mfix = str "fix" ->
         isBreaking (strings.TrimSpace fixMsg) mfix = false ->
         ((forall msg m, In msg msgs ->
                         FindStringSubmatch (strings.TrimSpace msg) = Some m ->
                         isBreaking (strings.TrimSpace msg) m = false) ->
          determineBumpType msgs = str "minor")
         /\ (forall msg m, In msg msgs ->
                           FindStringSubmatch (strings.TrimSpace msg) = Some m ->
                           isBreaking (strings.TrimSpace msg) m = true ->
                           determineBumpType msgs = str "major")).
Proof.
  split; [exact determineBumpType_Permutation|]. split.
  - intros msgs msgs' H. now apply determineBumpTypeFrom_inserted.
  - intros msgs featMsg fixMsg mfeat mfix I1 I2 R1 T1 B1 R2 T2 B2.
    assert (E1 : effect featMsg = RaisesMinor).
    { rewrite (effect_recognized _ _ R1), B1, T1. reflexivity. }
    split.
    + intros NB. rewrite determineBumpType_spec, (existsb_Breaks_false _ NB).
      now rewrite (existsb_In (hasEffect RaisesMinor) _ featMsg I1 (hasEffect_true _ _ E1)).
    + intros msg m I R B. rewrite determineBumpType_spec.
      rewrite (existsb_In (hasEffect Breaks) _ msg I); [reflexivity|].
      apply hasEffect_true. now rewrite (effect_recognized _ _ R), B.
Qed.

(** The amended claim C6 at a permuted list, at a list with a merge
    commit and two unrecognized messages inserted, and at a list that
    holds a feat and a fix between other messages. *)
Lemma determineBumpType_order_independent_witness :
  determineBumpType [str "fix: a"; str "docs: b"; str "feat: c"]
  = determineBumpType [str "feat: c"; str "fix: a"; str "docs: b"]
  /\ determineBumpType
       [str "Merge branch 'x'"; str "fix: a"; str "wip"; str "feat: c" ++ nl ++ str "body"]
     = determineBumpType [str "fix: a"]
  /\ determineBumpType [str "docs: b"; str "fix: a"; str "wip"; str " feat: c "]
     = str "minor"
  /\ determineBumpType [str "feat: c"; str "fix: a"; str "docs!: b"] = str "major".
Proof.
  destruct determineBumpType_order_independent as [P [I F]].
  split; [|split; [|split]].
  - apply P. apply Permutation_sym.
    apply (Permutation_cons_app [str "fix: a"; str "docs: b"] []
             (str "feat: c")).
    rewrite app_nil_r. apply Permutation_refl.
  - apply I. apply inserted_new; [left; reflexivity|].
    apply inserted_keep. apply inserted_new; [right; reflexivity|].
    apply inserted_new; [right; reflexivity|]. apply inserted_nil.
  - apply (proj1 (F [str "docs: b"; str "fix: a"; str "wip"; str " feat: c "]
                    (str " feat: c ") (str "fix: a")
                    (mkSubmatch (str "feat") [] [] (str "c"))
                    (mkSubmatch (str "fix") [] [] (str "a"))
                    (or_intror (or_intror (or_intror (or_introl eq_refl))))
                    (or_intror (or_introl eq_refl))
                    eq_refl eq_refl eq_refl eq_refl eq_refl eq_refl)).
    intros msg m [<-|[<-|[<-|[<-|[]]]]] R; vm_compute in R;
      try discriminate R; injection R as <-; reflexivity.
  - apply (proj2 (F [str "feat: c"; str "fix: a"; str "docs!: b"]
                    (str "feat: c") (str "fix: a")
                    (mkSubmatch (str "feat") [] [] (str "c"))
                    (mkSubmatch (str "fix") [] [] (str "a"))
                    (or_introl eq_refl) (or_intror (or_introl eq_refl))
                    eq_refl eq_refl eq_refl eq_refl eq_refl eq_refl)
             (str "docs!: b") (mkSubmatch (str "docs") [] (str "!") (str "b")));
      [right; right; left; reflexivity | reflexivity | reflexivity].
Defined.

(** Claim C6 as it is stated fails: a feat behind a space does not
    match the grammar, yet inserted into the empty list it raises the
    result from none to minor, for the loop trims it first.  And a list
    that contains a feat and a fix, neither breaking, gives major when
    another of its messages is breaking. *)
Lemma determineBumpType_insert_untrimmed :
  FindStringSubmatch (str " feat: x") = None
  /\ determineBumpType [] = str "none"
  /\ determineBumpType [str " feat: x"] = str "minor"
  /\ determineBumpType [str "feat: c"; str "fix: a"; str "docs!: b"] = str "major".
Proof. repeat split; reflexivity. Qed.

(** ** Release notes *)

Lemma afterFirst_Contains (s sep : gostring) :
  strings.afterFirst s sep = None <-> strings.Contains s sep = false.
Proof.
  induction s as [|c s IH]; simpl.
  - destruct (strings.HasPrefix [] sep); simpl; split; congruence.
  - destruct (strings.HasPrefix (c :: s) sep); simpl; [split; congruence | exact IH].
Qed.

Lemma categorize_snoc (msgs : list gostring) (msg : gostring) :
  categorize (msgs ++ [msg]) = categorizeCommit (categorize msgs) msg.
Proof. unfold categorize. now rewrite fold_left_app. Qed.

Lemma categorizeCommit_leftOut (n : Notes) (msg : gostring) :
  leftOut msg = true -> categorizeCommit n msg = n.
Proof. unfold leftOut, categorizeCommit. now intros ->. Qed.

Lemma categorizeCommit_unrecognized (n : Notes) (msg : gostring) :
  leftOut msg = false -> FindStringSubmatch msg = None ->
  categorizeCommit n msg = addOther (firstLine msg) n.
Proof. unfold leftOut, categorizeCommit. now intros -> ->. Qed.

Lemma categorizeCommit_breaking (n : Notes) (msg : gostring) (m : Submatch) :
  leftOut msg = false -> FindStringSubmatch msg = Some m ->
  isBreaking msg m = true ->
  categorizeCommit n msg = addBreaking (breakingEntry msg (sub_subject m)) n.
Proof.
  unfold leftOut, categorizeCommit. intros -> -> B. cbv zeta. rewrite B.
  cbn [negb]. unfold addBreaking, breakingEntry, strings.SplitN2.
  destruct (strings.afterFirst msg breakingMarker) as [rest|] eqn:A.
  - assert (C : strings.Contains msg breakingMarker = true).
    { destruct (strings.Contains msg breakingMarker) eqn:C; [reflexivity|].
      apply afterFirst_Contains in C. congruence. }
    rewrite C. cbn [List.length Nat.ltb Nat.leb nth]. reflexivity.
  - apply afterFirst_Contains in A. rewrite A. now rewrite app_nil_r.
Qed.

Lemma categorizeCommit_plain (n : Notes) (msg : gostring) (m : Submatch) :
  leftOut msg = false -> FindStringSubmatch msg = Some m ->
  isBreaking msg m = false ->
  categorizeCommit n msg =
  if streq (sub_type m) (str "feat")
  then addFeature (str "- **feat:** " ++ sub_subject m) n
  else if streq (sub_type m) (str "fix")
  then addBugFix (str "- **fix:** " ++ sub_subject m) n
  else if negb (streq (sub_type m) (str "docs"))
          && negb (streq (sub_type m) (str "style"))
          && negb (streq (sub_type m) (str "test"))
          && negb (streq (sub_type m) (str "chore"))
  then addOther (str "- **" ++ sub_type m ++ str ":** " ++ sub_subject m) n
  else n.
Proof.
  unfold leftOut, categorizeCommit. intros -> -> B. cbv zeta. rewrite B.
  reflexivity.
Qed.

Lemma fold_WriteString (entries : list gostring) (sb : gostring) :
  fold_left (fun sb entry => WriteString sb (entry ++ nl)) entries sb
  = sb ++ List.concat (map (fun entry => entry ++ nl) entries).
Proof.
  revert sb; induction entries as [|e l IH]; intros sb; simpl.
  - now rewrite app_nil_r.
  - rewrite IH. unfold WriteString. now rewrite <- app_assoc.
Qed.

Lemma writeSection_spec (sb title : gostring) (entries : list gostring) :
  writeSection sb title entries =
  sb ++ (if hasEntries (title, entries) then renderSection (title, entries) else []).
Proof.
  unfold writeSection, hasEntries, renderSection. destruct entries as [|e l].
  - simpl. now rewrite app_nil_r.
  - cbn [List.length Nat.ltb Nat.leb snd fst]. rewrite fold_WriteString.
    unfold WriteString. now rewrite <- !app_assoc.
Qed.

Lemma buildMarkdown_spec (newTagForHeader today : gostring) (n : Notes) :
  buildMarkdown newTagForHeader today n =
  headerLine newTagForHeader today
  ++ List.concat (map renderSection (filter hasEntries (sections n))).
Proof.
  unfold buildMarkdown. cbv zeta. rewrite !writeSection_spec.
  unfold WriteString, sections. cbn [filter app].
  destruct (hasEntries (titleBreaking, breakingChanges n));
  destruct (hasEntries (titleFeatures, features n));
  destruct (hasEntries (titleBugFixes, bugFixes n));
  destruct (hasEntries (titleOther, otherChanges n));
  cbn [map List.concat]; rewrite ?app_nil_r, <- ?app_assoc; reflexivity.
Qed.

Lemma categorize_all_leftOut (msgs : list gostring) :
  filter (fun msg => negb (leftOut msg)) msgs = [] -> categorize msgs = noNotes.
Proof.
  unfold categorize. generalize noNotes.
  induction msgs as [|m l IH]; intros n; simpl; [reflexivity|].
  destruct (leftOut m) eqn:E; simpl; [|discriminate].
  intros H. rewrite categorizeCommit_leftOut by exact E. now apply IH.
Qed.

Lemma existsb_split (f : rune -> bool) (s : gostring) :
  existsb f s = true -> exists a x b, s = a ++ x :: b /\ f x = true.
Proof.
  intros H. apply existsb_exists in H as [x [I F]].
  apply in_split in I as [a [b ->]]. now exists a, x, b.
Qed.

(** A line feed between two lines that are not blank survives the
    trimming. *)
Lemma TrimSpace_keeps_LF (subject body : gostring) :
  existsb notSpace subject = true -> existsb notSpace body = true ->
  In LF (strings.TrimSpace (subject ++ nl ++ body)).
Proof.
  intros H1 H2.
  apply existsb_split in H1 as [a [x [s1 [-> Hx]]]].
  apply existsb_split in H2 as [s2 [y [b [-> Hy]]]].
  apply negb_true_iff in Hx, Hy.
  destruct (TrimSpace_keeps a b (s1 ++ nl ++ s2) x y Hx Hy) as [a' [b' E]].
  replace ((a ++ x :: s1) ++ nl ++ s2 ++ y :: b)
    with (a ++ x :: (s1 ++ nl ++ s2) ++ y :: b)
    by (now rewrite <- !app_assoc).
  rewrite E. apply in_or_app. right. right.
  apply in_or_app. left. apply in_or_app. right. now left.
Qed.

Lemma Contains_notSpace (s : gostring) :
  strings.Contains s breakingMarker = true -> existsb notSpace s = true.
Proof.
  intros H. apply Contains_iff in H as [a [b ->]].
  apply existsb_exists. exists 66%N. split; [|reflexivity].
  apply in_or_app. right. now left.
Qed.

Lemma In_LF_app (subject body : gostring) : In LF (subject ++ nl ++ body).
Proof. apply in_or_app. right. now left. Qed.

(** Claim C10, as the code has it: a message with a line feed that does
    not start with [Merge ] is not recognized by the grammar, so
    [validateCommitMessage] answers false for it and the changelog loop
    makes its first line an entry of Other Changes, unless it leaves the
    commit out for a skip marker; [determineBumpType] passes over it
    when its trimmed text still holds a line feed.  A message with a
    subject line that is not blank and the marker in the lines below is
    therefore passed over and adds nothing to the breaking changes. *)
Theorem line_feed_never_recognized (msg : gostring) :
  In LF msg ->
  strings.HasPrefix msg (str "Merge ") = false ->
  FindStringSubmatch msg = None
  /\ fst (validateCommitMessage msg) = false
  /\ (forall n : Notes,
         categorizeCommit n msg =
         if shouldSkipCI msg then n else addOther (firstLine msg) n)
  /\ (In LF (strings.TrimSpace msg) ->
      forall (bumpType : gostring) (rest : list gostring),
        determineBumpTypeFrom bumpType (msg :: rest)
        = determineBumpTypeFrom bumpType rest)
  /\ (forall subject body : gostring,
         msg = subject ++ nl ++ body ->
         existsb notSpace subject = true ->
         strings.Contains body breakingMarker = true ->
         (forall (bumpType : gostring) (rest : list gostring),
             determineBumpTypeFrom bumpType (msg :: rest)
             = determineBumpTypeFrom bumpType rest)
         /\ (forall n : Notes,
                breakingChanges (categorizeCommit n msg) = breakingChanges n)).
Proof.
  intros L M. pose proof (FindStringSubmatch_LF _ L) as R.
  assert (C : forall n : Notes,
             categorizeCommit n msg =
             if shouldSkipCI msg then n else addOther (firstLine msg) n).
  { intros n. destruct (shouldSkipCI msg) eqn:S.
    - apply categorizeCommit_leftOut. unfold leftOut. now rewrite S.
    - apply categorizeCommit_unrecognized; [|exact R].
      unfold leftOut. now rewrite S, M. }
  assert (B : In LF (strings.TrimSpace msg) ->
              forall (bumpType : gostring) (rest : list gostring),
                determineBumpTypeFrom bumpType (msg :: rest)
                = determineBumpTypeFrom bumpType rest).
  { intros T b rest. rewrite determineBumpTypeFrom_cons.
    now rewrite (effect_LF _ T). }
  repeat split; auto.
  - unfold validateCommitMessage, MatchString. now rewrite M, R.
  - intros b rest. apply B. subst msg.
    apply TrimSpace_keeps_LF; [assumption | now apply Contains_notSpace].
  - intros n. rewrite C. now destruct (shouldSkipCI msg).
Qed.

(** The amended claim C10 at a feat with the marker in its body. *)
Lemma line_feed_never_recognized_witness :
  FindStringSubmatch featWithBody = None
  /\ fst (validateCommitMessage featWithBody) = false
  /\ categorizeCommit noNotes featWithBody = addOther (str "feat: add api") noNotes
  /\ determineBumpTypeFrom (str "none") [featWithBody; str "fix: a"]
     = determineBumpTypeFrom (str "none") [str "fix: a"]
  /\ breakingChanges (categorizeCommit noNotes featWithBody) = [].
Proof.
  destruct (line_feed_never_recognized featWithBody
              (In_LF_app (str "feat: add api") _) eq_refl)
    as [R [V [C [B K]]]].
  destruct (K (str "feat: add api") (nl ++ str "BREAKING CHANGE: removes v1")
              eq_refl eq_refl eq_refl) as [K1 K2].
  split; [exact R|]. split; [exact V|]. split; [exact (C noNotes)|].
  split; [exact (K1 (str "none") [str "fix: a"]) | exact (K2 noNotes)].
Defined.

(** Claim C10 as it is stated fails: a feat that ends with a line feed
    is not passed over by [determineBumpType], which trims it first;
    and a message with a line feed and a skip marker is left out of the
    release notes, not listed as unrecognized. *)
Lemma determineBumpType_trims_line_feed :
  In LF (str "feat: x" ++ nl)
  /\ strings.HasPrefix (str "feat: x" ++ nl) (str "Merge ") = false
  /\ determineBumpTypeFrom (str "none") [str "feat: x" ++ nl] = str "minor"
  /\ determineBumpTypeFrom (str "none") [] = str "none"
  /\ categorizeCommit noNotes (str "wip" ++ nl ++ str "[skip-ci]") = noNotes.
Proof. repeat split; try reflexivity. apply in_or_app. right. now left. Qed.

(** Claim C3 at a message with the marker in its body: the message
    holds the marker, yet [determineBumpType] returns none for it and
    the changelog loop lists its first line under Other Changes and
    nothing under the breaking changes; cut at the empty line by
    [getCommitMessagesBetweenRefs], its two parts give minor. *)
Theorem marker_in_body_not_breaking :
  strings.Contains featWithBody breakingMarker = true
  /\ determineBumpType [featWithBody] = str "none"
  /\ categorize [featWithBody] = mkNotes [] [] [] [str "feat: add api"]
  /\ getCommitMessagesBetweenRefs (Some (featWithBody ++ nl))
     = Some [str "feat: add api"; str "BREAKING CHANGE: removes v1"]
  /\ determineBumpType [str "feat: add api"; str "BREAKING CHANGE: removes v1"]
     = str "minor".
Proof. repeat split; reflexivity. Qed.

Lemma dropped_test (ty : gostring) :
  negb (streq ty (str "docs")) && negb (streq ty (str "style"))
  && negb (streq ty (str "test")) && negb (streq ty (str "chore")) = false
  <-> In ty droppedTypes.
Proof.
  unfold droppedTypes. cbn [map In]. split.
  - intros H.
    destruct (streq ty (str "docs")) eqn:E1;
      [left; symmetry; now apply streq_eq|].
    destruct (streq ty (str "style")) eqn:E2;
      [right; left; symmetry; now apply streq_eq|].
    destruct (streq ty (str "test")) eqn:E3;
      [right; right; left; symmetry; now apply streq_eq|].
    destruct (streq ty (str "chore")) eqn:E4;
      [right; right; right; left; symmetry; now apply streq_eq|].
    discriminate H.
  - intros [H|[H|[H|[H|[]]]]]; subst ty; reflexivity.
Qed.

(** Claim C8, as the code has it, for the last commit of any list: a
    commit whose lower-cased message holds a skip pattern, or that
    starts with [Merge ], adds nothing; of the others, one the grammar
    does not recognize adds its first line to Other Changes; a
    recognized breaking one adds to BREAKING CHANGES alone, the entry
    being the subject behind the BREAKING CHANGE label, followed on a
    second line by what comes after the marker when the message holds
    it; a feat or fix that is not breaking adds its subject behind its
    type to Features or Bug Fixes; any other type but docs, style, test
    and chore adds it to Other Changes; these four add nothing. *)
Theorem categorize_by_kind (msgs : list gostring) (msg : gostring) :
  ((exists pattern, In pattern skipPatterns
                    /\ strings.Contains (strings.ToLower msg) pattern = true)
   \/ strings.HasPrefix msg (str "Merge ") = true ->
   categorize (msgs ++ [msg]) = categorize msgs)
  /\ (leftOut msg = false ->
      (FindStringSubmatch msg = None ->
       categorize (msgs ++ [msg]) = addOther (firstLine msg) (categorize msgs))
      /\ (forall m : Submatch,
             FindStringSubmatch msg = Some m ->
             (isBreaking msg m = true ->
              categorize (msgs ++ [msg])
              = addBreaking (breakingEntry msg (sub_subject m)) (categorize msgs))
             /\ (isBreaking msg m = false ->
                 (sub_type m = str "feat" ->
                  categorize (msgs ++ [msg])
                  = addFeature (str "- **feat:** " ++ sub_subject m) (categorize msgs))
                 /\ (sub_type m = str "fix" ->
                     categorize (msgs ++ [msg])
                     = addBugFix (str "- **fix:** " ++ sub_subject m) (categorize msgs))
                 /\ (sub_type m <> str "feat" -> sub_type m <> str "fix" ->
                     ~ In (sub_type m) droppedTypes ->
                     categorize (msgs ++ [msg])
                     = addOther (str "- **" ++ sub_type m ++ str ":** " ++ sub_subject m)
                         (categorize msgs))
                 /\ (In (sub_type m) droppedTypes ->
                     categorize (msgs ++ [msg]) = categorize msgs)))).
Proof.
  rewrite categorize_snoc. split.
  - intros H. apply categorizeCommit_leftOut. unfold leftOut, shouldSkipCI.
    apply orb_true_iff. destruct H as [[p [I C]] | H]; [left | now right].
    apply existsb_exists. now exists p.
  - intros Out. split.
    + intros R. now apply categorizeCommit_unrecognized.
    + intros m R. split.
      * intros B. now apply categorizeCommit_breaking.
      * intros B. rewrite (categorizeCommit_plain (categorize msgs) msg m Out R B).
        split; [|split; [|split]].
        -- intros ->. reflexivity.
        -- intros ->. reflexivity.
        -- intros N1 N2 D. apply streq_neq in N1, N2. rewrite N1, N2.
           destruct (negb _ && _ && _ && _) eqn:E; [reflexivity|].
           apply dropped_test in E. contradiction.
        -- intros D. pose proof D as D'. apply dropped_test in D. rewrite D.
           unfold droppedTypes in D'. cbn [map In] in D'.
           destruct D' as [<-|[<-|[<-|[<-|[]]]]]; reflexivity.
Qed.

(** The amended claim C8 at one commit of each kind, after a fix. *)
Lemma categorize_by_kind_witness :
  categorize ([str "fix: a"] ++ [str "chore: b [SKIP-CI]"]) = categorize [str "fix: a"]
  /\ categorize ([str "fix: a"] ++ [str "wip" ++ nl ++ str "more"])
     = addOther (str "wip") (categorize [str "fix: a"])
  /\ categorize ([str "fix: a"] ++ [str "fix(core)!: drop x"])
     = addBreaking (str "- **BREAKING CHANGE:** drop x") (categorize [str "fix: a"])
  /\ categorize ([str "fix: a"] ++ [str "feat: b"])
     = addFeature (str "- **feat:** b") (categorize [str "fix: a"])
  /\ categorize ([str "fix: a"] ++ [str "perf: c"])
     = addOther (str "- **perf:** c") (categorize [str "fix: a"])
  /\ categorize ([str "fix: a"] ++ [str "docs: d"]) = categorize [str "fix: a"].
Proof.
  split; [|split; [|split; [|split; [|split]]]].
  - apply (proj1 (categorize_by_kind [str "fix: a"] (str "chore: b [SKIP-CI]"))).
    left. exists (str "[skip-ci]"). split; [simpl; auto | reflexivity].
  - apply (proj1 (proj2 (categorize_by_kind [str "fix: a"] (str "wip" ++ nl ++ str "more"))
                    eq_refl)).
    reflexivity.
  - apply (proj1 (proj2 (proj2 (categorize_by_kind [str "fix: a"] (str "fix(core)!: drop x"))
                           eq_refl)
                    (mkSubmatch (str "fix") (str "core") (str "!") (str "drop x")) eq_refl)).
    reflexivity.
  - apply (proj1 (proj2 (proj2 (proj2 (categorize_by_kind [str "fix: a"] (str "feat: b"))
                                  eq_refl)
                           (mkSubmatch (str "feat") [] [] (str "b")) eq_refl) eq_refl));
      reflexivity.
  - apply (proj1 (proj2 (proj2 (proj2 (proj2 (proj2 (categorize_by_kind [str "fix: a"] (str "perf: c"))
                                  eq_refl)
                           (mkSubmatch (str "perf") [] [] (str "c")) eq_refl) eq_refl))));
      try discriminate.
    unfold droppedTypes. cbn [map In sub_type].
    intros [H|[H|[H|[H|[]]]]]; discriminate.
  - apply (proj2 (proj2 (proj2 (proj2 (proj2 (proj2 (categorize_by_kind [str "fix: a"] (str "docs: d"))
                                  eq_refl)
                           (mkSubmatch (str "docs") [] [] (str "d")) eq_refl) eq_refl)))).
    simpl. auto.
Defined.

(** Claim C8 as it is stated fails: the entry of a commit that is
    breaking by the marker is not the subject alone behind the label, a
    second line repeats what follows the marker. *)
Lemma breaking_entry_has_second_line :
  FindStringSubmatch (str "feat: BREAKING CHANGE: drop x")
  = Some (mkSubmatch (str "feat") [] [] (str "BREAKING CHANGE: drop x"))
  /\ categorize [str "feat: BREAKING CHANGE: drop x"]
     = mkNotes
         [str "- **BREAKING CHANGE:** BREAKING CHANGE: drop x" ++ nl ++ str "  drop x"]
         [] [] [].
Proof. split; reflexivity. Qed.

(** Claim C9, as the code has it: the Markdown is the header line
    followed by the sections BREAKING CHANGES, Features, Bug Fixes and
    Other Changes in this order, those without entries left out; and
    when every commit is left out, the header line alone is put before
    the existing content and the call reports success. *)
Theorem release_notes_sections (newTagForHeader today : gostring) :
  (forall n : Notes,
      buildMarkdown newTagForHeader today n =
      headerLine newTagForHeader today
      ++ List.concat (map renderSection (filter hasEntries (sections n))))
  /\ (forall (log : option gostring) (commitMsgs : list gostring)
             (existing : gostring),
         getCommitMessagesBetweenRefs log = Some commitMsgs ->
         filter (fun msg => negb (leftOut msg)) commitMsgs = [] ->
         generateReleaseNotes log newTagForHeader today existing
         = Some (headerLine newTagForHeader today ++ existing)
         /\ changelogGenerated
              (generateReleaseNotes log newTagForHeader today existing) = true).
Proof.
  split; [apply buildMarkdown_spec|].
  intros log msgs existing G F. unfold generateReleaseNotes. rewrite G.
  rewrite (categorize_all_leftOut _ F). split; reflexivity.
Qed.

(** The amended claim C9 at a log of a merge commit and a commit with a
    skip marker. *)
Lemma release_notes_sections_witness :
  generateReleaseNotes (Some (str "Merge branch 'x'" ++ nl ++ nl ++ str "chore: y [skip-ci]"))
    (str "v1.0.0") (str "2025-01-01") (str "old")
  = Some (headerLine (str "v1.0.0") (str "2025-01-01") ++ str "old").
Proof.
  apply (proj2 (release_notes_sections (str "v1.0.0") (str "2025-01-01"))
           (Some (str "Merge branch 'x'" ++ nl ++ nl ++ str "chore: y [skip-ci]"))
           [str "Merge branch 'x'"; str "chore: y [skip-ci]"] (str "old")
           eq_refl eq_refl).
Defined.

(** Claim C9 as it is stated fails: without commits the call succeeds
    and writes the header line, and the one flag [main] keeps of it is
    set as it is for a list with commits; nothing says the content is
    empty. *)
Lemma release_notes_no_empty_flag :
  generateReleaseNotes (Some []) (str "v1.0.0") (str "2025-01-01") []
  = Some (str "## v1.0.0 (2025-01-01)" ++ nl ++ nl)
  /\ changelogGenerated
       (generateReleaseNotes (Some []) (str "v1.0.0") (str "2025-01-01") []) = true
  /\ changelogGenerated
       (generateReleaseNotes (Some (str "feat: a")) (str "v1.0.0") (str "2025-01-01") [])
     = true.
Proof. repeat split; reflexivity. Qed.

(** One breaking commit, one feat and one fix: three sections in the
    order of the document. *)
Example release_notes_three_sections :
  buildMarkdown (str "v2.0.0") (str "2025-01-01")
    (categorize [str "feat!: a"; str "feat: b"; str "fix: c"])
  = str "## v2.0.0 (2025-01-01)" ++ nl ++ nl
    ++ str "### BREAKING CHANGES" ++ nl ++ nl
    ++ str "- **BREAKING CHANGE:** a" ++ nl ++ nl
    ++ str "### Features" ++ nl ++ nl
    ++ str "- **feat:** b" ++ nl ++ nl
    ++ str "### Bug Fixes" ++ nl ++ nl
    ++ str "- **fix:** c" ++ nl ++ nl.
Proof. reflexivity. Qed.

(** ** Tag formatting *)

Lemma replaceFrom_skip (old new : gostring) (k : nat) (s : gostring) :
  strings.replaceFrom old new k s = strings.replaceFrom old new O (skipn k s).
Proof.
  revert k; induction s as [|c s IH]; intros [|k]; try reflexivity.
  simpl. apply IH.
Qed.

Lemma expandFrom_skip (rules : list (gostring * gostring)) (k : nat) (s : gostring) :
  expandFrom rules k s = expandFrom rules O (skipn k s).
Proof.
  revert k; induction s as [|c s IH]; intros [|k]; try reflexivity.
  simpl. apply IH.
Qed.

Lemma ReplaceAll_fire (old new rest : gostring) :
  old <> [] ->
  strings.ReplaceAll (old ++ rest) old new = new ++ strings.ReplaceAll rest old new.
Proof.
  intros N. destruct old as [|x old']; [congruence|].
  unfold strings.ReplaceAll. cbn [app strings.replaceFrom].
  change (x :: old' ++ rest) with ((x :: old') ++ rest).
  rewrite HasPrefix_app. rewrite replaceFrom_skip.
  replace (List.length (x :: old') - 1) with (List.length old') by (simpl; lia).
  now rewrite skipn_prefix.
Qed.

Lemma ReplaceAll_copy (old new : gostring) (c : rune) (s : gostring) :
  strings.HasPrefix (c :: s) old = false ->
  strings.ReplaceAll (c :: s) old new = c :: strings.ReplaceAll s old new.
Proof.
  intros H. unfold strings.ReplaceAll. cbn [strings.replaceFrom]. now rewrite H.
Qed.

Lemma HasPrefix_head (c x : rune) (s old' : gostring) :
  c <> x -> strings.HasPrefix (c :: s) (x :: old') = false.
Proof. intros N. simpl. apply N.eqb_neq in N. now rewrite N. Qed.

(** Runes that do not start [old] are copied. *)
Lemma ReplaceAll_foreign (x : rune) (old' new r s : gostring) :
  ~ In x r ->
  strings.ReplaceAll (r ++ s) (x :: old') new = r ++ strings.ReplaceAll s (x :: old') new.
Proof.
  induction r as [|c r IH]; intros N; [reflexivity|]. simpl.
  rewrite ReplaceAll_copy.
  - f_equal. apply IH. intros I. apply N. now right.
  - apply HasPrefix_head. intros ->. apply N. now left.
Qed.

Lemma expand_fire (rules : list (gostring * gostring)) (s old new : gostring) :
  old <> [] ->
  find (fun rule => strings.HasPrefix s (fst rule)) rules = Some (old, new) ->
  exists rest, s = old ++ rest /\ expand rules s = new ++ expand rules rest.
Proof.
  intros N F. pose proof (find_some _ _ F) as [_ P]. simpl in P.
  apply HasPrefix_iff in P as [rest ->]. exists rest. split; [reflexivity|].
  destruct old as [|x old']; [congruence|].
  unfold expand. cbn [app expandFrom].
  change (x :: old' ++ rest) with ((x :: old') ++ rest). rewrite F.
  rewrite expandFrom_skip.
  replace (List.length (x :: old') - 1) with (List.length old') by (simpl; lia).
  now rewrite skipn_prefix.
Qed.

Lemma expand_copy (rules : list (gostring * gostring)) (c : rune) (s : gostring) :
  find (fun rule => strings.HasPrefix (c :: s) (fst rule)) rules = None ->
  expand rules (c :: s) = c :: expand rules s.
Proof. intros F. unfold expand. cbn [expandFrom]. now rewrite F. Qed.

(** Text inside which no placeholder starts is copied. *)
Lemma expand_copies (rules : list (gostring * gostring)) (w rest : gostring) :
  (forall j, j < List.length w ->
     find (fun rule => strings.HasPrefix (skipn j w ++ rest) (fst rule)) rules = None) ->
  expand rules (w ++ rest) = w ++ expand rules rest.
Proof.
  induction w as [|c t IH]; intros H; [reflexivity|].
  simpl. rewrite expand_copy.
  - f_equal. apply IH. intros j L. apply (H (S j)). simpl. lia.
  - apply (H 0). simpl. lia.
Qed.

Section Sequential.

Variable rules : list (gostring * gostring).
Variables (x : rune) (old' new : gostring).
Local Abbreviation old := (x :: old').

(** The placeholders are not empty. *)
Hypothesis rules_nonempty : forall p r, In (p, r) rules -> p <> [].
(** The replacements made so far are not empty and share no rune
    with [old]. *)
Hypothesis foreign :
  forall p r, In (p, r) rules -> r <> [] /\ forall c, In c r -> ~ In c old.
(** No earlier placeholder starts inside an occurrence of [old]. *)
Hypothesis apart :
  forall (i : nat) (rest : gostring) p r,
    i < List.length old -> In (p, r) rules ->
    strings.HasPrefix (skipn i old ++ rest) p = false.

Lemma find_none_inside (i : nat) (rest : gostring) :
  i < List.length old ->
  find (fun rule => strings.HasPrefix (skipn i old ++ rest) (fst rule)) rules = None.
Proof.
  intros L. destruct (find _ rules) as [[p r]|] eqn:F; [|reflexivity].
  apply find_some in F as [I P]. simpl in P.
  now rewrite (apart i rest p r L I) in P.
Qed.

(** The one-pass expansion copies an occurrence of [old]. *)
Lemma expand_over_old (rest : gostring) :
  expand rules (old ++ rest) = old ++ expand rules rest.
Proof.
  apply expand_copies. intros j L. now apply find_none_inside.
Qed.

(** A prefix of the expansion free of the first runes of the
    replacements is a prefix of the text. *)
Lemma expand_prefix (w s : gostring) :
  (forall c, In c w -> In c old) ->
  strings.HasPrefix (expand rules s) w = true -> strings.HasPrefix s w = true.
Proof.
  revert s; induction w as [|a w IH]; intros s W H; [reflexivity|].
  destruct s as [|c s]; [discriminate|].
  destruct (find (fun rule => strings.HasPrefix (c :: s) (fst rule)) rules)
    as [[p r]|] eqn:F.
  - exfalso. pose proof (find_some _ _ F) as [I _].
    destruct (expand_fire _ _ _ _ (rules_nonempty p r I) F) as [rest [_ E]].
    rewrite E in H. destruct (foreign p r I) as [N Fr].
    destruct r as [|d r]; [congruence|]. simpl in H.
    apply andb_true_iff in H as [H _]. apply N.eqb_eq in H. subst d.
    apply (Fr a); [now left | apply W; now left].
  - rewrite (expand_copy _ _ _ F) in H. simpl in H |- *.
    apply andb_true_iff in H as [H1 H2]. rewrite H1. simpl.
    apply IH; auto. intros c' I. apply W. now right.
Qed.

(** Replacing [old] after the one-pass expansion by [rules] is the
    one-pass expansion by [rules] and then [old]. *)
Lemma ReplaceAll_expand (s : gostring) :
  strings.ReplaceAll (expand rules s) old new = expand (rules ++ [(old, new)]) s.
Proof.
  remember (List.length s) as n eqn:L.
  revert s L. induction n as [n IH] using lt_wf_ind. intros s L.
  destruct s as [|c s]; [reflexivity|].
  destruct (find (fun rule => strings.HasPrefix (c :: s) (fst rule)) rules)
    as [[p r]|] eqn:F.
  - pose proof (find_some _ _ F) as [I _].
    assert (F' : find (fun rule => strings.HasPrefix (c :: s) (fst rule))
                   (rules ++ [(old, new)]) = Some (p, r)).
    { clear - F. induction rules as [|q l IHl]; [discriminate|].
      cbn [app find] in *.
      destruct (strings.HasPrefix (c :: s) (fst q)); auto. }
    destruct (expand_fire _ _ _ _ (rules_nonempty p r I) F) as [rest [E1 E2]].
    destruct (expand_fire _ _ _ _ (rules_nonempty p r I) F') as [rest' [E1' E2']].
    assert (rest' = rest) by (rewrite E1 in E1'; now apply app_inv_head in E1').
    subst rest'. rewrite E2, E2'.
    destruct (foreign p r I) as [_ Fr].
    rewrite ReplaceAll_foreign.
    + f_equal. apply (IH (List.length rest)); [|reflexivity].
      subst n. rewrite E1, length_app.
      pose proof (rules_nonempty p r I). destruct p; [congruence|]. simpl. lia.
    + intros Ix. apply (Fr x Ix). now left.
  - destruct (strings.HasPrefix (c :: s) old) eqn:P.
    + apply HasPrefix_iff in P as [rest E]. rewrite E.
      rewrite expand_over_old, ReplaceAll_fire by discriminate.
      assert (F' : find (fun rule => strings.HasPrefix (old ++ rest) (fst rule))
                     (rules ++ [(old, new)]) = Some (old, new)).
      { rewrite <- E. clear - F E. induction rules as [|q l IHl].
        - cbn [app find fst]. rewrite E. now rewrite HasPrefix_app.
        - cbn [app find] in *.
          destruct (strings.HasPrefix (c :: s) (fst q)); [discriminate|].
          auto. }
      destruct (expand_fire _ _ old new ltac:(discriminate) F') as [rest' [E1 E2]].
      apply app_inv_head in E1. subst rest'. rewrite E2. f_equal.
      apply (IH (List.length rest)); [|reflexivity].
      subst n. rewrite E, length_app. simpl. lia.
    + assert (F' : find (fun rule => strings.HasPrefix (c :: s) (fst rule))
                     (rules ++ [(old, new)]) = None).
      { clear - F P. induction rules as [|q l IHl].
        - cbn [app find fst]. now rewrite P.
        - cbn [app find] in *.
          destruct (strings.HasPrefix (c :: s) (fst q)); [discriminate|].
          auto. }
      rewrite (expand_copy _ _ _ F), (expand_copy _ _ _ F').
      rewrite ReplaceAll_copy.
      * f_equal. apply (IH (List.length s)); [|reflexivity]. subst n. simpl. lia.
      * destruct (strings.HasPrefix (c :: expand rules s) old) eqn:Q; [|reflexivity].
        exfalso. simpl in Q, P.
        apply andb_true_iff in Q as [Q1 Q2]. rewrite Q1 in P. simpl in P.
        apply expand_prefix in Q2; [congruence|].
        intros c' I'. now right.
Qed.

End Sequential.

Lemma expand_no_rules (s : gostring) : expand [] s = s.
Proof.
  induction s as [|c s IH]; [reflexivity|].
  rewrite expand_copy by reflexivity. now rewrite IH.
Qed.

Lemma runesOfUint_digits (d : Decimal.uint) :
  forallb strconv.isDigit (strconv.runesOfUint d) = true.
Proof. induction d; simpl; auto. Qed.

Lemma FormatUint_digits (n : N) :
  forallb strconv.isDigit (strconv.FormatUint n) = true.
Proof. apply runesOfUint_digits. Qed.

Lemma FormatUint_nonempty (n : N) : strconv.FormatUint n <> [].
Proof.
  unfold strconv.FormatUint. destruct n as [|p]; [discriminate|].
  simpl. pose proof (DecimalPos.Unsigned.to_uint_nonnil p) as H.
  destruct (Pos.to_uint p); [congruence | discriminate ..].
Qed.

(** A decimal number shares no rune with a text without digits. *)
Lemma FormatUint_foreign (n : N) (old : gostring) :
  forallb (fun c => negb (strconv.isDigit c)) old = true ->
  strconv.FormatUint n <> []
  /\ forall c, In c (strconv.FormatUint n) -> ~ In c old.
Proof.
  intros H. split; [apply FormatUint_nonempty|]. intros c I O.
  pose proof (FormatUint_digits n) as D. rewrite forallb_forall in D, H.
  apply D in I. apply H in O. rewrite I in O. discriminate.
Qed.

Ltac one_of_rules I :=
  simpl in I;
  repeat match type of I with
         | _ \/ _ => destruct I as [I | I]
         | False => destruct I
         | (_, _) = (_, _) => injection I as <- <-
         end.

Lemma ReplaceAll_phMinor (ma mi : N) (s : gostring) :
  strings.ReplaceAll (expand [(phMajor, strconv.FormatUint ma)] s) phMinor
    (strconv.FormatUint mi)
  = expand [(phMajor, strconv.FormatUint ma); (phMinor, strconv.FormatUint mi)] s.
Proof.
  apply (ReplaceAll_expand [(phMajor, strconv.FormatUint ma)] 123%N
           (str "{.Minor}}") (strconv.FormatUint mi)).
  - intros p r I. one_of_rules I; discriminate.
  - intros p r I. one_of_rules I; now apply FormatUint_foreign.
  - intros i rest p r L I. one_of_rules I; revert L;
      repeat (destruct i as [|i]; [reflexivity|]); simpl; lia.
Qed.

Lemma ReplaceAll_phPatch (ma mi pa : N) (s : gostring) :
  strings.ReplaceAll
    (expand [(phMajor, strconv.FormatUint ma); (phMinor, strconv.FormatUint mi)] s)
    phPatch (strconv.FormatUint pa)
  = expand [(phMajor, strconv.FormatUint ma); (phMinor, strconv.FormatUint mi);
            (phPatch, strconv.FormatUint pa)] s.
Proof.
  apply (ReplaceAll_expand
           [(phMajor, strconv.FormatUint ma); (phMinor, strconv.FormatUint mi)]
           123%N (str "{.Patch}}") (strconv.FormatUint pa)).
  - intros p r I. one_of_rules I; discriminate.
  - intros p r I. one_of_rules I; now apply FormatUint_foreign.
  - intros i rest p r L I. one_of_rules I; revert L;
      repeat (destruct i as [|i]; [reflexivity|]); simpl; lia.
Qed.

Lemma ReplaceAll_phPrerelease (ma mi pa : N) (new s : gostring) :
  strings.ReplaceAll
    (expand [(phMajor, strconv.FormatUint ma); (phMinor, strconv.FormatUint mi);
             (phPatch, strconv.FormatUint pa)] s)
    phPrerelease new
  = expand [(phMajor, strconv.FormatUint ma); (phMinor, strconv.FormatUint mi);
            (phPatch, strconv.FormatUint pa); (phPrerelease, new)] s.
Proof.
  apply (ReplaceAll_expand
           [(phMajor, strconv.FormatUint ma); (phMinor, strconv.FormatUint mi);
            (phPatch, strconv.FormatUint pa)]
           123%N (str "{.Prerelease}}") new).
  - intros p r I. one_of_rules I; discriminate.
  - intros p r I. one_of_rules I; now apply FormatUint_foreign.
  - intros i rest p r L I. one_of_rules I; revert L;
      repeat (destruct i as [|i]; [reflexivity|]); simpl; lia.
Qed.

(** The four replacements in a row are the one-pass expansion. *)
Lemma formatTag_expand (tagFormat : gostring) (v : semver.Version) :
  formatTag tagFormat v = expand (placeholders v) tagFormat.
Proof.
  unfold formatTag, placeholders, semver.Major, semver.Minor, semver.Patch,
    semver.Prerelease. cbv zeta.
  assert (E : strings.ReplaceAll tagFormat phMajor (strconv.FormatUint (semver.major v))
              = expand [(phMajor, strconv.FormatUint (semver.major v))] tagFormat).
  { rewrite <- (expand_no_rules tagFormat) at 1.
    apply (ReplaceAll_expand [] 123%N (str "{.Major}}")).
    - intros p r [].
    - intros p r [].
    - intros i rest p r _ []. }
  rewrite E, ReplaceAll_phMinor, ReplaceAll_phPatch.
  destruct (streq (semver.pre v) []); cbn [negb]; apply ReplaceAll_phPrerelease.
Qed.

Lemma Contains_cons_false (c : rune) (s p : gostring) :
  strings.Contains (c :: s) p = false ->
  strings.HasPrefix (c :: s) p = false /\ strings.Contains s p = false.
Proof. cbn [strings.Contains]. intros H. now apply orb_false_iff in H. Qed.

(** A text in which no placeholder occurs is left as it is. *)
Lemma expand_no_occurrence (rules : list (gostring * gostring)) (s : gostring) :
  (forall p r, In (p, r) rules -> strings.Contains s p = false) ->
  expand rules s = s.
Proof.
  induction s as [|c s IH]; intros H; [reflexivity|].
  rewrite expand_copy.
  - f_equal. apply IH. intros p r I. now apply (Contains_cons_false c s p), (H p r).
  - destruct (find _ rules) as [[p r]|] eqn:F; [|reflexivity].
    apply find_some in F as [I P]. simpl in P.
    apply H, Contains_cons_false in I. destruct I as [I _]. congruence.
Qed.

(** Claim C7, as the code has it: for a tag format that is not empty
    and a new version the library parses, the tag name is the format
    with every occurrence of the four placeholders replaced in one pass
    by the decimal major, minor and patch numbers and by the prerelease
    behind a hyphen (nothing when there is none), every other rune
    copied; a format in which none of the four occurs is the tag name
    as it stands; and for the empty format the tag name is the letter v
    and the new version. *)
Theorem finalTagName_expands (tagFormat newVersion : gostring) (v : semver.Version) :
  (tagFormat <> [] ->
   semver.NewVersion newVersion = Some v ->
   finalTagName tagFormat newVersion = Some (expand (placeholders v) tagFormat)
   /\ ((forall p r, In (p, r) (placeholders v) ->
                    strings.Contains tagFormat p = false) ->
       finalTagName tagFormat newVersion = Some tagFormat))
  /\ finalTagName [] newVersion = Some (str "v" ++ newVersion).
Proof.
  split; [|reflexivity].
  intros N P. unfold finalTagName. apply streq_neq in N. rewrite N, P. cbn [negb].
  rewrite formatTag_expand. split; [reflexivity|].
  intros H. now rewrite expand_no_occurrence.
Qed.

(** The amended claim C7 at the default format, with and without
    prerelease, at formats with an unknown placeholder, and at the
    empty format. *)
Lemma finalTagName_expands_witness :
  finalTagName defaultTagFormat (str "2.0.0") = Some (str "v2.0.0")
  /\ finalTagName defaultTagFormat (str "2.0.0-rc.1") = Some (str "v2.0.0-rc.1")
  /\ finalTagName (str "rel-{{.Major}}.{{.Minor}}-{{.Build}}") (str "2.1.0")
     = Some (str "rel-2.1-{{.Build}}")
  /\ finalTagName (str "{{.Foo}}") (str "2.1.0") = Some (str "{{.Foo}}")
  /\ finalTagName [] (str "2.1.0") = Some (str "v2.1.0").
Proof.
  split; [|split; [|split; [|split]]].
  - exact (proj1 (proj1 (finalTagName_expands defaultTagFormat (str "2.0.0")
                           (semver.mkVersion 2 0 0 [] []))
                    ltac:(discriminate) eq_refl)).
  - exact (proj1 (proj1 (finalTagName_expands defaultTagFormat (str "2.0.0-rc.1")
                           (semver.mkVersion 2 0 0 (str "rc.1") []))
                    ltac:(discriminate) eq_refl)).
  - exact (proj1 (proj1 (finalTagName_expands
                           (str "rel-{{.Major}}.{{.Minor}}-{{.Build}}")
                           (str "2.1.0") (semver.mkVersion 2 1 0 [] []))
                    ltac:(discriminate) eq_refl)).
  - apply (proj2 (proj1 (finalTagName_expands (str "{{.Foo}}") (str "2.1.0")
                           (semver.mkVersion 2 1 0 [] []))
                    ltac:(discriminate) eq_refl)).
    intros p r I. one_of_rules I; reflexivity.
  - exact (proj2 (finalTagName_expands [] (str "2.1.0") version000)).
Defined.

(** Claim C7 as it is stated fails: the empty tag format is not
    expanded, the tag name is the letter v and the new version. *)
Lemma finalTagName_empty_format :
  finalTagName [] (str "2.0.0") = Some (str "v2.0.0")
  /\ expand (placeholders (semver.mkVersion 2 0 0 [] [])) [] = [].
Proof. split; reflexivity. Qed.

(** ** Version calculation *)

Lemma wrapUint64_small (n : N) :
  (n < 2 ^ 64 - 1)%N -> wrapUint64 (n + 1) = (n + 1)%N.
Proof. intros H. unfold wrapUint64. apply N.mod_small. lia. Qed.

(** Claim C5, as the code has it: in the release regime a major bump
    increments the major number and zeroes the others, a minor bump
    increments the minor number and zeroes the patch number, and any
    other bump increments the patch number of a version without
    prerelease and leaves the numbers of a version with a prerelease as
    they are; the result has neither prerelease nor metadata.  The
    numbers are 64-bit: incrementing wraps, and is the plain successor
    below the largest value. *)
Theorem release_regime_bump (allTags vTags : option (list gostring))
    (current : semver.Version) (bumpType branch : gostring) :
  (bumpType = str "major" ->
   calculateNewVersion allTags vTags current bumpType branch false
   = Some (semver.String
             (semver.mkVersion (wrapUint64 (semver.major current + 1)) 0 0 [] [])))
  /\ (bumpType = str "minor" ->
      calculateNewVersion allTags vTags current bumpType branch false
      = Some (semver.String
                (semver.mkVersion (semver.major current)
                   (wrapUint64 (semver.minor current + 1)) 0 [] [])))
  /\ (bumpType <> str "major" -> bumpType <> str "minor" ->
      semver.pre current = [] ->
      calculateNewVersion allTags vTags current bumpType branch false
      = Some (semver.String
                (semver.mkVersion (semver.major current) (semver.minor current)
                   (wrapUint64 (semver.patch current + 1)) [] [])))
  /\ (bumpType <> str "major" -> bumpType <> str "minor" ->
      semver.pre current <> [] ->
      calculateNewVersion allTags vTags current bumpType branch false
      = Some (semver.String
                (semver.mkVersion (semver.major current) (semver.minor current)
                   (semver.patch current) [] [])))
  /\ (forall n : N, (n < 2 ^ 64 - 1)%N -> wrapUint64 (n + 1) = (n + 1)%N).
Proof.
  unfold calculateNewVersion. cbn [negb].
  split; [|split; [|split; [|split]]].
  - intros ->. reflexivity.
  - intros ->. reflexivity.
  - intros N1 N2 P. apply streq_neq in N1, N2. rewrite N1, N2.
    unfold semver.IncPatch. rewrite P. reflexivity.
  - intros N1 N2 P. apply streq_neq in N1, N2, P. rewrite N1, N2.
    unfold semver.IncPatch. rewrite P. reflexivity.
  - exact wrapUint64_small.
Qed.

(** The amended claim C5 at the version 1.2.3. *)
Lemma release_regime_bump_witness :
  calculateNewVersion None None version123 (str "major") (str "main") false
  = Some (str "2.0.0")
  /\ calculateNewVersion None None version123 (str "minor") (str "main") false
     = Some (str "1.3.0")
  /\ calculateNewVersion None None version123 (str "patch") (str "main") false
     = Some (str "1.2.4")
  /\ calculateNewVersion None None version123 (str "none") (str "main") false
     = Some (str "1.2.4").
Proof.
  split; [|split; [|split]].
  - exact (proj1 (release_regime_bump None None version123 (str "major") (str "main"))
             eq_refl).
  - exact (proj1 (proj2 (release_regime_bump None None version123 (str "minor")
                           (str "main"))) eq_refl).
  - apply (proj1 (proj2 (proj2 (release_regime_bump None None version123 (str "patch")
                                  (str "main"))))); [discriminate | discriminate | reflexivity].
  - apply (proj1 (proj2 (proj2 (release_regime_bump None None version123 (str "none")
                                  (str "main"))))); [discriminate | discriminate | reflexivity].
Defined.

(** Claim C5 as it is stated fails: a patch bump of 1.2.3-rc.1 gives
    1.2.3, and a major bump of the largest major number wraps to 0. *)
Lemma release_regime_patch_after_prerelease :
  calculateNewVersion None None (semver.mkVersion 1 2 3 (str "rc.1") [])
    (str "patch") (str "main") false = Some (str "1.2.3")
  /\ calculateNewVersion None None
       (semver.mkVersion 18446744073709551615 2 3 [] [])
       (str "major") (str "main") false = Some (str "0.0.0").
Proof. split; reflexivity. Qed.

(** Claim C2 at its own example, the tag v1.4.0-feature-X.0 of the
    branch feature/X: the tag is found with counter 0; a major bump
    gives 2.0.0-feature-X.1 and a minor bump 1.5.0-feature-X.1, but a
    patch bump gives 1.4.0-feature-X.1, the patch number is not
    incremented. *)
Theorem prerelease_bump_on_branch_tag (current : semver.Version) :
  highestBranchPreRelease (sanitizeBranch (str "feature/X")) (Some branchTag140)
  = (Some (semver.mkVersion 1 4 0 (str "feature-X.0") []), 0%Z)
  /\ calculateNewVersion (Some branchTag140) (Some release140) current
       (str "major") (str "feature/X") true = Some (str "2.0.0-feature-X.1")
  /\ calculateNewVersion (Some branchTag140) (Some release140) current
       (str "minor") (str "feature/X") true = Some (str "1.5.0-feature-X.1")
  /\ calculateNewVersion (Some branchTag140) (Some release140) current
       (str "patch") (str "feature/X") true = Some (str "1.4.0-feature-X.1").
Proof. repeat split; reflexivity. Qed.

(** Claim C4 at its own example and at the branch 01: for the branch
    feature/X without tag of its own the result is the latest release
    (0.0.0 without one) with the prerelease feature-X.0, for every bump
    type; for the branch 01 the library refuses the prerelease 01.0,
    the error is dropped and the result is the release 1.4.0 with no
    prerelease. *)
Theorem first_prerelease_of_branch (current : semver.Version) (bumpType : gostring) :
  calculateNewVersion (Some release140) (Some release140) current bumpType
    (str "feature/X") true = Some (str "1.4.0-feature-X.0")
  /\ calculateNewVersion (Some []) (Some []) current bumpType
       (str "feature/X") true = Some (str "0.0.0-feature-X.0")
  /\ semver.validatePrerelease (sanitizeBranch (str "01") ++ str ".0") = false
  /\ calculateNewVersion (Some release140) (Some release140) current bumpType
       (str "01") true = Some (str "1.4.0").
Proof. repeat split; reflexivity. Qed.

(** [semver.NewVersion("0.0.0")] is the version the model names. *)
Lemma NewVersion_000 : semver.NewVersion (str "0.0.0") = Some version000.
Proof. reflexivity. Qed.

(** The library on a version with a prerelease: a patch increment
    gives the release of the same numbers. *)
Example IncPatch_of_prerelease :
  semver.String (semver.IncPatch (semver.mkVersion 1 2 3 (str "beta") (str "meta")))
  = str "1.2.3"
  /\ semver.String (semver.IncPatch (semver.mkVersion 1 2 3 [] (str "meta")))
     = str "1.2.4".
Proof. split; reflexivity. Qed.

(** The text before the first dot is the first part of the split. *)
Lemma Split_first (s t cur : gostring) :
  ~ In 46%N s ->
  strings.splitFrom (str ".") O cur (s ++ 46%N :: t)
  = (rev cur ++ s) :: strings.splitFrom (str ".") O [] t.
Proof.
  change (str ".") with [46%N].
  revert cur; induction s as [|c s IH]; intros cur N.
  - simpl. now rewrite ?app_nil_r.
  - assert (c <> 46%N) by (intros ->; apply N; now left).
    cbn [app strings.splitFrom]. rewrite HasPrefix_head by assumption.
    rewrite IH by (intros I; apply N; now right).
    simpl. now rewrite <- app_assoc.
Qed.

Lemma sanitizeBranch_allowed (branch : gostring) :
  forallb semver.isAllowed (sanitizeBranch branch) = true.
Proof.
  unfold sanitizeBranch. induction branch as [|r b IH]; [reflexivity|].
  cbn [map forallb]. rewrite IH, andb_true_r.
  destruct (semver.isLetter r || strconv.isDigit r || (r =? 45)%N) eqn:E;
    [|reflexivity].
  unfold semver.isAllowed.
  destruct (semver.isLetter r); [reflexivity|].
  destruct (strconv.isDigit r); [now rewrite orb_true_r|].
  simpl in E. now rewrite E.
Qed.

Lemma isAllowed_not_dot (s : gostring) :
  forallb semver.isAllowed s = true -> ~ In 46%N s.
Proof.
  intros H I. rewrite forallb_forall in H. apply H in I. discriminate.
Qed.

(** The first prerelease of a branch is refused by the library when the
    sanitized name is empty, or a number of several digits that starts
    with a zero, and in no other case. *)
Lemma validatePrerelease_first (branch : gostring) :
  semver.validatePrerelease (sanitizeBranch branch ++ str ".0")
  = negb (streq (sanitizeBranch branch) [])
    && negb (forallb strconv.isDigit (sanitizeBranch branch)
             && (1 <? List.length (sanitizeBranch branch))%nat
             && streq (firstn 1 (sanitizeBranch branch)) (str "0")).
Proof.
  pose proof (sanitizeBranch_allowed branch) as A.
  unfold semver.validatePrerelease, strings.Split.
  change (str ".0") with (46%N :: str "0").
  rewrite Split_first by now apply isAllowed_not_dot.
  cbn [rev app forallb strings.splitFrom str]. rewrite andb_true_r.
  destruct (streq (sanitizeBranch branch) []); [reflexivity|].
  destruct (forallb strconv.isDigit (sanitizeBranch branch)).
  - reflexivity.
  - now rewrite A.
Qed.

Lemma scan_no_match (sanitizedBranch : gostring) (tags : list gostring)
    (st : option semver.Version * Z) :
  (forall tag, In tag tags -> findBranchPreRelease sanitizedBranch tag = None) ->
  fold_left (scanTag sanitizedBranch) tags st = st.
Proof.
  revert st; induction tags as [|tag tags IH]; intros st H; [reflexivity|].
  simpl. unfold scanTag at 2. rewrite (H tag) by now left.
  apply IH. intros t I. apply H. now right.
Qed.

(** Without a tag of the branch the version is the latest release with
    the first prerelease of the branch, whatever the bump, provided the
    library accepts that prerelease. *)
Lemma calculateNewVersion_first_prerelease
    (allTags vTags : list gostring) (current : semver.Version)
    (bumpType branch : gostring) :
  (forall tag, In tag allTags ->
     findBranchPreRelease (sanitizeBranch branch) tag = None) ->
  semver.validatePrerelease (sanitizeBranch branch ++ str ".0") = true ->
  calculateNewVersion (Some allTags) (Some vTags) current bumpType branch true
  = Some (semver.String
            (semver.mkVersion (semver.major (firstRelease vTags))
               (semver.minor (firstRelease vTags))
               (semver.patch (firstRelease vTags))
               (sanitizeBranch branch ++ str ".0")
               (semver.metadata (firstRelease vTags)))).
Proof.
  intros H V. unfold calculateNewVersion, highestBranchPreRelease. cbn [negb].
  rewrite scan_no_match by exact H. cbn [getCurrentReleaseVersion].
  unfold semver.SetPrerelease. rewrite V. cbn [negb]. rewrite andb_false_r.
  reflexivity.
Qed.

(** With a tag of the branch, a major or minor bump is applied to the
    numbers of the highest one, and a patch bump leaves them as they
    are when that tag has a prerelease. *)
Lemma calculateNewVersion_next_prerelease
    (allTags vTags : option (list gostring)) (current highest : semver.Version)
    (num : Z) (bumpType branch : gostring) :
  highestBranchPreRelease (sanitizeBranch branch) allTags = (Some highest, num) ->
  let newPreRelease :=
    sanitizeBranch branch ++ str "." ++ strconv.FormatInt (wrapInt64 (num + 1)) in
  semver.validatePrerelease newPreRelease = true ->
  (bumpType = str "major" ->
   calculateNewVersion allTags vTags current bumpType branch true
   = Some (semver.String
             (semver.mkVersion (wrapUint64 (semver.major highest + 1)) 0 0
                newPreRelease [])))
  /\ (bumpType = str "minor" ->
      calculateNewVersion allTags vTags current bumpType branch true
      = Some (semver.String
                (semver.mkVersion (semver.major highest)
                   (wrapUint64 (semver.minor highest + 1)) 0 newPreRelease [])))
  /\ (bumpType = str "patch" -> semver.pre highest <> [] ->
      calculateNewVersion allTags vTags current bumpType branch true
      = Some (semver.String
                (semver.mkVersion (semver.major highest) (semver.minor highest)
                   (semver.patch highest) newPreRelease []))).
Proof.
  intros H newPreRelease V. unfold calculateNewVersion. cbn [negb]. rewrite H.
  fold newPreRelease. unfold semver.SetPrerelease. rewrite V. cbn [negb].
  rewrite andb_false_r.
  split; [|split].
  - intros ->. reflexivity.
  - intros ->. reflexivity.
  - intros -> P. apply streq_neq in P. cbn [streq str]. unfold bindOpt.
    change (streq (str "patch") (str "major")) with false.
    change (streq (str "patch") (str "minor")) with false.
    change (streq (str "patch") (str "patch")) with true.
    cbv iota. unfold semver.IncPatch. rewrite P. reflexivity.
Qed.

(** * Lemmas for the further properties *)

(** ** Decimal numbers *)

Lemma digitsValue_acc (d : Decimal.uint) (acc : positive) :
  fold_left (fun acc r => acc * 10 + (r - 48))%N (strconv.runesOfUint d) (Npos acc)
  = Npos (Pos.of_uint_acc d acc).
Proof.
  revert acc; induction d; intros acc;
    cbn [strconv.runesOfUint fold_left Pos.of_uint_acc];
    [reflexivity | rewrite <- IHd; f_equal; lia ..].
Qed.

Lemma digitsValue_runes (d : Decimal.uint) :
  strconv.digitsValue (strconv.runesOfUint d) = N.of_uint d.
Proof.
  unfold strconv.digitsValue, N.of_uint.
  induction d; cbn [strconv.runesOfUint fold_left Pos.of_uint];
    [reflexivity | exact IHd | rewrite <- digitsValue_acc; f_equal ..].
Qed.

Lemma digitsValue_FormatUint (n : N) :
  strconv.digitsValue (strconv.FormatUint n) = n.
Proof.
  unfold strconv.FormatUint. rewrite digitsValue_runes.
  apply DecimalN.Unsigned.of_to.
Qed.

Lemma allDigits_FormatUint (n : N) :
  strconv.allDigits (strconv.FormatUint n) = true.
Proof.
  unfold strconv.allDigits. rewrite FormatUint_digits, andb_true_r.
  apply negb_true_iff, streq_neq, FormatUint_nonempty.
Qed.

Lemma ParseUint_FormatUint (n : N) :
  (n < 2 ^ 64)%N -> strconv.ParseUint (strconv.FormatUint n) = Some n.
Proof.
  intros H. unfold strconv.ParseUint.
  rewrite allDigits_FormatUint, digitsValue_FormatUint.
  apply N.ltb_lt in H. now rewrite H.
Qed.

Lemma FormatUint_head (n : N) :
  exists d ds, strconv.FormatUint n = d :: ds /\ strconv.isDigit d = true.
Proof.
  pose proof (FormatUint_nonempty n) as NE.
  pose proof (FormatUint_digits n) as D.
  destruct (strconv.FormatUint n) as [|d ds]; [congruence|].
  simpl in D. apply andb_true_iff in D as [D _]. now exists d, ds.
Qed.

(** What [FormatUint] writes is a number of the pattern of the library. *)
Lemma noLeadingZero_unorm (d : Decimal.uint) :
  semver.noLeadingZero (strconv.runesOfUint (Decimal.unorm d)) = true.
Proof.
  induction d; try reflexivity. exact IHd.
Qed.

Lemma FormatUint_noLeadingZero (n : N) :
  semver.noLeadingZero (strconv.FormatUint n) = true.
Proof.
  unfold strconv.FormatUint.
  rewrite <- (DecimalN.Unsigned.of_to n) at 1.
  rewrite DecimalN.Unsigned.to_of. apply noLeadingZero_unorm.
Qed.

Lemma Atoi_FormatUint (n : N) :
  (n < 2 ^ 63)%N -> strconv.Atoi (strconv.FormatUint n) = Some (Z.of_N n).
Proof.
  intros H. unfold strconv.Atoi.
  destruct (FormatUint_head n) as (d & ds & E & D).
  assert (S : match strconv.FormatUint n with
              | 43%N :: s' => (false, s')
              | 45%N :: s' => (true, s')
              | _ => (false, strconv.FormatUint n)
              end = (false, strconv.FormatUint n)).
  { rewrite E. unfold strconv.isDigit in D.
    apply andb_true_iff in D as [D1 D2]. apply N.leb_le in D1, D2.
    destruct d as [|p]; [reflexivity|].
    do 6 (destruct p as [p|p|]; try reflexivity); lia. }
  rewrite S, allDigits_FormatUint, digitsValue_FormatUint.
  assert ((- 2 ^ 63 <=? Z.of_N n)%Z && (Z.of_N n <? 2 ^ 63)%Z = true) as ->.
  { apply andb_true_iff; split; [apply Z.leb_le | apply Z.ltb_lt]; lia. }
  reflexivity.
Qed.

(** ** Runs *)

Lemma span_stop (f : rune -> bool) (a b : gostring) :
  forallb f a = true ->
  match b with [] => True | c :: _ => f c = false end ->
  span f (a ++ b) = (a, b).
Proof.
  intros H N. destruct b as [|c b].
  - rewrite app_nil_r. clear N. induction a as [|x a IH]; [reflexivity|].
    simpl in *. apply andb_true_iff in H as [H1 H2]. now rewrite H1, (IH H2).
  - now apply span_run.
Qed.

(** ** The identifiers between the dots *)

Lemma Split_dot_runes (f : rune -> bool) (s cur : gostring) :
  forallb (forallb f) (strings.splitFrom (str ".") O cur s) = true ->
  forallb f cur = true /\ forallb (fun r => f r || (r =? 46)%N) s = true.
Proof.
  revert cur; induction s as [|c s IH]; intros cur H.
  - simpl in H. rewrite andb_true_r in H. split; [|reflexivity].
    rewrite forallb_forall in *. intros x I. apply H. now apply in_rev in I.
  - cbn [strings.splitFrom] in H.
    change (strings.HasPrefix (c :: s) (str ".")) with ((c =? 46)%N && true) in H.
    rewrite andb_true_r in H. destruct (c =? 46)%N eqn:E.
    + change (List.length (str ".") - 1) with O in H. simpl in H.
      apply andb_true_iff in H as [H1 H2]. apply IH in H2 as [_ H2].
      split.
      * rewrite forallb_forall in *. intros x I. apply H1. now apply in_rev in I.
      * simpl. now rewrite E, orb_true_r.
    + apply IH in H as [H1 H2]. simpl in H1. apply andb_true_iff in H1 as [H0 H1].
      split; [exact H1|]. simpl. now rewrite H0, H2.
Qed.

Lemma forallb_weaken {A} (f g : A -> bool) (l : list A) :
  (forall x, f x = true -> g x = true) ->
  forallb f l = true -> forallb g l = true.
Proof.
  intros W H. rewrite forallb_forall in *. auto.
Qed.

Lemma digit_allowed (r : rune) :
  strconv.isDigit r = true -> semver.isAllowed r = true.
Proof. intros H. unfold semver.isAllowed. now rewrite H, orb_true_r. Qed.

Lemma validatePrerelease_idents (p : gostring) :
  semver.validatePrerelease p = true ->
  forallb semver.identRune p = true
  /\ forallb (fun part => negb (streq part [])) (strings.Split p (str ".")) = true.
Proof.
  intros H. unfold semver.validatePrerelease in H. split.
  - apply (Split_dot_runes semver.isAllowed p []).
    revert H. apply forallb_weaken. intros part.
    destruct (streq part []); [discriminate|].
    destruct (forallb strconv.isDigit part) eqn:D; [|auto].
    intros _. revert D. apply forallb_weaken, digit_allowed.
  - revert H. apply forallb_weaken. intros part.
    now destruct (streq part []).
Qed.

Lemma validateMetadata_idents (m : gostring) :
  semver.validateMetadata m = true ->
  forallb semver.identRune m = true
  /\ forallb (fun part => negb (streq part [])) (strings.Split m (str ".")) = true.
Proof.
  intros H. unfold semver.validateMetadata in H. split.
  - apply (Split_dot_runes semver.isAllowed m []).
    revert H. apply forallb_weaken. intros part H.
    now apply andb_true_iff in H as [_ H].
  - revert H. apply forallb_weaken. intros part H.
    now apply andb_true_iff in H as [H _].
Qed.

Lemma optIdents_absent (mark : rune) (s : gostring) :
  match s with [] => True | c :: _ => c <> mark end ->
  semver.optIdents mark s = Some ([], s).
Proof.
  destruct s as [|c s]; [reflexivity|]. intros H. simpl.
  apply N.eqb_neq in H. now rewrite H.
Qed.

Lemma optIdents_present (mark : rune) (ids rest : gostring) :
  forallb semver.identRune ids = true ->
  forallb (fun part => negb (streq part [])) (strings.Split ids (str ".")) = true ->
  match rest with [] => True | c :: _ => semver.identRune c = false end ->
  semver.optIdents mark (mark :: ids ++ rest) = Some (ids, rest).
Proof.
  intros H1 H2 H3. cbn [semver.optIdents]. rewrite N.eqb_refl.
  rewrite (span_stop _ _ _ H1 H3). now rewrite H2.
Qed.

Lemma suffixOf_head (v : semver.Version) :
  match suffixOf v with
  | [] => True
  | c :: _ => strconv.isDigit c = false /\ c <> 46%N
  end.
Proof.
  unfold suffixOf. destruct (streq (semver.pre v) []); simpl.
  - destruct (streq (semver.metadata v) []); simpl; [exact I|].
    split; [reflexivity | discriminate].
  - split; [reflexivity | discriminate].
Qed.

Lemma optDotDigits_number (n : N) (rest : gostring) :
  match rest with [] => True | c :: _ => strconv.isDigit c = false end ->
  semver.optDotDigits (46%N :: strconv.FormatUint n ++ rest)
  = (strconv.FormatUint n, rest).
Proof.
  intros H. cbn [semver.optDotDigits].
  rewrite (span_stop _ _ _ (FormatUint_digits n) H).
  rewrite FormatUint_noLeadingZero.
  destruct (FormatUint_head n) as (d & ds & E & _). now rewrite E.
Qed.

Lemma parse_suffix (v : semver.Version) :
  wellFormed v = true ->
  exists s4,
    semver.optIdents 45%N (suffixOf v) = Some (semver.pre v, s4)
    /\ semver.optIdents 43%N s4 = Some (semver.metadata v, []).
Proof.
  intros W. unfold wellFormed in W.
  apply andb_true_iff in W as [W WM]. apply andb_true_iff in W as [_ WP].
  exists (if streq (semver.metadata v) [] then [] else str "+" ++ semver.metadata v).
  unfold suffixOf. split.
  - destruct (streq (semver.pre v) []) eqn:EP.
    + apply streq_eq in EP. rewrite EP. simpl app.
      apply optIdents_absent.
      destruct (streq (semver.metadata v) []); simpl; [exact I | discriminate].
    + simpl in WP. apply validatePrerelease_idents in WP as [P1 P2].
      change (str "-" ++ semver.pre v) with (45%N :: semver.pre v).
      rewrite <- app_comm_cons.
      apply optIdents_present; auto.
      destruct (streq (semver.metadata v) []); simpl; [exact I | reflexivity].
  - destruct (streq (semver.metadata v) []) eqn:EM.
    + apply streq_eq in EM. now rewrite EM.
    + simpl in WM. apply validateMetadata_idents in WM as [M1 M2].
      pose proof (optIdents_present 43%N _ [] M1 M2 I) as H.
      rewrite app_nil_r in H. exact H.
Qed.

Lemma String_shape (v : semver.Version) :
  semver.String v
  = strconv.FormatUint (semver.major v)
    ++ 46%N :: strconv.FormatUint (semver.minor v)
    ++ 46%N :: strconv.FormatUint (semver.patch v) ++ suffixOf v.
Proof.
  reflexivity.
Qed.

(** The optional [v] of the pattern. *)
Lemma NewVersion_v (d : rune) (s : gostring) :
  d <> 118%N -> semver.NewVersion (118%N :: d :: s) = semver.NewVersion (d :: s).
Proof.
  intros H. unfold semver.NewVersion.
  destruct d as [|p]; [reflexivity|].
  do 7 (destruct p as [p|p|]; try reflexivity). congruence.
Qed.

(** A well-formed version is read back from its text. *)
Lemma NewVersion_String (v : semver.Version) :
  wellFormed v = true -> semver.NewVersion (semver.String v) = Some v.
Proof.
  intros W. destruct (parse_suffix v W) as (s4 & O1 & O2).
  rewrite String_shape.
  destruct (FormatUint_head (semver.major v)) as (d & ds & E & D).
  assert (V : semver.NewVersion
                (118%N :: strconv.FormatUint (semver.major v)
                 ++ 46%N :: strconv.FormatUint (semver.minor v)
                 ++ 46%N :: strconv.FormatUint (semver.patch v) ++ suffixOf v)
              = Some v).
  2:{ rewrite E in V |- *. cbn [app] in V |- *. rewrite NewVersion_v in V; [exact V|].
      intros ->. discriminate D. }
  unfold semver.NewVersion.
  rewrite (span_run _ _ _ _ (FormatUint_digits _) (eq_refl : strconv.isDigit 46%N = false)).
  rewrite optDotDigits_number by reflexivity.
  rewrite optDotDigits_number.
  2:{ pose proof (suffixOf_head v) as H. destruct (suffixOf v); [exact I | apply H]. }
  rewrite O1, O2. cbn [streq negb].
  rewrite FormatUint_noLeadingZero. cbn [negb].
  unfold wellFormed in W.
  apply andb_true_iff in W as [W WM]. apply andb_true_iff in W as [W WP].
  apply andb_true_iff in W as [W W3]. apply andb_true_iff in W as [W1 W2].
  apply N.ltb_lt in W1, W2, W3.
  rewrite (ParseUint_FormatUint _ W1).
  assert (NE : forall n, streq (strconv.FormatUint n) [] = false)
    by (intros n; apply streq_neq, FormatUint_nonempty).
  rewrite !NE, (ParseUint_FormatUint _ W2), (ParseUint_FormatUint _ W3).
  assert ((negb (streq (semver.pre v) []) && negb (semver.validatePrerelease (semver.pre v))) = false) as ->.
  { destruct (streq (semver.pre v) []); [reflexivity|]. simpl in WP. now rewrite WP. }
  assert ((negb (streq (semver.metadata v) []) && negb (semver.validateMetadata (semver.metadata v))) = false) as ->.
  { destruct (streq (semver.metadata v) []); [reflexivity|]. simpl in WM. now rewrite WM. }
  now destruct v.
Qed.

(** A number with a leading zero is refused: in the first place whatever
    follows, and in the two others. *)
Lemma NewVersion_leading_zero (d : rune) (s : gostring) :
  strconv.isDigit d = true ->
  semver.NewVersion (48%N :: d :: s) = None
  /\ semver.NewVersion (118%N :: 48%N :: d :: s) = None.
Proof.
  intros H.
  assert (E : semver.NewVersion (48%N :: d :: s) = None).
  { unfold semver.NewVersion. cbn [span].
    change (strconv.isDigit 48%N) with true. cbv iota. rewrite H.
    destruct (span strconv.isDigit s) as [ds rest].
    destruct (semver.optDotDigits rest) as [d2 s2].
    destruct (semver.optDotDigits s2) as [d3 s3].
    destruct (semver.optIdents 45%N s3) as [[p s4]|]; [|reflexivity].
    destruct (semver.optIdents 43%N s4) as [[m s5]|]; [|reflexivity].
    now destruct (negb (streq s5 [])). }
  split; [exact E|]. rewrite NewVersion_v; [exact E | discriminate].
Qed.

Example NewVersion_numbers :
  semver.NewVersion (str "01.2.3") = None
  /\ semver.NewVersion (str "1.04.0-br.1") = None
  /\ semver.NewVersion (str "1.2.03") = None
  /\ semver.NewVersion (str "1.00") = None
  /\ semver.NewVersion (str "0.0.0") = Some version000
  /\ semver.NewVersion (str "10.0.20") = Some (semver.mkVersion 10 0 20 [] [])
  /\ semver.NewVersion (str "1.2") = Some (semver.mkVersion 1 2 0 [] [])
  /\ semver.NewVersion (str "1.2.3-rc.01") = None
  /\ semver.NewVersion (str "1.2.3+007")
     = Some (semver.mkVersion 1 2 3 [] (str "007")).
Proof. repeat split; reflexivity. Qed.

(** A tag with such a number does not count: in the search for the
    current version, in the search for the current release, and in the
    search for the highest pre-release of a branch, where the pattern of
    [main.go] matches it and the library refuses it. *)
Example leading_zero_tags :
  getCurrentVersion (fun a b => (semver.major b <? semver.major a)%N)
    (Some [str "v01.2.3"; str "v1.0.0"])
  = Some (semver.mkVersion 1 0 0 [] [])
  /\ getCurrentVersion (fun _ _ => true) (Some [str "v01.2.3"]) = Some version000
  /\ getCurrentReleaseVersion (Some [str "v01.2.3"]) = Some version000
  /\ findBranchPreRelease (str "br") (str "v1.04.0-br.1") = Some (str "1")
  /\ highestBranchPreRelease (str "br") (Some [str "v1.04.0-br.1"; str "v0.9.0"])
     = (None, (-1)%Z)
  /\ calculateNewVersion (Some [str "v1.04.0-br.1"; str "v0.9.0"])
       (Some [str "v1.04.0-br.1"; str "v0.9.0"]) (semver.mkVersion 0 9 0 [] [])
       (str "minor") (str "br") true
     = Some (str "0.9.0-br.0")
  /\ newVersionOfMain (str "01.2.3") (fun _ => Some []) None None version123
       (str "patch") (str "main") false
     = None.
Proof. repeat split; reflexivity. Qed.

(** ** Well-formed versions *)

Lemma ParseUint_bound (s : gostring) (n : N) :
  strconv.ParseUint s = Some n -> (n <? 2 ^ 64)%N = true.
Proof.
  unfold strconv.ParseUint. destruct (strconv.allDigits s); [|discriminate].
  destruct (strconv.digitsValue s <? 2 ^ 64)%N eqn:E; [|discriminate].
  now intros [= <-].
Qed.

Lemma NewVersion_wellFormed (s : gostring) (v : semver.Version) :
  semver.NewVersion s = Some v -> wellFormed v = true.
Proof.
  unfold semver.NewVersion.
  match goal with
  | |- context [span strconv.isDigit ?x] =>
      destruct (span strconv.isDigit x) as [d1 s1]
  end.
  destruct (semver.optDotDigits s1) as [d2 s2].
  destruct (semver.optDotDigits s2) as [d3 s3].
  destruct (semver.optIdents 45%N s3) as [[p s4]|]; [|discriminate].
  destruct (semver.optIdents 43%N s4) as [[m s5]|]; [|discriminate].
  destruct (negb (streq s5 [])); [discriminate|].
  destruct (negb (semver.noLeadingZero d1)); [discriminate|].
  destruct (strconv.ParseUint d1) as [ma|] eqn:P1; [|discriminate].
  assert (B : forall d n,
             (if streq d [] then Some 0%N else strconv.ParseUint d) = Some n ->
             (n <? 2 ^ 64)%N = true).
  { intros d n. destruct (streq d []); [now intros [= <-]|]. apply ParseUint_bound. }
  destruct (if streq d2 [] then Some 0%N else strconv.ParseUint d2) as [mi|] eqn:P2;
    [|discriminate].
  destruct (if streq d3 [] then Some 0%N else strconv.ParseUint d3) as [pa|] eqn:P3;
    [|discriminate].
  destruct (negb (streq p []) && negb (semver.validatePrerelease p)) eqn:VP;
    [discriminate|].
  destruct (negb (streq m []) && negb (semver.validateMetadata m)) eqn:VM;
    [discriminate|].
  intros [= <-]. unfold wellFormed. cbn [semver.major semver.minor semver.patch
                                          semver.pre semver.metadata].
  rewrite (ParseUint_bound _ _ P1), (B _ _ P2), (B _ _ P3).
  destruct (streq p []); destruct (streq m []); simpl in *;
    rewrite ?negb_false_iff in *; rewrite ?VP, ?VM; reflexivity.
Qed.

Lemma wrapUint64_bound (n : N) : (wrapUint64 n <? 2 ^ 64)%N = true.
Proof. apply N.ltb_lt, N.mod_lt. discriminate. Qed.

Lemma wellFormed_numbers (v : semver.Version) :
  wellFormed v = true ->
  (semver.major v <? 2 ^ 64)%N = true /\ (semver.minor v <? 2 ^ 64)%N = true
  /\ (semver.patch v <? 2 ^ 64)%N = true.
Proof.
  unfold wellFormed. intros W.
  apply andb_true_iff in W as [W _]. apply andb_true_iff in W as [W _].
  apply andb_true_iff in W as [W W3]. apply andb_true_iff in W as [W1 W2].
  auto.
Qed.

Lemma wellFormed_plain (ma mi pa : N) :
  (ma <? 2 ^ 64)%N = true -> (mi <? 2 ^ 64)%N = true -> (pa <? 2 ^ 64)%N = true ->
  wellFormed (semver.mkVersion ma mi pa [] []) = true.
Proof.
  intros H1 H2 H3. unfold wellFormed.
  cbn [semver.major semver.minor semver.patch semver.pre semver.metadata].
  now rewrite H1, H2, H3.
Qed.

Lemma IncMajor_wellFormed (v : semver.Version) :
  wellFormed (semver.IncMajor v) = true.
Proof. apply wellFormed_plain; [apply wrapUint64_bound | reflexivity ..]. Qed.

Lemma IncMinor_wellFormed (v : semver.Version) :
  wellFormed v = true -> wellFormed (semver.IncMinor v) = true.
Proof.
  intros W. apply wellFormed_numbers in W as (W1 & _).
  apply wellFormed_plain; [exact W1 | apply wrapUint64_bound | reflexivity].
Qed.

Lemma IncPatch_wellFormed (v : semver.Version) :
  wellFormed v = true -> wellFormed (semver.IncPatch v) = true.
Proof.
  intros W. apply wellFormed_numbers in W as (W1 & W2 & W3).
  unfold semver.IncPatch. destruct (negb (streq (semver.pre v) []));
    apply wellFormed_plain; auto using wrapUint64_bound.
Qed.

Lemma SetPrerelease_wellFormed (v : semver.Version) (p : gostring) :
  wellFormed v = true -> wellFormed (fst (semver.SetPrerelease v p)) = true.
Proof.
  intros W. unfold semver.SetPrerelease.
  destruct ((0 <? List.length p)%nat && negb (semver.validatePrerelease p)) eqn:E;
    [exact W|].
  cbn [fst]. unfold wellFormed in *.
  cbn [semver.major semver.minor semver.patch semver.pre semver.metadata].
  apply andb_true_iff in W as [W WM]. apply andb_true_iff in W as [W _].
  rewrite W, WM, !andb_true_r. simpl.
  destruct p as [|c p]; [reflexivity|]. simpl in E.
  apply negb_false_iff in E. now rewrite E.
Qed.

Lemma version000_wellFormed : wellFormed version000 = true.
Proof. reflexivity. Qed.

Lemma firstRelease_wellFormed (tags : list gostring) :
  wellFormed (firstRelease tags) = true.
Proof.
  induction tags as [|tag0 rest IH]; [reflexivity|].
  cbn [firstRelease].
  destruct (strings.HasPrefix (strings.TrimSpace tag0) (str "v")); [|exact IH].
  destruct (semver.NewVersion _) as [v|] eqn:E; [|exact IH].
  destruct (streq (semver.Prerelease v) []); [|exact IH].
  exact (NewVersion_wellFormed _ _ E).
Qed.

Lemma scanTag_wellFormed (sanitizedBranch : gostring)
    (st : option semver.Version * Z) (tag : gostring) :
  (forall v, fst st = Some v -> wellFormed v = true) ->
  forall v, fst (scanTag sanitizedBranch st tag) = Some v -> wellFormed v = true.
Proof.
  intros H v. unfold scanTag.
  destruct (findBranchPreRelease sanitizedBranch tag) as [digits|]; [|apply H].
  destruct (strconv.Atoi digits) as [num|]; [|apply H].
  destruct (semver.NewVersion _) as [w|] eqn:E; [|apply H].
  destruct (num >? snd st)%Z; [|apply H].
  intros [= <-]. exact (NewVersion_wellFormed _ _ E).
Qed.

Lemma highestBranchPreRelease_wellFormed (sanitizedBranch : gostring)
    (tags : option (list gostring)) (v : semver.Version) (num : Z) :
  highestBranchPreRelease sanitizedBranch tags = (Some v, num) ->
  wellFormed v = true.
Proof.
  destruct tags as [tags|]; [|discriminate]. cbn [highestBranchPreRelease].
  assert (G : forall st,
             (forall v, fst st = Some v -> wellFormed v = true) ->
             forall v, fst (fold_left (scanTag sanitizedBranch) tags st) = Some v ->
                       wellFormed v = true).
  { induction tags as [|tag rest IH]; intros st H; [exact H|].
    cbn [fold_left]. apply IH. now apply scanTag_wellFormed. }
  intros E. apply (G (None, (-1)%Z)); [discriminate|]. now rewrite E.
Qed.

(** The base of the default case of [calculateNewVersion] always
    parses. *)
Lemma NewVersion_base (v : semver.Version) :
  wellFormed v = true ->
  semver.NewVersion
    (strconv.FormatUint (semver.Major v) ++ str "."
     ++ strconv.FormatUint (semver.Minor v) ++ str "."
     ++ strconv.FormatUint (semver.Patch v))
  = Some (semver.mkVersion (semver.major v) (semver.minor v) (semver.patch v) [] []).
Proof.
  intros W. apply wellFormed_numbers in W as (W1 & W2 & W3).
  rewrite <- (NewVersion_String (semver.mkVersion (semver.major v) (semver.minor v)
                                   (semver.patch v) [] []))
    by now apply wellFormed_plain.
  f_equal. unfold semver.String. cbn [semver.major semver.minor semver.patch
    semver.pre semver.metadata streq]. now rewrite !app_nil_r.
Qed.

(** The version [calculateNewVersion] prints. *)
Lemma calculateNewVersion_wellFormed (allTags vTags : option (list gostring))
    (current : semver.Version) (bumpType branch : gostring) (preRelease : bool) :
  wellFormed current = true ->
  exists v, calculateNewVersion allTags vTags current bumpType branch preRelease
            = Some (semver.String v)
            /\ wellFormed v = true.
Proof.
  intros W. unfold calculateNewVersion. destruct preRelease; cbn [negb].
  - destruct (highestBranchPreRelease (sanitizeBranch branch) allTags)
      as [[highest|] num] eqn:H.
    + apply highestBranchPreRelease_wellFormed in H.
      destruct (streq bumpType (str "major")).
      { cbn [bindOpt]. eexists; split; [reflexivity|].
        apply SetPrerelease_wellFormed, IncMajor_wellFormed. }
      destruct (streq bumpType (str "minor")).
      { cbn [bindOpt]. eexists; split; [reflexivity|].
        now apply SetPrerelease_wellFormed, IncMinor_wellFormed. }
      destruct (streq bumpType (str "patch")).
      { cbn [bindOpt]. eexists; split; [reflexivity|].
        now apply SetPrerelease_wellFormed, IncPatch_wellFormed. }
      rewrite (NewVersion_base _ H). cbn [bindOpt].
      eexists; split; [reflexivity|].
      apply SetPrerelease_wellFormed.
      apply wellFormed_numbers in H as (H1 & H2 & H3). now apply wellFormed_plain.
    + eexists; split; [reflexivity|]. apply SetPrerelease_wellFormed.
      destruct vTags as [vTags|]; cbn [getCurrentReleaseVersion];
        [apply firstRelease_wellFormed | reflexivity].
  - destruct (streq bumpType (str "major")).
    { eexists; split; [reflexivity|]. apply IncMajor_wellFormed. }
    destruct (streq bumpType (str "minor")).
    { eexists; split; [reflexivity|]. now apply IncMinor_wellFormed. }
    eexists; split; [reflexivity|]. now apply IncPatch_wellFormed.
Qed.

Lemma currentVersionStep_wellFormed
    (GreaterThan : semver.Version -> semver.Version -> bool)
    (latestVersion : option semver.Version) (tag0 : gostring) :
  (forall v, latestVersion = Some v -> wellFormed v = true) ->
  forall v, currentVersionStep GreaterThan latestVersion tag0 = Some v ->
            wellFormed v = true.
Proof.
  intros H v. unfold currentVersionStep.
  destruct (strings.HasPrefix _ _); [|apply H].
  destruct (semver.NewVersion _) as [w|] eqn:E; [|apply H].
  destruct latestVersion as [latest|].
  - destruct (GreaterThan w latest); [|apply H].
    intros [= <-]. exact (NewVersion_wellFormed _ _ E).
  - intros [= <-]. exact (NewVersion_wellFormed _ _ E).
Qed.

Lemma getCurrentVersion_wellFormed
    (GreaterThan : semver.Version -> semver.Version -> bool)
    (tags : option (list gostring)) (v : semver.Version) :
  getCurrentVersion GreaterThan tags = Some v -> wellFormed v = true.
Proof.
  destruct tags as [tags|]; [|discriminate]. cbn [getCurrentVersion].
  assert (G : forall latest,
             (forall v, latest = Some v -> wellFormed v = true) ->
             forall v, fold_left (currentVersionStep GreaterThan) tags latest = Some v ->
                       wellFormed v = true).
  { induction tags as [|tag rest IH]; intros latest H; [exact H|].
    cbn [fold_left]. apply IH. now apply currentVersionStep_wellFormed. }
  destruct (fold_left _ tags None) as [latest|] eqn:E.
  - intros [= <-]. apply (G None); [discriminate | exact E].
  - apply NewVersion_wellFormed.
Qed.

(** ** The default tag format *)

Lemma formatTag_default (v : semver.Version) :
  formatTag defaultTagFormat v
  = str "v" ++ strconv.FormatUint (semver.major v) ++ str "."
    ++ strconv.FormatUint (semver.minor v) ++ str "."
    ++ strconv.FormatUint (semver.patch v)
    ++ (if streq (semver.pre v) [] then [] else str "-" ++ semver.pre v).
Proof.
  rewrite formatTag_expand. unfold expand, placeholders.
  generalize (strconv.FormatUint (semver.major v)) as a.
  generalize (strconv.FormatUint (semver.minor v)) as b.
  generalize (strconv.FormatUint (semver.patch v)) as c.
  generalize (if streq (semver.pre v) [] then [] else str "-" ++ semver.pre v) as p.
  intros p c b a. cbv - [app]. now rewrite app_nil_r.
Qed.

Lemma finalTagName_default (v : semver.Version) :
  wellFormed v = true ->
  finalTagName defaultTagFormat (semver.String v)
  = Some (str "v"
          ++ semver.String
               (semver.mkVersion (semver.major v) (semver.minor v) (semver.patch v)
                  (semver.pre v) [])).
Proof.
  intros W. unfold finalTagName.
  change (negb (streq defaultTagFormat [])) with true. cbv iota.
  rewrite (NewVersion_String v W), formatTag_default. f_equal.
  unfold semver.String.
  cbn [semver.major semver.minor semver.patch semver.pre semver.metadata streq].
  now rewrite app_nil_r.
Qed.

Lemma finalTagName_default_plain (v : semver.Version) :
  wellFormed v = true ->
  semver.metadata v = [] ->
  finalTagName defaultTagFormat (semver.String v) = finalTagName [] (semver.String v).
Proof.
  intros W M. rewrite (finalTagName_default v W). cbn [finalTagName streq negb].
  destruct v as [ma mi pa p m]. cbn in M. now subst m.
Qed.

(** ** The bump as the highest effect *)

Lemma hasEffect_iff (e : Effect) (msg0 : gostring) :
  hasEffect e msg0 = true <-> effect msg0 = e.
Proof.
  unfold hasEffect. destruct (effect msg0), e; split; congruence.
Qed.

Lemma existsb_hasEffect (e : Effect) (msgs : list gostring) :
  existsb (hasEffect e) msgs = true <-> exists msg, In msg msgs /\ effect msg = e.
Proof.
  rewrite existsb_exists. split; intros [msg [I H]]; exists msg; split; auto;
    now apply hasEffect_iff.
Qed.

Lemma existsb_hasEffect_false (e : Effect) (msgs : list gostring) :
  existsb (hasEffect e) msgs = false <-> forall msg, In msg msgs -> effect msg <> e.
Proof.
  split.
  - intros H msg I E.
    assert (existsb (hasEffect e) msgs = true) by (apply existsb_hasEffect; eauto).
    congruence.
  - intros H. destruct (existsb (hasEffect e) msgs) eqn:E; [|reflexivity].
    apply existsb_hasEffect in E as [msg [I E]]. now apply H in I.
Qed.

Lemma determineBumpType_app_max (l1 l2 : list gostring) :
  determineBumpType (l1 ++ l2) = maxBump (determineBumpType l1) (determineBumpType l2).
Proof.
  rewrite !determineBumpType_spec, !existsb_app.
  destruct (existsb (hasEffect Breaks) l1), (existsb (hasEffect Breaks) l2),
    (existsb (hasEffect RaisesMinor) l1), (existsb (hasEffect RaisesMinor) l2),
    (existsb (hasEffect RaisesPatch) l1), (existsb (hasEffect RaisesPatch) l2);
    reflexivity.
Qed.

(** ** The entries of the release notes *)

Lemma appendNotes_noNotes_r (n : Notes) : appendNotes n noNotes = n.
Proof. destruct n. unfold appendNotes. simpl. now rewrite !app_nil_r. Qed.

Lemma appendNotes_noNotes_l (n : Notes) : appendNotes noNotes n = n.
Proof. now destruct n. Qed.

Lemma appendNotes_assoc (a b c : Notes) :
  appendNotes (appendNotes a b) c = appendNotes a (appendNotes b c).
Proof. unfold appendNotes. simpl. now rewrite <- !app_assoc. Qed.

Ltac notes_eq n :=
  destruct n;
  unfold appendNotes, addBreaking, addFeature, addBugFix, addOther, noNotes;
  cbn [breakingChanges features bugFixes otherChanges app];
  rewrite ?app_nil_r; reflexivity.

Lemma categorizeCommit_appendNotes (n : Notes) (msg : gostring) :
  categorizeCommit n msg = appendNotes n (categorizeCommit noNotes msg).
Proof.
  destruct (leftOut msg) eqn:L.
  { rewrite !categorizeCommit_leftOut by exact L.
    now rewrite appendNotes_noNotes_r. }
  destruct (FindStringSubmatch msg) as [m|] eqn:F.
  2:{ rewrite !categorizeCommit_unrecognized by assumption. notes_eq n. }
  destruct (isBreaking msg m) eqn:B.
  { rewrite !(categorizeCommit_breaking _ _ _ L F B). notes_eq n. }
  rewrite !(categorizeCommit_plain _ _ _ L F B).
  destruct (streq (sub_type m) (str "feat")); [notes_eq n|].
  destruct (streq (sub_type m) (str "fix")); [notes_eq n|].
  destruct (negb (streq (sub_type m) (str "docs")) && negb (streq (sub_type m) (str "style"))
            && negb (streq (sub_type m) (str "test")) && negb (streq (sub_type m) (str "chore")));
    [notes_eq n|].
  now rewrite appendNotes_noNotes_r.
Qed.

Lemma fold_categorizeCommit (msgs : list gostring) (n : Notes) :
  fold_left categorizeCommit msgs n = appendNotes n (categorize msgs).
Proof.
  unfold categorize. revert n. induction msgs as [|msg rest IH]; intros n.
  - simpl. now rewrite appendNotes_noNotes_r.
  - cbn [fold_left]. rewrite (IH (categorizeCommit n msg)).
    rewrite (IH (categorizeCommit noNotes msg)).
    rewrite (categorizeCommit_appendNotes n msg). apply appendNotes_assoc.
Qed.

Lemma countEntries_appendNotes (a b : Notes) :
  countEntries (appendNotes a b) = countEntries a + countEntries b.
Proof.
  unfold countEntries, appendNotes. simpl. rewrite !length_app. lia.
Qed.

Lemma countEntries_categorizeCommit (msg : gostring) :
  countEntries (categorizeCommit noNotes msg) <= (if leftOut msg then 0 else 1).
Proof.
  destruct (leftOut msg) eqn:L.
  { rewrite categorizeCommit_leftOut by exact L. reflexivity. }
  destruct (FindStringSubmatch msg) as [m|] eqn:F.
  2:{ rewrite categorizeCommit_unrecognized by assumption. reflexivity. }
  destruct (isBreaking msg m) eqn:B.
  { rewrite (categorizeCommit_breaking _ _ _ L F B). reflexivity. }
  rewrite (categorizeCommit_plain _ _ _ L F B).
  destruct (streq (sub_type m) (str "feat")); [reflexivity|].
  destruct (streq (sub_type m) (str "fix")); [reflexivity|].
  destruct (negb (streq (sub_type m) (str "docs")) && negb (streq (sub_type m) (str "style"))
            && negb (streq (sub_type m) (str "test")) && negb (streq (sub_type m) (str "chore")));
    [reflexivity|]. cbv. lia.
Qed.

(** ** Lines *)

Lemma firstLine_from (s cur : gostring) :
  ~ In LF cur -> ~ In LF (nth 0 (strings.splitFrom nl O cur s) []).
Proof.
  revert cur; induction s as [|c s IH]; intros cur H.
  - simpl. now rewrite <- in_rev.
  - cbn [strings.splitFrom].
    change (strings.HasPrefix (c :: s) nl) with ((c =? 10)%N && true).
    rewrite andb_true_r. destruct (c =? 10)%N eqn:E.
    + cbn [nth]. now rewrite <- in_rev.
    + apply IH. intros [->|I]; [discriminate E | auto].
Qed.

Lemma firstLine_no_LF (msg : gostring) : ~ In LF (firstLine msg).
Proof. apply firstLine_from. intros []. Qed.

Lemma dotRune_no_LF (s : gostring) :
  forallb dotRune s = true <-> ~ In LF s.
Proof.
  split.
  - intros H I. apply In_LF_not_dot in I. congruence.
  - intros H. apply forallb_forall. intros x I. unfold dotRune.
    apply negb_true_iff, N.eqb_neq. intros ->. auto.
Qed.

Lemma dropWhile_suffix (f : rune -> bool) (s : gostring) :
  exists a, s = a ++ strings.dropWhile f s.
Proof.
  induction s as [|c s [a IH]]; [now exists []|]. simpl.
  destruct (f c); [|now exists []]. exists (c :: a). simpl. now f_equal.
Qed.

Lemma TrimSpace_infix (s : gostring) :
  exists a b, s = a ++ strings.TrimSpace s ++ b.
Proof.
  unfold strings.TrimSpace, strings.TrimRight, strings.TrimLeft.
  destruct (dropWhile_suffix strings.IsSpace s) as [a Ha].
  destruct (dropWhile_suffix strings.IsSpace (rev (strings.dropWhile strings.IsSpace s)))
    as [b Hb].
  exists a, (rev b). rewrite <- rev_app_distr, <- Hb, rev_involutive. exact Ha.
Qed.

Lemma TrimSpace_no_LF (s : gostring) : ~ In LF s -> ~ In LF (strings.TrimSpace s).
Proof.
  intros H I. destruct (TrimSpace_infix s) as (a & b & E). apply H. rewrite E.
  apply in_or_app. right. apply in_or_app. now left.
Qed.

Lemma afterFirst_suffix (s sep rest : gostring) :
  strings.afterFirst s sep = Some rest -> exists a, s = a ++ rest.
Proof.
  induction s as [|c s IH]; simpl.
  - destruct (strings.HasPrefix [] sep) eqn:E; [|discriminate].
    intros [= <-]. exists []. destruct sep; [reflexivity | discriminate].
  - destruct (strings.HasPrefix (c :: s) sep) eqn:E.
    + intros [= <-]. exists (firstn (List.length sep) (c :: s)).
      now rewrite firstn_skipn.
    + intros H. destruct (IH H) as [a ->]. now exists (c :: a).
Qed.

(** The parts of a recognized message. *)
Lemma FindStringSubmatch_parts (s : gostring) (m : Submatch) :
  FindStringSubmatch s = Some m ->
  In (sub_type m) commitTypes
  /\ (sub_breaking m = [] \/ sub_breaking m = str "!")
  /\ forallb dotRune (sub_subject m) = true
  /\ exists group,
       s = sub_type m ++ group ++ sub_breaking m ++ str ": " ++ sub_subject m
       /\ (group = [] \/ group = str "("
           \/ (exists sc, forallb scopeRune sc = true
                          /\ group = str "(" ++ sc ++ str ")")).
Proof.
  intros F. apply FindStringSubmatch_Some in F as (ty & I & M).
  apply matchType_Some in M as (T & s' & -> & M). rewrite T.
  apply matchScope_sound in M as (group & -> & G & B & D).
  repeat split; auto. now exists group.
Qed.

Lemma In_commitTypes_no_LF (ty : gostring) : In ty commitTypes -> ~ In LF ty.
Proof.
  intros I. apply dotRune_no_LF. unfold commitTypes in I. simpl in I.
  repeat (destruct I as [<-|I]; [reflexivity|]). destruct I.
Qed.

(** ** White space, again *)

Lemma dropWhile_head (f : rune -> bool) (s : gostring) :
  match strings.dropWhile f s with
  | [] => True
  | c :: _ => f c = false
  end.
Proof.
  induction s as [|c s IH]; simpl; [exact I|].
  destruct (f c) eqn:E; [exact IH | exact E].
Qed.

Lemma dropWhile_idem (f : rune -> bool) (s : gostring) :
  strings.dropWhile f (strings.dropWhile f s) = strings.dropWhile f s.
Proof.
  pose proof (dropWhile_head f s) as H.
  destruct (strings.dropWhile f s) as [|c t]; [reflexivity|]. simpl. now rewrite H.
Qed.

Lemma TrimSpace_idem (s : gostring) :
  strings.TrimSpace (strings.TrimSpace s) = strings.TrimSpace s.
Proof.
  unfold strings.TrimSpace, strings.TrimRight, strings.TrimLeft.
  set (u := strings.dropWhile strings.IsSpace s).
  assert (L : strings.dropWhile strings.IsSpace
                (rev (strings.dropWhile strings.IsSpace (rev u)))
              = rev (strings.dropWhile strings.IsSpace (rev u))).
  { destruct (dropWhile_suffix strings.IsSpace (rev u)) as [w Hw].
    pose proof (dropWhile_head strings.IsSpace s) as Hu. fold u in Hu.
    assert (E : u = rev (strings.dropWhile strings.IsSpace (rev u)) ++ rev w).
    { rewrite <- rev_app_distr, <- Hw. now rewrite rev_involutive. }
    destruct (rev (strings.dropWhile strings.IsSpace (rev u))) as [|x t];
      [reflexivity|].
    rewrite E in Hu. simpl in Hu. simpl. now rewrite Hu. }
  rewrite L, rev_involutive, dropWhile_idem. reflexivity.
Qed.

(** A text that starts and ends with runes that are no white space is
    its own trimmed text. *)
Lemma TrimSpace_fixed (x y : rune) (mid : gostring) :
  strings.IsSpace x = false -> strings.IsSpace y = false ->
  strings.TrimSpace (x :: mid ++ [y]) = x :: mid ++ [y].
Proof.
  intros Hx Hy. rewrite (TrimSpace_cons _ _ Hx). f_equal.
  unfold strings.TrimRight. rewrite rev_app_distr. simpl. rewrite Hy.
  simpl. now rewrite rev_involutive.
Qed.

(** ** Empty lines *)

Lemma endsLF_snoc (p : gostring) (c : rune) : endsLF (p ++ [c]) = (c =? 10)%N.
Proof. unfold endsLF. now rewrite rev_app_distr. Qed.

Lemma endsLF_cons (a : rune) (p : gostring) :
  endsLF (a :: p) = match p with [] => (a =? 10)%N | _ => endsLF p end.
Proof.
  destruct p as [|b p]; [reflexivity|]. unfold endsLF. simpl.
  destruct (rev p ++ [b]) eqn:E; [now destruct (rev p)|]. reflexivity.
Qed.

Lemma HasPrefix_blank (s : gostring) :
  strings.HasPrefix s (nl ++ nl)
  = match s with
    | a :: b :: _ => (a =? 10)%N && (b =? 10)%N
    | _ => false
    end.
Proof.
  destruct s as [|a [|b s]]; simpl; rewrite ?andb_false_r, ?andb_true_r; reflexivity.
Qed.

Lemma Contains_snoc_blank (p : gostring) (c : rune) :
  strings.Contains (p ++ [c]) (nl ++ nl)
  = strings.Contains p (nl ++ nl) || (endsLF p && (c =? 10)%N).
Proof.
  induction p as [|a p IH].
  - simpl. now rewrite andb_false_r.
  - cbn [app strings.Contains]. rewrite IH, !HasPrefix_blank, endsLF_cons.
    destruct p as [|b p]; cbn [app].
    + simpl. rewrite !orb_false_r. reflexivity.
    + rewrite <- orb_assoc. reflexivity.
Qed.

Lemma splitFrom_blank (n : nat) (s cur : gostring) :
  List.length s <= n ->
  strings.Contains (rev cur) (nl ++ nl) = false ->
  endsLF (rev cur) && startsLF s = false ->
  Forall (fun p => strings.Contains p (nl ++ nl) = false)
    (strings.splitFrom (nl ++ nl) O cur s).
Proof.
  revert s cur; induction n as [|n IH]; intros s cur Hn Hc He.
  - destruct s; [|simpl in Hn; lia]. simpl. now constructor.
  - destruct s as [|c s]; [simpl; now constructor|].
    cbn [strings.splitFrom]. rewrite HasPrefix_blank.
    destruct s as [|b s].
    + simpl. constructor; [|constructor].
      rewrite Contains_snoc_blank, Hc. simpl in He. now rewrite He.
    + destruct ((c =? 10)%N && (b =? 10)%N) eqn:E.
      * change (List.length (nl ++ nl) - 1) with 1.
        cbn [strings.splitFrom]. constructor; [exact Hc|].
        apply IH; [simpl in Hn |- *; lia | reflexivity | reflexivity].
      * apply IH; [simpl in Hn |- *; lia | |].
        -- cbn [rev]. rewrite Contains_snoc_blank, Hc. simpl in He. now rewrite He.
        -- cbn [rev]. rewrite endsLF_snoc. exact E.
Qed.

Lemma Split_blank (s : gostring) :
  Forall (fun p => strings.Contains p (nl ++ nl) = false)
    (strings.Split s (nl ++ nl)).
Proof. apply (splitFrom_blank (List.length s)); auto. Qed.

Lemma Contains_infix (a s b sub : gostring) :
  strings.Contains (a ++ s ++ b) sub = false -> strings.Contains s sub = false.
Proof.
  intros H. destruct (strings.Contains s sub) eqn:E; [|reflexivity].
  apply Contains_iff in E as (x & y & ->).
  assert (strings.Contains (a ++ (x ++ sub ++ y) ++ b) sub = true); [|congruence].
  apply Contains_iff. exists (a ++ x), (y ++ b). now rewrite <- !app_assoc.
Qed.

(** ** Skip markers *)

Lemma Contains_map (f : rune -> rune) (s p : gostring) :
  strings.Contains (map f s) p = true
  <-> exists a w b, s = a ++ w ++ b /\ map f w = p.
Proof.
  rewrite Contains_iff. split.
  - intros (a' & b' & E). apply map_eq_app in E as (a & r & -> & <- & E).
    apply map_eq_app in E as (w & b & -> & <- & <-). now exists a, w, b.
  - intros (a & w & b & -> & <-). exists (map f a), (map f b).
    now rewrite !map_app.
Qed.

(** ** Occurrences at the two ends *)

Lemma Contains_foreign_prefix (x : rune) (w a s : gostring) :
  ~ In x a ->
  strings.Contains (a ++ s) (x :: w) = strings.Contains s (x :: w).
Proof.
  intros H. induction a as [|c a IH]; [reflexivity|].
  cbn [app strings.Contains]. rewrite HasPrefix_head.
  - apply IH. intros I. apply H. now right.
  - intros ->. apply H. now left.
Qed.

Lemma Contains_rev (s sub : gostring) :
  strings.Contains (rev s) (rev sub) = strings.Contains s sub.
Proof.
  destruct (strings.Contains s sub) eqn:E.
  - apply Contains_iff in E as (a & b & ->). apply Contains_iff.
    exists (rev b), (rev a). now rewrite !rev_app_distr, <- app_assoc.
  - destruct (strings.Contains (rev s) (rev sub)) eqn:E'; [|reflexivity].
    apply Contains_iff in E' as (a & b & E').
    assert (strings.Contains s sub = true); [|congruence].
    apply Contains_iff. exists (rev b), (rev a).
    rewrite <- (rev_involutive s), E', !rev_app_distr, rev_involutive.
    now rewrite <- app_assoc.
Qed.

Lemma Contains_foreign_suffix (y : rune) (w s b : gostring) :
  ~ In y b ->
  strings.Contains (s ++ b) (w ++ [y]) = strings.Contains s (w ++ [y]).
Proof.
  intros H. rewrite <- (Contains_rev (s ++ b)), <- (Contains_rev s).
  rewrite !rev_app_distr. cbn [rev app].
  apply Contains_foreign_prefix. now rewrite <- in_rev.
Qed.

(** ** The groups of a match *)

Lemma matchScope_exact (s scope b subject : gostring) :
  matchScope s = Some (scope, (b, subject)) ->
  (b = [] \/ b = str "!")
  /\ forallb dotRune subject = true
  /\ forallb scopeRune scope = true
  /\ (s = str "(" ++ scope ++ str ")" ++ b ++ str ": " ++ subject
      \/ (scope = []
          /\ (s = str "(" ++ b ++ str ": " ++ subject
              \/ s = b ++ str ": " ++ subject))).
Proof.
  assert (plain : forall t,
             option_map (pair ([] : gostring)) (matchBreaking t)
             = Some (scope, (b, subject)) ->
             (b = [] \/ b = str "!") /\ forallb dotRune subject = true
             /\ scope = [] /\ t = b ++ str ": " ++ subject).
  { intros t H. apply option_map_pair_Some in H as [-> H].
    apply matchBreaking_dot in H as [-> [F B]]. auto. }
  unfold matchScope.
  destruct (stripPrefix s (str "(")) as [s1|] eqn:E.
  - apply stripPrefix_Some in E. subst s.
    destruct (span scopeRune s1) as [sc s2] eqn:Sp.
    apply span_app in Sp as [-> Fsc].
    assert (rest : orElse (option_map (pair []) (matchBreaking (sc ++ s2)))
                     (option_map (pair []) (matchBreaking (str "(" ++ sc ++ s2)))
                   = Some (scope, (b, subject)) ->
                   (b = [] \/ b = str "!") /\ forallb dotRune subject = true
                   /\ scope = []
                   /\ (str "(" ++ sc ++ s2 = str "(" ++ b ++ str ": " ++ subject
                       \/ str "(" ++ sc ++ s2 = b ++ str ": " ++ subject)).
    { destruct (option_map (pair []) (matchBreaking (sc ++ s2))) as [o|] eqn:M2;
        cbn [orElse].
      - intros H. rewrite H in M2. apply plain in M2 as (B & F & -> & ->). auto.
      - intros H. apply plain in H as (B & F & -> & H). auto. }
    assert (fin : orElse (option_map (pair []) (matchBreaking (sc ++ s2)))
                    (option_map (pair []) (matchBreaking (str "(" ++ sc ++ s2)))
                  = Some (scope, (b, subject)) ->
                  (b = [] \/ b = str "!") /\ forallb dotRune subject = true
                  /\ forallb scopeRune scope = true
                  /\ (str "(" ++ sc ++ s2
                      = str "(" ++ scope ++ str ")" ++ b ++ str ": " ++ subject
                      \/ scope = []
                         /\ (str "(" ++ sc ++ s2 = str "(" ++ b ++ str ": " ++ subject
                             \/ str "(" ++ sc ++ s2 = b ++ str ": " ++ subject))).
    { intros H. apply rest in H as (B & F & -> & H).
      split; [exact B|]. split; [exact F|]. split; [reflexivity|]. right. auto. }
    destruct (stripPrefix s2 (str ")")) as [s3|] eqn:E3; [|exact fin].
    destruct (option_map (pair sc) (matchBreaking s3)) as [o|] eqn:M1;
      [|exact fin].
    cbn [orElse]. intros H. rewrite H in M1.
    apply option_map_pair_Some in M1 as [-> M1].
    apply stripPrefix_Some in E3. subst s2.
    apply matchBreaking_dot in M1 as [-> [F B]].
    split; [exact B|]. split; [exact F|]. split; [exact Fsc|]. left.
    reflexivity.
  - cbn [orElse]. intros H. apply plain in H as (B & F & -> & ->).
    split; [exact B|]. split; [exact F|]. split; [reflexivity|]. right. auto.
Qed.

Lemma matchScope_scoped (scope b subject : gostring) :
  forallb scopeRune scope = true ->
  b = [] \/ b = str "!" ->
  forallb dotRune subject = true ->
  matchScope (str "(" ++ scope ++ str ")" ++ b ++ str ": " ++ subject)
  = Some (scope, (b, subject)).
Proof.
  intros F B S. pose proof (matchBreaking_complete _ _ B S) as M.
  unfold matchScope.
  rewrite (proj2 (stripPrefix_Some _ _
                    (scope ++ str ")" ++ b ++ str ": " ++ subject)) eq_refl).
  change (str ")" ++ b ++ str ": " ++ subject)
    with (41%N :: b ++ str ": " ++ subject).
  rewrite (span_run scopeRune scope 41%N _ F eq_refl).
  change (41%N :: b ++ str ": " ++ subject)
    with (str ")" ++ b ++ str ": " ++ subject).
  rewrite (proj2 (stripPrefix_Some _ _ (b ++ str ": " ++ subject)) eq_refl).
  rewrite M. reflexivity.
Qed.

Lemma matchScope_bare (b subject : gostring) :
  b = [] \/ b = str "!" ->
  forallb dotRune subject = true ->
  matchScope (b ++ str ": " ++ subject) = Some ([], (b, subject)).
Proof.
  intros B S. pose proof (matchBreaking_complete _ _ B S) as M.
  unfold matchScope. rewrite M.
  destruct B as [-> | ->]; reflexivity.
Qed.

Lemma matchType_other (s ty : gostring) :
  strings.HasPrefix s ty = false -> matchType s ty = None.
Proof. intros H. unfold matchType, stripPrefix. now rewrite H. Qed.

Lemma matchType_this (ty rest : gostring) (r : gostring * (gostring * gostring)) :
  matchScope rest = Some r ->
  matchType (ty ++ rest) ty = Some (mkSubmatch ty (fst r) (fst (snd r)) (snd (snd r))).
Proof.
  intros M. unfold matchType.
  rewrite (proj2 (stripPrefix_Some _ _ rest) eq_refl), M.
  now destruct r as [sc [b sj]].
Qed.

(** No type of the pattern starts another, so the type of a match is
    the one the text starts with. *)
Lemma FindStringSubmatch_type (ty rest : gostring)
    (r : gostring * (gostring * gostring)) :
  In ty commitTypes ->
  matchScope rest = Some r ->
  FindStringSubmatch (ty ++ rest)
  = Some (mkSubmatch ty (fst r) (fst (snd r)) (snd (snd r))).
Proof.
  intros I M. pose proof (matchType_this ty rest r M) as T.
  unfold FindStringSubmatch, commitTypes in *. cbn [map fold_right In] in *.
  repeat (destruct I as [<-|I];
          [repeat match goal with
                  | |- orElse (matchType ?s ?t) _ = _ =>
                      first [ rewrite T; reflexivity
                            | rewrite (matchType_other s t) by reflexivity;
                              cbn [orElse] ]
                  end|]).
  destruct I.
Qed.

(** ** The commit of the changelog *)

Lemma changelogCommitMessage_shape (tagName : gostring) :
  changelogCommitMessage tagName
  = str "chore"
    ++ (str "(" ++ str "release" ++ str ")" ++ []
        ++ str ": " ++ (str "update changelog for " ++ tagName ++ str " [skip-ci]")).
Proof. reflexivity. Qed.

Lemma changelogCommitMessage_match (tagName : gostring) :
  ~ In LF tagName ->
  FindStringSubmatch (changelogCommitMessage tagName)
  = Some (mkSubmatch (str "chore") (str "release") []
            (str "update changelog for " ++ tagName ++ str " [skip-ci]")).
Proof.
  intros H. rewrite changelogCommitMessage_shape.
  rewrite (FindStringSubmatch_type (str "chore") _
             (str "release", ([], str "update changelog for " ++ tagName ++ str " [skip-ci]"))).
  - reflexivity.
  - simpl. tauto.
  - apply matchScope_scoped; [reflexivity | now left |].
    apply dotRune_no_LF. intros I.
    apply in_app_or in I as [I|I];
      [revert I; apply dotRune_no_LF; reflexivity|].
    apply in_app_or in I as [I|I]; [auto|].
    revert I; apply dotRune_no_LF; reflexivity.
Qed.

Lemma changelogCommitMessage_trimmed (tagName : gostring) :
  strings.TrimSpace (changelogCommitMessage tagName) = changelogCommitMessage tagName.
Proof.
  change (changelogCommitMessage tagName)
    with (99%N :: (str "hore(release): update changelog for " ++ tagName ++ str " [skip-ci]")).
  replace (str "hore(release): update changelog for " ++ tagName ++ str " [skip-ci]")
    with ((str "hore(release): update changelog for " ++ tagName ++ str " [skip-ci") ++ [93%N])
    by (now rewrite <- !app_assoc).
  now apply TrimSpace_fixed.
Qed.

Lemma changelogCommitMessage_skipped (tagName : gostring) :
  shouldSkipCI (changelogCommitMessage tagName) = true.
Proof.
  unfold shouldSkipCI, skipPatterns. cbn [map existsb].
  apply orb_true_iff. left. apply Contains_map.
  exists (str "chore(release): update changelog for " ++ tagName ++ str " "),
    (str "[skip-ci]"), [].
  split; [|reflexivity]. unfold changelogCommitMessage.
  now rewrite <- !app_assoc.
Qed.

Lemma forallb_not_In (x : rune) (s : gostring) :
  forallb (fun c => negb (c =? x)%N) s = true -> ~ In x s.
Proof.
  intros H I. rewrite forallb_forall in H. apply H in I.
  now rewrite N.eqb_refl in I.
Qed.

Lemma changelogCommitMessage_marker (tagName : gostring) :
  strings.Contains (changelogCommitMessage tagName) breakingMarker
  = strings.Contains tagName breakingMarker.
Proof.
  unfold changelogCommitMessage.
  change breakingMarker with (66%N :: str "REAKING CHANGE:") at 1.
  rewrite Contains_foreign_prefix by (apply forallb_not_In; reflexivity).
  change (66%N :: str "REAKING CHANGE:") with (str "BREAKING CHANGE" ++ [58%N]).
  rewrite Contains_foreign_suffix by (apply forallb_not_In; reflexivity).
  reflexivity.
Qed.

Lemma changelogCommitMessage_effect (tagName : gostring) :
  strings.Contains tagName breakingMarker = false ->
  effect (changelogCommitMessage tagName) = Skipped.
Proof.
  intros C. destruct (in_dec N.eq_dec LF tagName) as [I|NI].
  - apply effect_LF. rewrite changelogCommitMessage_trimmed.
    unfold changelogCommitMessage. apply in_or_app. right.
    apply in_or_app. now left.
  - rewrite (effect_recognized _ _
               (eq_trans (f_equal FindStringSubmatch (changelogCommitMessage_trimmed tagName))
                  (changelogCommitMessage_match tagName NI))).
    unfold isBreaking. cbn [sub_breaking sub_type streq negb orb].
    rewrite changelogCommitMessage_trimmed, changelogCommitMessage_marker, C.
    reflexivity.
Qed.

(** ** The lines of the entries *)

Lemma not_In_app (x : rune) (a b : gostring) :
  ~ In x a -> ~ In x b -> ~ In x (a ++ b).
Proof. intros A B I. apply in_app_or in I as [I|I]; auto. Qed.

Lemma str_no_LF (s : string) :
  forallb dotRune (str s) = true -> ~ In LF (str s).
Proof. apply dotRune_no_LF. Qed.

Lemma tidy_appendNotes (a b : Notes) :
  tidy a -> tidy b -> tidy (appendNotes a b).
Proof.
  intros (A1 & A2 & A3 & A4) (B1 & B2 & B3 & B4).
  unfold tidy, appendNotes. cbn [breakingChanges features bugFixes otherChanges].
  repeat split; apply Forall_app; auto.
Qed.

Lemma tidy_noNotes : tidy noNotes.
Proof. repeat split; constructor. Qed.

Lemma tidy_categorizeCommit (msg : gostring) : tidy (categorizeCommit noNotes msg).
Proof.
  destruct (leftOut msg) eqn:L.
  { rewrite categorizeCommit_leftOut by exact L. apply tidy_noNotes. }
  destruct (FindStringSubmatch msg) as [m|] eqn:F.
  2:{ rewrite categorizeCommit_unrecognized by assumption.
      repeat split; try constructor; [apply firstLine_no_LF | constructor]. }
  pose proof (FindStringSubmatch_no_LF _ _ F) as NL. apply dotRune_no_LF in NL.
  apply FindStringSubmatch_parts in F as FP.
  destruct FP as (T & _ & S & _). apply dotRune_no_LF in S.
  apply In_commitTypes_no_LF in T.
  destruct (isBreaking msg m) eqn:B.
  { rewrite (categorizeCommit_breaking _ _ _ L F B).
    repeat split; try constructor; [|constructor].
    unfold breakingEntry.
    destruct (strings.afterFirst msg breakingMarker) as [rest|] eqn:A.
    - exists (str "- **BREAKING CHANGE:** " ++ sub_subject m),
        (str "  " ++ strings.TrimSpace rest).
      split; [apply not_In_app; [now apply str_no_LF | exact S]|].
      split; [|right; now rewrite <- app_assoc].
      apply not_In_app; [now apply str_no_LF|]. apply TrimSpace_no_LF.
      apply afterFirst_suffix in A as [a ->]. intros I. apply NL.
      apply in_or_app. now right.
    - exists (str "- **BREAKING CHANGE:** " ++ sub_subject m), [].
      split; [apply not_In_app; [now apply str_no_LF | exact S]|].
      split; [intros [] | left; now rewrite app_nil_r]. }
  rewrite (categorizeCommit_plain _ _ _ L F B).
  destruct (streq (sub_type m) (str "feat")).
  { repeat split; try constructor; [|constructor].
    apply not_In_app; [now apply str_no_LF | exact S]. }
  destruct (streq (sub_type m) (str "fix")).
  { repeat split; try constructor; [|constructor].
    apply not_In_app; [now apply str_no_LF | exact S]. }
  destruct (negb (streq (sub_type m) (str "docs")) && negb (streq (sub_type m) (str "style"))
            && negb (streq (sub_type m) (str "test")) && negb (streq (sub_type m) (str "chore")));
    [|apply tidy_noNotes].
  repeat split; try constructor; [|constructor].
  apply not_In_app; [now apply str_no_LF|].
  apply not_In_app; [exact T|].
  apply not_In_app; [now apply str_no_LF | exact S].
Qed.

Lemma tidy_categorize (msgs : list gostring) : tidy (categorize msgs).
Proof.
  induction msgs as [|msg rest IH] using rev_ind; [apply tidy_noNotes|].
  rewrite categorize_snoc, categorizeCommit_appendNotes.
  apply tidy_appendNotes; [exact IH | apply tidy_categorizeCommit].
Qed.

(** ** The search for the highest pre-release tag *)

Lemma matchBranchPreReleaseHere_digits (sanitizedBranch s digits : gostring) :
  matchBranchPreReleaseHere sanitizedBranch s = Some digits ->
  strconv.allDigits digits = true.
Proof.
  unfold matchBranchPreReleaseHere, bindOpt.
  repeat match goal with
         | |- context [match stripPrefix ?x ?y with _ => _ end] =>
             destruct (stripPrefix x y); [|discriminate]
         | |- context [match digits1 ?x with _ => _ end] =>
             destruct (digits1 x); [|discriminate]
         end.
  match goal with
  | |- context [span strconv.isDigit ?x] =>
      destruct (span strconv.isDigit x) as [ds rest] eqn:Sp
  end.
  destruct ds as [|d ds]; [discriminate|]. destruct rest; [|discriminate].
  intros [= <-]. apply span_app in Sp as [_ F]. exact F.
Qed.

Lemma findBranchPreRelease_digits (sanitizedBranch tag digits : gostring) :
  findBranchPreRelease sanitizedBranch tag = Some digits ->
  strconv.allDigits digits = true.
Proof.
  induction tag as [|c tag IH]; cbn [findBranchPreRelease];
    destruct (matchBranchPreReleaseHere sanitizedBranch _) as [ds|] eqn:M;
    cbn [orElse]; try discriminate;
    try (intros [= <-]; exact (matchBranchPreReleaseHere_digits _ _ _ M)).
  exact IH.
Qed.

Lemma Atoi_digits (ds : gostring) (n : Z) :
  strconv.allDigits ds = true -> strconv.Atoi ds = Some n ->
  n = Z.of_N (strconv.digitsValue ds) /\ (0 <= n)%Z.
Proof.
  intros A. unfold strconv.Atoi.
  assert (S : match ds with
              | 43%N :: s' => (false, s')
              | 45%N :: s' => (true, s')
              | _ => (false, ds)
              end = (false, ds)).
  { destruct ds as [|d ds]; [reflexivity|].
    unfold strconv.allDigits in A. cbn [streq negb andb forallb] in A.
    apply andb_true_iff in A as [D _]. unfold strconv.isDigit in D.
    apply andb_true_iff in D as [D1 D2]. apply N.leb_le in D1, D2.
    destruct d as [|p]; [reflexivity|].
    do 6 (destruct p as [p|p|]; try reflexivity); lia. }
  rewrite S, A.
  destruct ((- 2 ^ 63 <=? Z.of_N (strconv.digitsValue ds))%Z
            && (Z.of_N (strconv.digitsValue ds) <? 2 ^ 63)%Z); [|discriminate].
  intros [= <-]. split; [reflexivity | lia].
Qed.

Lemma qualifies_nonneg (sanitizedBranch tag : gostring) (v : semver.Version) (num : Z) :
  qualifies sanitizedBranch tag v num -> (0 <= num)%Z.
Proof.
  intros (ds & F & A & _). apply findBranchPreRelease_digits in F.
  now apply (Atoi_digits _ _ F) in A.
Qed.

Lemma qualifies_functional (sanitizedBranch tag : gostring)
    (v v' : semver.Version) (num num' : Z) :
  qualifies sanitizedBranch tag v num -> qualifies sanitizedBranch tag v' num' ->
  v = v' /\ num = num'.
Proof.
  intros (ds & F & A & N) (ds' & F' & A' & N'). split; congruence.
Qed.

Lemma scanTag_cases (sanitizedBranch : gostring) (st : option semver.Version * Z)
    (tag : gostring) :
  (scanTag sanitizedBranch st tag = st
   /\ forall v num, qualifies sanitizedBranch tag v num -> (num <= snd st)%Z)
  \/ (exists v num, qualifies sanitizedBranch tag v num /\ (snd st < num)%Z
                    /\ scanTag sanitizedBranch st tag = (Some v, num)).
Proof.
  unfold scanTag.
  destruct (findBranchPreRelease sanitizedBranch tag) as [ds|] eqn:F.
  2:{ left. split; [reflexivity|]. intros v num (ds' & F' & _). congruence. }
  destruct (strconv.Atoi ds) as [num|] eqn:A.
  2:{ left. split; [reflexivity|]. intros v num (ds' & F' & A' & _). congruence. }
  destruct (semver.NewVersion (strings.TrimPrefix tag (str "v"))) as [v|] eqn:N.
  2:{ left. split; [reflexivity|]. intros v num' (ds' & F' & A' & N'). congruence. }
  destruct (num >? snd st)%Z eqn:G.
  - right. exists v, num. split; [now exists ds|].
    split; [|reflexivity]. apply Z.gtb_lt in G. lia.
  - left. split; [reflexivity|]. intros v' num' Q.
    destruct (qualifies_functional _ _ _ _ _ _ Q (ex_intro _ ds (conj F (conj A N))))
      as [_ ->].
    pose proof (Zgt_cases num (snd st)) as C. rewrite G in C. exact C.
Qed.

Lemma scan_spec (sanitizedBranch : gostring) (tags : list gostring)
    (h : option semver.Version) (num : Z) :
  fold_left (scanTag sanitizedBranch) tags (None, (-1)%Z) = (h, num) ->
  (forall tag v n, In tag tags -> qualifies sanitizedBranch tag v n ->
                   (n <= num)%Z /\ h <> None)
  /\ (forall v, h = Some v ->
                exists tag, In tag tags /\ qualifies sanitizedBranch tag v num)
  /\ (h = None -> num = (-1)%Z).
Proof.
  revert h num. induction tags as [|x tags IH] using rev_ind; intros h num.
  - simpl. intros [= <- <-]. repeat split; try discriminate; intros; contradiction.
  - rewrite fold_left_app. cbn [fold_left].
    destruct (fold_left (scanTag sanitizedBranch) tags (None, (-1)%Z)) as [h0 n0] eqn:E.
    destruct (IH h0 n0 eq_refl) as (I1 & I2 & I3).
    destruct (scanTag_cases sanitizedBranch (h0, n0) x)
      as [[S Q] | (v & n & Q & G & S)]; rewrite S; intros [= <- <-].
    + cbn [snd] in Q. repeat split.
      * apply in_app_or in H as [H|[<-|[]]]; [now apply (I1 _ _ _ H H0)|].
        now apply (Q v).
      * apply in_app_or in H as [H|[<-|[]]]; [now apply (I1 _ _ _ H H0)|].
        intros ->. specialize (I3 eq_refl). apply Q in H0 as L.
        apply qualifies_nonneg in H0. lia.
      * intros v ->. destruct (I2 v eq_refl) as (tag & I & Q').
        exists tag. split; [apply in_or_app; now left | exact Q'].
      * exact I3.
    + cbn [snd] in G. repeat split.
      * apply in_app_or in H as [H|[<-|[]]].
        -- apply (I1 _ _ _ H) in H0 as [L _]. lia.
        -- destruct (qualifies_functional _ _ _ _ _ _ Q H0) as [_ ->]. lia.
      * discriminate.
      * intros v' [= <-]. exists x. split; [apply in_or_app; right; now left | exact Q].
      * discriminate.
Qed.

(** ** The tags the program writes *)

Lemma digits1_number (n : N) (c : rune) (rest : gostring) :
  strconv.isDigit c = false ->
  digits1 (strconv.FormatUint n ++ c :: rest) = Some (c :: rest).
Proof.
  intros H. unfold digits1. rewrite (span_run _ _ _ _ (FormatUint_digits n) H).
  destruct (FormatUint_head n) as (d & ds & -> & _). reflexivity.
Qed.

Lemma matchBranchPreReleaseHere_created (sanitizedBranch : gostring) (ma mi pa n : N) :
  matchBranchPreReleaseHere sanitizedBranch
    (str "v" ++ strconv.FormatUint ma ++ str "." ++ strconv.FormatUint mi
     ++ str "." ++ strconv.FormatUint pa ++ str "-" ++ sanitizedBranch ++ str "."
     ++ strconv.FormatUint n)
  = Some (strconv.FormatUint n).
Proof.
  assert (D : forall s, stripPrefix (46%N :: s) (str ".") = Some s) by reflexivity.
  assert (H : forall s, stripPrefix (45%N :: s) (str "-") = Some s) by reflexivity.
  change (matchBranchPreReleaseHere sanitizedBranch
            (str "v" ++ strconv.FormatUint ma ++ 46%N :: strconv.FormatUint mi
             ++ 46%N :: strconv.FormatUint pa ++ 45%N :: sanitizedBranch
             ++ 46%N :: strconv.FormatUint n)
          = Some (strconv.FormatUint n)).
  unfold matchBranchPreReleaseHere.
  rewrite (proj2 (stripPrefix_Some _ (str "v") _) eq_refl). cbn [bindOpt].
  rewrite digits1_number by reflexivity. cbn [bindOpt]. rewrite D. cbn [bindOpt].
  rewrite digits1_number by reflexivity. cbn [bindOpt]. rewrite D. cbn [bindOpt].
  rewrite digits1_number by reflexivity. cbn [bindOpt]. rewrite H. cbn [bindOpt].
  rewrite (proj2 (stripPrefix_Some _ sanitizedBranch _) eq_refl). cbn [bindOpt].
  rewrite D. cbn [bindOpt].
  pose proof (span_stop _ _ [] (FormatUint_digits n) I) as Sp.
  rewrite app_nil_r in Sp. rewrite Sp.
  destruct (FormatUint_head n) as (d & ds & -> & _). reflexivity.
Qed.

Lemma String_prerelease (v : semver.Version) (sanitizedBranch : gostring) (n : N) :
  semver.pre v = sanitizedBranch ++ str "." ++ strconv.FormatUint n ->
  semver.metadata v = [] ->
  semver.String v
  = strconv.FormatUint (semver.major v) ++ str "." ++ strconv.FormatUint (semver.minor v)
    ++ str "." ++ strconv.FormatUint (semver.patch v) ++ str "-" ++ sanitizedBranch
    ++ str "." ++ strconv.FormatUint n.
Proof.
  intros P M. unfold semver.String. rewrite P, M. cbn [streq].
  assert (streq (sanitizedBranch ++ str "." ++ strconv.FormatUint n) [] = false) as ->
    by (now destruct sanitizedBranch).
  now rewrite app_nil_r.
Qed.

Lemma qualifies_created (v : semver.Version) (sanitizedBranch : gostring) (n : N) :
  wellFormed v = true ->
  semver.pre v = sanitizedBranch ++ str "." ++ strconv.FormatUint n ->
  semver.metadata v = [] ->
  (n < 2 ^ 63)%N ->
  qualifies sanitizedBranch (str "v" ++ semver.String v) v (Z.of_N n).
Proof.
  intros W P M B. exists (strconv.FormatUint n). split; [|split].
  - rewrite (String_prerelease _ _ _ P M).
    change (str "v" ++ ?x) with (118%N :: x). cbn [findBranchPreRelease].
    change (118%N :: ?x) with (str "v" ++ x).
    now rewrite matchBranchPreReleaseHere_created.
  - now apply Atoi_FormatUint.
  - change (strings.TrimPrefix (str "v" ++ semver.String v) (str "v"))
      with (semver.String v).
    now apply NewVersion_String.
Qed.

(** ** The branch name *)

Lemma sanitizeBranch_idem (branch : gostring) :
  sanitizeBranch (sanitizeBranch branch) = sanitizeBranch branch.
Proof.
  unfold sanitizeBranch. rewrite map_map. apply map_ext. intros r.
  destruct (semver.isLetter r || strconv.isDigit r || (r =? 45)%N) eqn:E.
  - now rewrite E.
  - reflexivity.
Qed.

Lemma sanitizeBranch_clean (branch : gostring) :
  forallb semver.isAllowed branch = true -> sanitizeBranch branch = branch.
Proof.
  intros H. unfold sanitizeBranch. rewrite <- (map_id branch) at 2.
  apply map_ext_in. intros r I. rewrite forallb_forall in H. apply H in I.
  unfold semver.isAllowed in I.
  destruct (semver.isLetter r), (strconv.isDigit r), (r =? 45)%N;
    try reflexivity; discriminate.
Qed.

(** ** The current release *)

Lemma firstRelease_spec (tags : list gostring) :
  (firstRelease tags = version000
   /\ forall tag v, In tag tags -> ~ releaseTag tag v)
  \/ (exists l1 tag l2,
         tags = l1 ++ tag :: l2
         /\ releaseTag tag (firstRelease tags)
         /\ forall t v, In t l1 -> ~ releaseTag t v).
Proof.
  induction tags as [|tag0 rest IH].
  - left. split; [reflexivity|]. intros tag v [].
  - cbn [firstRelease].
    assert (skip : (forall v, ~ releaseTag tag0 v) ->
                   (firstRelease rest = version000
                    /\ forall tag v, In tag (tag0 :: rest) -> ~ releaseTag tag v)
                   \/ (exists l1 tag l2,
                          tag0 :: rest = l1 ++ tag :: l2
                          /\ releaseTag tag (firstRelease rest)
                          /\ forall t v, In t l1 -> ~ releaseTag t v)).
    { intros NR. destruct IH as [[E A] | (l1 & tag & l2 & E & R & A)].
      - left. split; [exact E|]. intros tag v [<-|I]; [apply NR | now apply A].
      - right. exists (tag0 :: l1), tag, l2. split; [now rewrite E|].
        split; [exact R|]. intros t v [<-|I]; [apply NR | now apply A]. }
    destruct (strings.HasPrefix (strings.TrimSpace tag0) (str "v")) eqn:HP.
    2:{ apply skip. intros v (H & _). congruence. }
    destruct (semver.NewVersion _) as [v|] eqn:N.
    2:{ apply skip. intros v (_ & H & _). congruence. }
    destruct (streq (semver.Prerelease v) []) eqn:P.
    2:{ apply skip. intros v' (_ & H & P'). rewrite N in H. injection H as <-.
        apply streq_neq in P. now apply P. }
    right. exists [], tag0, rest. split; [reflexivity|].
    split; [|intros t v' []]. apply streq_eq in P. now split.
Qed.

(** ** The current version *)

Lemma currentVersionStep_cases
    (GreaterThan : semver.Version -> semver.Version -> bool)
    (latest : option semver.Version) (tag0 : gostring) :
  currentVersionStep GreaterThan latest tag0 = latest
  \/ (exists v,
         currentVersionStep GreaterThan latest tag0 = Some v
         /\ strings.HasPrefix (strings.TrimSpace tag0) (str "v") = true
         /\ semver.NewVersion (strings.TrimPrefix (strings.TrimSpace tag0) (str "v"))
            = Some v).
Proof.
  unfold currentVersionStep.
  destruct (strings.HasPrefix _ _) eqn:HP; [|now left].
  destruct (semver.NewVersion _) as [v|] eqn:N; [|now left].
  destruct latest as [l|].
  - destruct (GreaterThan v l); [|now left]. right. now exists v.
  - right. now exists v.
Qed.

Lemma currentVersion_fold
    (GreaterThan : semver.Version -> semver.Version -> bool)
    (tags : list gostring) :
  match fold_left (currentVersionStep GreaterThan) tags None with
  | Some v =>
      exists tag, In tag tags
        /\ strings.HasPrefix (strings.TrimSpace tag) (str "v") = true
        /\ semver.NewVersion (strings.TrimPrefix (strings.TrimSpace tag) (str "v"))
           = Some v
  | None =>
      forall tag, In tag tags ->
        strings.HasPrefix (strings.TrimSpace tag) (str "v") = true ->
        semver.NewVersion (strings.TrimPrefix (strings.TrimSpace tag) (str "v")) = None
  end.
Proof.
  induction tags as [|x tags IH] using rev_ind; [intros tag []|].
  rewrite fold_left_app. cbn [fold_left].
  destruct (currentVersionStep_cases GreaterThan
              (fold_left (currentVersionStep GreaterThan) tags None) x)
    as [E | (v & E & HP & N)]; rewrite E.
  - destruct (fold_left (currentVersionStep GreaterThan) tags None) as [v|].
    + destruct IH as (tag & I & H). exists tag. split; [apply in_or_app; now left | exact H].
    + intros tag I HP. apply in_app_or in I as [I|[<-|[]]]; [now apply IH|].
      unfold currentVersionStep in E. rewrite HP in E.
      destruct (semver.NewVersion _); [discriminate | reflexivity].
  - exists x. split; [apply in_or_app; right; now left | now split].
Qed.


(** ** The next pre-release *)

Lemma calculateNewVersion_next_base (allTags vTags : option (list gostring))
    (current highest : semver.Version) (num : Z) (bumpType branch : gostring) :
  highestBranchPreRelease (sanitizeBranch branch) allTags = (Some highest, num) ->
  calculateNewVersion allTags vTags current bumpType branch true
  = Some (semver.String
            (fst (semver.SetPrerelease (bumpedBaseOf bumpType highest)
                    (sanitizeBranch branch ++ str "."
                     ++ strconv.FormatInt (wrapInt64 (num + 1)))))).
Proof.
  intros H. unfold calculateNewVersion, bumpedBaseOf. cbn [negb]. rewrite H.
  apply highestBranchPreRelease_wellFormed in H.
  destruct (streq bumpType (str "major")); [reflexivity|].
  destruct (streq bumpType (str "minor")); [reflexivity|].
  destruct (streq bumpType (str "patch")); [reflexivity|].
  now rewrite (NewVersion_base _ H).
Qed.

(** ** The default branch *)

Lemma dropWhile_run (f : rune -> bool) (a b : gostring) :
  forallb f a = true -> strings.dropWhile f (a ++ b) = strings.dropWhile f b.
Proof.
  intros H. induction a as [|c a IH]; [reflexivity|].
  simpl in *. apply andb_true_iff in H as [H1 H2]. rewrite H1. now apply IH.
Qed.

Lemma dropWhile_stop (f : rune -> bool) (c : rune) (s : gostring) :
  f c = false -> strings.dropWhile f (c :: s) = c :: s.
Proof. intros H. simpl. now rewrite H. Qed.

Lemma matchHeadBranchHere_line (indent gap name rest : gostring) :
  forallb reSpace indent = true ->
  forallb reSpace gap = true ->
  name <> [] ->
  forallb (fun r => negb (reSpace r)) name = true ->
  match rest with [] => True | c :: _ => reSpace c = true end ->
  matchHeadBranchHere (indent ++ headBranchLabel ++ gap ++ name ++ rest) = Some name.
Proof.
  intros Hi G NE N R. unfold matchHeadBranchHere.
  rewrite (dropWhile_run _ _ _ Hi).
  change (strings.dropWhile reSpace (headBranchLabel ++ gap ++ name ++ rest))
    with (headBranchLabel ++ gap ++ name ++ rest).
  rewrite (proj2 (stripPrefix_Some _ _ (gap ++ name ++ rest)) eq_refl).
  cbn [bindOpt]. rewrite (dropWhile_run _ _ _ G).
  destruct name as [|x name]; [congruence|].
  simpl in N. apply andb_true_iff in N as [Nx N].
  cbn [app]. rewrite dropWhile_stop by now apply negb_true_iff.
  change (x :: name ++ rest) with ((x :: name) ++ rest).
  rewrite (span_stop (fun r => negb (reSpace r)) (x :: name) rest).
  - reflexivity.
  - simpl. now rewrite Nx, N.
  - destruct rest as [|c rest]; [exact I|]. now rewrite R.
Qed.

Lemma matchHeadBranchHere_Contains (s name : gostring) :
  matchHeadBranchHere s = Some name -> strings.Contains s headBranchLabel = true.
Proof.
  unfold matchHeadBranchHere.
  destruct (stripPrefix (strings.dropWhile reSpace s) headBranchLabel) as [s1|] eqn:E;
    [|discriminate].
  intros _. apply stripPrefix_Some in E.
  destruct (dropWhile_suffix reSpace s) as [a Ha]. rewrite E in Ha.
  apply Contains_iff. now exists a, s1.
Qed.

Lemma findHeadBranch_Contains (bol : bool) (s name : gostring) :
  findHeadBranch bol s = Some name -> strings.Contains s headBranchLabel = true.
Proof.
  revert bol; induction s as [|c s IH]; intros bol; cbn [findHeadBranch].
  - destruct bol; [|discriminate].
    destruct (matchHeadBranchHere []) eqn:M; [|discriminate].
    intros _. now apply matchHeadBranchHere_Contains in M.
  - destruct (if bol then matchHeadBranchHere (c :: s) else None) as [n|] eqn:M;
      cbn [orElse].
    + intros _. destruct bol; [|discriminate].
      now apply matchHeadBranchHere_Contains in M.
    + intros H. apply IH in H. cbn [strings.Contains]. rewrite H. apply orb_true_r.
Qed.

Lemma endsLF_In (p : gostring) : endsLF p = true -> In LF p.
Proof.
  unfold endsLF. intros H. apply in_rev.
  destruct (rev p) as [|c r]; [discriminate|]. apply N.eqb_eq in H. subst c. now left.
Qed.

Lemma endsLF_app (a b : gostring) : b <> [] -> endsLF (a ++ b) = endsLF b.
Proof.
  intros NE. unfold endsLF. rewrite rev_app_distr.
  destruct (rev b) as [|c r] eqn:E; [|reflexivity].
  apply (f_equal (@rev rune)) in E. rewrite rev_involutive in E. simpl in E. congruence.
Qed.

(** Before the first line that holds the label nothing matches, unless
    it is that line reached through white space. *)
Lemma matchHeadBranchHere_before (p1 p2 indent gap name rest : gostring) :
  strings.Contains (p1 ++ p2) headBranchLabel = false ->
  endsLF (p1 ++ p2) = true ->
  p2 <> [] ->
  forallb reSpace indent = true ->
  forallb reSpace gap = true ->
  name <> [] ->
  forallb (fun r => negb (reSpace r)) name = true ->
  match rest with [] => True | c :: _ => reSpace c = true end ->
  matchHeadBranchHere (p2 ++ indent ++ headBranchLabel ++ gap ++ name ++ rest) = None
  \/ matchHeadBranchHere (p2 ++ indent ++ headBranchLabel ++ gap ++ name ++ rest)
     = Some name.
Proof.
  intros C E NE I G NN N R.
  destruct (forallb reSpace p2) eqn:A.
  - right. rewrite app_assoc. apply matchHeadBranchHere_line; auto.
    rewrite forallb_app. now rewrite A, I.
  - left. unfold matchHeadBranchHere.
    destruct (stripPrefix _ headBranchLabel) as [s1|] eqn:S; [|reflexivity].
    exfalso. apply stripPrefix_Some in S.
    assert (X : exists w q, p2 = w ++ q /\ q <> []
                            /\ strings.dropWhile reSpace
                                 (p2 ++ indent ++ headBranchLabel ++ gap ++ name ++ rest)
                               = q ++ indent ++ headBranchLabel ++ gap ++ name ++ rest).
    { clear - A. induction p2 as [|c p2 IH]; [discriminate|].
      simpl in A. destruct (reSpace c) eqn:Rc.
      - simpl in A. destruct (IH A) as (w & q & -> & Q & D).
        exists (c :: w), q. split; [reflexivity|]. split; [exact Q|].
        simpl. now rewrite Rc.
      - exists [], (c :: p2). split; [reflexivity|]. split; [discriminate|].
        simpl. now rewrite Rc. }
    destruct X as (w & q & -> & Q & D). rewrite D in S.
    apply app_eq_app in S as (l & [[Hq _] | [Hl _]]).
    + assert (strings.Contains (p1 ++ w ++ q) headBranchLabel = true); [|congruence].
      apply Contains_iff. exists (p1 ++ w), l. rewrite Hq. now rewrite <- !app_assoc.
    + rewrite app_assoc, endsLF_app in E by exact Q.
      apply endsLF_In in E.
      assert (In LF headBranchLabel) as L by (rewrite Hl; apply in_or_app; now left).
      revert L. apply dotRune_no_LF. reflexivity.
Qed.

Lemma findHeadBranch_line (p1 p2 indent gap name rest : gostring) (bol : bool) :
  strings.Contains (p1 ++ p2) headBranchLabel = false ->
  (p1 ++ p2 = [] \/ endsLF (p1 ++ p2) = true) ->
  (p2 = [] -> bol = true) ->
  forallb reSpace indent = true ->
  forallb reSpace gap = true ->
  name <> [] ->
  forallb (fun r => negb (reSpace r)) name = true ->
  match rest with [] => True | c :: _ => reSpace c = true end ->
  findHeadBranch bol (p2 ++ indent ++ headBranchLabel ++ gap ++ name ++ rest) = Some name.
Proof.
  intros C E B I G NN N R. revert p1 bol C E B.
  induction p2 as [|c p2 IH]; intros p1 bol C E B.
  - rewrite (B eq_refl). cbn [app].
    assert (M : matchHeadBranchHere (indent ++ headBranchLabel ++ gap ++ name ++ rest)
                = Some name) by now apply matchHeadBranchHere_line.
    destruct (indent ++ headBranchLabel ++ gap ++ name ++ rest);
      cbn [findHeadBranch]; now rewrite M.
  - cbn [app findHeadBranch].
    assert (T : findHeadBranch (c =? LF)%N
                  (p2 ++ indent ++ headBranchLabel ++ gap ++ name ++ rest) = Some name).
    { apply (IH (p1 ++ [c])).
      - now rewrite <- app_assoc.
      - right. rewrite <- app_assoc. destruct E as [E|E]; [|exact E].
        now destruct p1.
      - intros ->. destruct E as [E|E]; [now destruct p1|].
        rewrite endsLF_snoc in E. exact E. }
    destruct bol; cbn [orElse]; [|now rewrite T].
    destruct E as [E|E]; [now destruct p1|].
    destruct (matchHeadBranchHere_before p1 (c :: p2) indent gap name rest)
      as [M|M]; auto; try discriminate;
      change ((c :: p2) ++ indent ++ headBranchLabel ++ gap ++ name ++ rest)
        with (c :: p2 ++ indent ++ headBranchLabel ++ gap ++ name ++ rest) in M;
      rewrite M; cbn [orElse]; [exact T | reflexivity].
Qed.

(** ** Texts without white space *)

Lemma TrimSpace_clean (s : gostring) :
  forallb notSpace s = true -> strings.TrimSpace s = s.
Proof.
  intros H.
  assert (D : forall t, forallb notSpace t = true ->
                        strings.dropWhile strings.IsSpace t = t).
  { intros [|c t] Ht; [reflexivity|]. simpl in *.
    apply andb_true_iff in Ht as [Hc _]. unfold notSpace in Hc.
    apply negb_true_iff in Hc. now rewrite Hc. }
  unfold strings.TrimSpace, strings.TrimRight, strings.TrimLeft.
  rewrite (D s H), D, rev_involutive; [reflexivity|].
  rewrite forallb_forall in *. intros x I. apply H. now apply in_rev.
Qed.

Lemma identRune_notSpace (r : rune) :
  semver.identRune r = true -> notSpace r = true.
Proof.
  unfold semver.identRune, semver.isAllowed, semver.isLetter, strconv.isDigit,
    notSpace, strings.IsSpace.
  intros H. apply negb_true_iff.
  repeat match goal with
         | |- (_ || _)%bool = false => apply orb_false_iff; split
         | |- (_ && _)%bool = false => apply andb_false_iff
         end;
    repeat match type of H with
           | (_ || _)%bool = true => apply orb_true_iff in H
           | _ => idtac
           end;
    rewrite ?orb_true_iff, ?andb_true_iff, ?N.leb_le, ?N.eqb_eq in H;
    rewrite ?N.eqb_neq, ?N.leb_gt; lia.
Qed.

Lemma digit_identRune (r : rune) :
  strconv.isDigit r = true -> semver.identRune r = true.
Proof.
  intros H. unfold semver.identRune. now rewrite (digit_allowed r H).
Qed.

Lemma String_notSpace (v : semver.Version) :
  wellFormed v = true -> forallb notSpace (semver.String v) = true.
Proof.
  intros W. rewrite String_shape.
  assert (F : forall n, forallb notSpace (strconv.FormatUint n) = true).
  { intros n. apply (forallb_weaken strconv.isDigit); [|apply FormatUint_digits].
    intros r H. now apply identRune_notSpace, digit_identRune. }
  assert (S : forallb notSpace (suffixOf v) = true).
  { unfold wellFormed in W.
    apply andb_true_iff in W as [W WM]. apply andb_true_iff in W as [_ WP].
    unfold suffixOf. rewrite forallb_app. apply andb_true_iff. split.
    - destruct (streq (semver.pre v) []); [reflexivity|]. simpl in WP.
      apply validatePrerelease_idents in WP as [WP _]. cbn [str app forallb].
      change (forallb notSpace (45%N :: semver.pre v) = true). cbn [forallb].
      apply andb_true_iff. split; [reflexivity|].
      revert WP. apply forallb_weaken, identRune_notSpace.
    - destruct (streq (semver.metadata v) []); [reflexivity|]. simpl in WM.
      apply validateMetadata_idents in WM as [WM _].
      change (forallb notSpace (43%N :: semver.metadata v) = true). cbn [forallb].
      apply andb_true_iff. split; [reflexivity|].
      revert WM. apply forallb_weaken, identRune_notSpace. }
  rewrite forallb_app, F. cbn [andb forallb].
  rewrite forallb_app, F. cbn [andb forallb].
  rewrite forallb_app, F, S. reflexivity.
Qed.

(** ** The bump and the sections *)

Lemma effect_trimmed (msg : gostring) :
  strings.TrimSpace msg = msg ->
  effect msg =
  if streq msg [] || strings.HasPrefix msg (str "Merge ") then Skipped
  else match FindStringSubmatch msg with
       | None => Skipped
       | Some matches =>
           if isBreaking msg matches then Breaks
           else if streq (sub_type matches) (str "feat") then RaisesMinor
           else if streq (sub_type matches) (str "fix") then RaisesPatch
           else Skipped
       end.
Proof. intros T. unfold effect. now rewrite T. Qed.

(** What one commit adds to the three sections that follow the bump. *)
Lemma categorizeCommit_counts (msg : gostring) :
  strings.TrimSpace msg = msg ->
  shouldSkipCI msg = false ->
  sectionCounts (categorizeCommit noNotes msg)
  = match effect msg with
    | Breaks => (1, 0, 0)
    | RaisesMinor => (0, 1, 0)
    | RaisesPatch => (0, 0, 1)
    | Skipped => (0, 0, 0)
    end.
Proof.
  intros T S. rewrite (effect_trimmed msg T).
  destruct (strings.HasPrefix msg (str "Merge ")) eqn:M.
  { rewrite orb_true_r. rewrite categorizeCommit_leftOut; [reflexivity|].
    unfold leftOut. now rewrite M, orb_true_r. }
  assert (L : leftOut msg = false) by (unfold leftOut; now rewrite S, M).
  rewrite orb_false_r.
  destruct (FindStringSubmatch msg) as [m|] eqn:F.
  2:{ rewrite (categorizeCommit_unrecognized _ _ L F).
      now destruct (streq msg []). }
  assert (streq msg [] = false) as ->.
  { apply FindStringSubmatch_startsLower in F. now apply startsLower_not_empty. }
  destruct (isBreaking msg m) eqn:B.
  { now rewrite (categorizeCommit_breaking _ _ _ L F B). }
  rewrite (categorizeCommit_plain _ _ _ L F B).
  destruct (streq (sub_type m) (str "feat")); [reflexivity|].
  destruct (streq (sub_type m) (str "fix")); [reflexivity|].
  now destruct (negb (streq (sub_type m) (str "docs"))
                && negb (streq (sub_type m) (str "style"))
                && negb (streq (sub_type m) (str "test"))
                && negb (streq (sub_type m) (str "chore"))).
Qed.

Lemma sectionCounts_appendNotes (a b : Notes) :
  sectionCounts (appendNotes a b)
  = (fst (fst (sectionCounts a)) + fst (fst (sectionCounts b)),
     snd (fst (sectionCounts a)) + snd (fst (sectionCounts b)),
     snd (sectionCounts a) + snd (sectionCounts b)).
Proof.
  unfold sectionCounts, appendNotes. cbn [breakingChanges features bugFixes fst snd].
  now rewrite !length_app.
Qed.

Lemma countEffect_snoc (e : Effect) (msgs : list gostring) (msg : gostring) :
  countEffect e (msgs ++ [msg])
  = countEffect e msgs + (if hasEffect e msg then 1 else 0).
Proof.
  unfold countEffect. rewrite filter_app, length_app. cbn [filter].
  now destruct (hasEffect e msg).
Qed.

Lemma categorize_counts (msgs : list gostring) :
  (forall msg, In msg msgs ->
               strings.TrimSpace msg = msg /\ shouldSkipCI msg = false) ->
  sectionCounts (categorize msgs)
  = (countEffect Breaks msgs, countEffect RaisesMinor msgs,
     countEffect RaisesPatch msgs).
Proof.
  induction msgs as [|msg rest IH] using rev_ind; intros H; [reflexivity|].
  rewrite categorize_snoc, categorizeCommit_appendNotes, sectionCounts_appendNotes.
  rewrite IH by (intros m I; apply H, in_or_app; now left).
  destruct (H msg) as [T S]; [apply in_or_app; right; now left|].
  rewrite (categorizeCommit_counts msg T S), !countEffect_snoc.
  unfold hasEffect. cbn [fst snd]. destruct (effect msg); reflexivity.
Qed.

Lemma countEffect_existsb (e : Effect) (msgs : list gostring) :
  existsb (hasEffect e) msgs = negb (countEffect e msgs =? 0).
Proof.
  unfold countEffect. induction msgs as [|msg rest IH]; [reflexivity|].
  cbn [existsb filter]. destruct (hasEffect e msg); [reflexivity | exact IH].
Qed.

Lemma length_zero_iff (A : Type) (l : list A) : (List.length l =? 0) = true <-> l = [].
Proof. destruct l; simpl; split; congruence. Qed.

(** ** The highest version *)

Section Highest.

Variable GreaterThan : semver.Version -> semver.Version -> bool.

Hypothesis GreaterThan_irreflexive :
  forall a, wellFormed a = true -> GreaterThan a a = false.

Hypothesis GreaterThan_transitive :
  forall a b c,
    wellFormed a = true -> wellFormed b = true -> wellFormed c = true ->
    GreaterThan a b = true -> GreaterThan b c = true -> GreaterThan a c = true.

Lemma currentVersion_fold_highest (tags : list gostring) (latest : semver.Version) :
  fold_left (currentVersionStep GreaterThan) tags None = Some latest ->
  wellFormed latest = true
  /\ forall tag w,
       In tag tags -> versionTag tag w -> GreaterThan w latest = false.
Proof.
  revert latest. induction tags as [|x tags IH] using rev_ind; intros latest;
    [discriminate|].
  rewrite fold_left_app. cbn [fold_left].
  pose proof (currentVersion_fold GreaterThan tags) as N.
  destruct (fold_left (currentVersionStep GreaterThan) tags None) as [l|] eqn:E.
  - destruct (IH l eq_refl) as [Wl Hl]. unfold currentVersionStep.
    destruct (strings.HasPrefix (strings.TrimSpace x) (str "v")) eqn:HP.
    2:{ intros [= <-]. split; [exact Wl|]. intros tag w I V.
        apply in_app_or in I as [I|[<-|[]]]; [now apply (Hl tag)|].
        destruct V as [V _]. congruence. }
    destruct (semver.NewVersion _) as [v|] eqn:P.
    2:{ intros [= <-]. split; [exact Wl|]. intros tag w I V.
        apply in_app_or in I as [I|[<-|[]]]; [now apply (Hl tag)|].
        destruct V as [_ V]. congruence. }
    pose proof (NewVersion_wellFormed _ _ P) as Wv.
    destruct (GreaterThan v l) eqn:G; intros [= <-].
    + split; [exact Wv|]. intros tag w I V.
      apply in_app_or in I as [I|[<-|[]]].
      * destruct (GreaterThan w v) eqn:G'; [|reflexivity].
        assert (Ww : wellFormed w = true)
          by (destruct V as [_ V]; exact (NewVersion_wellFormed _ _ V)).
        rewrite <- (Hl tag w I V). symmetry.
        now apply (GreaterThan_transitive w v l).
      * destruct V as [_ V]. rewrite P in V. injection V as <-.
        now apply GreaterThan_irreflexive.
    + split; [exact Wl|]. intros tag w I V.
      apply in_app_or in I as [I|[<-|[]]]; [now apply (Hl tag)|].
      destruct V as [_ V]. rewrite P in V. now injection V as <-.
  - unfold currentVersionStep.
    destruct (strings.HasPrefix (strings.TrimSpace x) (str "v")) eqn:HP;
      [|discriminate].
    destruct (semver.NewVersion _) as [v|] eqn:P; [|discriminate].
    intros [= <-]. pose proof (NewVersion_wellFormed _ _ P) as Wv.
    split; [exact Wv|]. intros tag w I V.
    apply in_app_or in I as [I|[<-|[]]].
    + destruct V as [V1 V2]. rewrite (N tag I V1) in V2. discriminate.
    + destruct V as [_ V]. rewrite P in V. injection V as <-.
      now apply GreaterThan_irreflexive.
Qed.

End Highest.

(** ** The tag of a version among other tags *)

Lemma versionTag_created (v : semver.Version) :
  wellFormed v = true -> versionTag (str "v" ++ semver.String v) v.
Proof.
  intros W. unfold versionTag.
  rewrite TrimSpace_clean
    by (change (str "v" ++ semver.String v) with (118%N :: semver.String v);
        cbn [forallb]; now rewrite (String_notSpace v W)).
  split; [reflexivity|].
  change (strings.TrimPrefix (str "v" ++ semver.String v) (str "v"))
    with (semver.String v).
  exact (NewVersion_String v W).
Qed.

Section Top.

Variable GreaterThan : semver.Version -> semver.Version -> bool.
Variable v : semver.Version.
Variable tags : list gostring.

(** Every version of a listed tag is [v], or lower than [v]. *)
Hypothesis v_top :
  forall tag w, In tag tags -> versionTag tag w ->
                w = v \/ (GreaterThan v w = true /\ GreaterThan w v = false).

Lemma currentVersionStep_top (l : list gostring) :
  incl l tags ->
  fold_left (currentVersionStep GreaterThan) l (Some v) = Some v.
Proof.
  induction l as [|t l IH]; [reflexivity|]. intros Hi. cbn [fold_left].
  assert (E : currentVersionStep GreaterThan (Some v) t = Some v).
  { unfold currentVersionStep.
    destruct (strings.HasPrefix (strings.TrimSpace t) (str "v")) eqn:HP;
      [|reflexivity].
    destruct (semver.NewVersion _) as [w|] eqn:P; [|reflexivity].
    destruct (v_top t w (Hi t (or_introl eq_refl)) (conj HP P)) as [-> | [_ G]].
    - now destruct (GreaterThan v v).
    - now rewrite G. }
  rewrite E. apply IH. intros x Hx. apply Hi. now right.
Qed.

Lemma currentVersion_fold_top (l : list gostring) (latest : option semver.Version) :
  incl l tags ->
  (exists t, In t l /\ versionTag t v) ->
  match latest with
  | None => True
  | Some w => w = v \/ GreaterThan v w = true
  end ->
  fold_left (currentVersionStep GreaterThan) l latest = Some v.
Proof.
  revert latest. induction l as [|t l IH]; intros latest Hi (c & Hc & Vc) L;
    [contradiction|].
  cbn [fold_left].
  assert (Hl : incl l tags) by (intros x Hx; apply Hi; now right).
  destruct Hc as [-> | Hc].
  - assert (E : currentVersionStep GreaterThan latest c = Some v).
    { unfold currentVersionStep. destruct Vc as [HP P]. rewrite HP, P.
      destruct latest as [w|]; [|reflexivity].
      destruct L as [-> | G]; [now destruct (GreaterThan v v) | now rewrite G]. }
    rewrite E. now apply currentVersionStep_top.
  - apply IH; [exact Hl | now exists c |].
    unfold currentVersionStep.
    destruct (strings.HasPrefix (strings.TrimSpace t) (str "v")) eqn:HP;
      [|exact L].
    destruct (semver.NewVersion _) as [w|] eqn:P; [|exact L].
    assert (T : w = v \/ GreaterThan v w = true).
    { destruct (v_top t w (Hi t (or_introl eq_refl)) (conj HP P)) as [-> | [G _]];
        [now left | now right]. }
    destruct latest as [l0|]; [|exact T].
    destruct (GreaterThan w l0); [exact T | exact L].
Qed.

End Top.

(** * Further properties of the program *)

(** ** The grammar and the validation of a message *)

(** Property X1 ([validateCommitMessage]): a message is accepted exactly
    when it starts with [Merge ] or is a text of [commitPattern]: one of
    the eleven types, then nothing, an open parenthesis or a scope in
    parentheses, an optional exclamation mark, a colon, a space and a
    subject without line feed up to the end.  An accepted message comes
    with the empty text, a refused one with the text formatted from its
    trimmed form. *)
Theorem validateCommitMessage_accepts (message : gostring) :
  (fst (validateCommitMessage message) = true
   <-> strings.HasPrefix message (str "Merge ") = true \/ InPattern message)
  /\ (validateCommitMessage message = (true, [])
      \/ validateCommitMessage message
         = (false, invalidFormatMessage (strings.TrimSpace message))).
Proof.
  unfold validateCommitMessage.
  destruct (strings.HasPrefix message (str "Merge ")) eqn:M.
  { split; [|now left]. split; auto. }
  destruct (MatchString message) eqn:P; cbn [negb fst].
  - split; [|now left]. split; [|reflexivity].
    intros _. right. now apply MatchString_InPattern.
  - split; [|now right]. split; [discriminate|].
    intros [H|H]; [discriminate|]. apply MatchString_InPattern in H. congruence.
Qed.

(** Property X2 ([commitPattern]): the groups of a match are parts of
    the message.  The type is one of the eleven types, the scope holds
    no parenthesis and no line break, the breaking group is empty or an
    exclamation mark, the subject holds no line feed, and the message is
    the type, the scope in parentheses, the breaking group, a colon, a
    space and the subject; or the scope is empty and the message has a
    lone open parenthesis or nothing in its place. *)
Theorem FindStringSubmatch_groups (s : gostring) (m : Submatch) :
  FindStringSubmatch s = Some m ->
  In (sub_type m) commitTypes
  /\ forallb scopeRune (sub_scope m) = true
  /\ (sub_breaking m = [] \/ sub_breaking m = str "!")
  /\ ~ In LF (sub_subject m)
  /\ (s = sub_type m ++ str "(" ++ sub_scope m ++ str ")" ++ sub_breaking m
          ++ str ": " ++ sub_subject m
      \/ (sub_scope m = []
          /\ (s = sub_type m ++ str "(" ++ sub_breaking m ++ str ": " ++ sub_subject m
              \/ s = sub_type m ++ sub_breaking m ++ str ": " ++ sub_subject m))).
Proof.
  intros F. apply FindStringSubmatch_Some in F as (ty & I & M).
  apply matchType_Some in M as (T & s' & -> & M). rewrite T.
  apply matchScope_exact in M as (B & D & Sc & E).
  split; [exact I|]. split; [exact Sc|]. split; [exact B|].
  split; [now apply dotRune_no_LF|].
  destruct E as [-> | [E [-> | ->]]]; [now left | right; auto ..].
Qed.

Lemma FindStringSubmatch_groups_witness :
  In (str "feat") commitTypes
  /\ forallb scopeRune (str "api") = true
  /\ (str "!" = [] \/ str "!" = str "!")
  /\ ~ In LF (str "add x")
  /\ (str "feat(api)!: add x"
      = str "feat" ++ str "(" ++ str "api" ++ str ")" ++ str "!" ++ str ": " ++ str "add x"
      \/ (str "api" = []
          /\ (str "feat(api)!: add x"
              = str "feat" ++ str "(" ++ str "!" ++ str ": " ++ str "add x"
              \/ str "feat(api)!: add x" = str "feat" ++ str "!" ++ str ": " ++ str "add x"))).
Proof.
  exact (FindStringSubmatch_groups (str "feat(api)!: add x")
           (mkSubmatch (str "feat") (str "api") (str "!") (str "add x")) eq_refl).
Defined.

(** Property X3 ([commitPattern]): a type of the list, a scope without
    parenthesis or line break in parentheses, an optional exclamation
    mark, a colon, a space and a subject without line feed make a
    message that is recognized with exactly these groups; the same holds
    without the scope, the scope group being empty then. *)
Theorem FindStringSubmatch_recognizes (ty scope breaking subject : gostring) :
  In ty commitTypes ->
  forallb scopeRune scope = true ->
  breaking = [] \/ breaking = str "!" ->
  ~ In LF subject ->
  FindStringSubmatch
    (ty ++ str "(" ++ scope ++ str ")" ++ breaking ++ str ": " ++ subject)
  = Some (mkSubmatch ty scope breaking subject)
  /\ FindStringSubmatch (ty ++ breaking ++ str ": " ++ subject)
     = Some (mkSubmatch ty [] breaking subject).
Proof.
  intros I Sc B S. apply dotRune_no_LF in S. split.
  - exact (FindStringSubmatch_type ty _ (scope, (breaking, subject)) I
             (matchScope_scoped scope breaking subject Sc B S)).
  - exact (FindStringSubmatch_type ty _ ([], (breaking, subject)) I
             (matchScope_bare breaking subject B S)).
Qed.

Lemma FindStringSubmatch_recognizes_witness :
  FindStringSubmatch (str "fix" ++ str "(" ++ str "core" ++ str ")" ++ [] ++ str ": " ++ str "y")
  = Some (mkSubmatch (str "fix") (str "core") [] (str "y"))
  /\ FindStringSubmatch (str "fix" ++ [] ++ str ": " ++ str "y")
     = Some (mkSubmatch (str "fix") [] [] (str "y")).
Proof.
  apply (FindStringSubmatch_recognizes (str "fix") (str "core") [] (str "y")).
  - simpl. tauto.
  - reflexivity.
  - now left.
  - intros H. simpl in H. repeat destruct H as [H|H]; discriminate || exact H.
Defined.

(** ** The bump type *)

(** Property X4 ([determineBumpType]): the result is the highest effect
    found in the list.  It is [major] exactly when some message breaks;
    [minor] exactly when none breaks and some is a feat; [patch] exactly
    when none breaks, none is a feat and some is a fix; [none] exactly
    when every message is passed over.  No other result exists. *)
Theorem determineBumpType_highest_effect (commitMsgs : list gostring) :
  (determineBumpType commitMsgs = str "major"
   <-> exists msg, In msg commitMsgs /\ effect msg = Breaks)
  /\ (determineBumpType commitMsgs = str "minor"
      <-> (forall msg, In msg commitMsgs -> effect msg <> Breaks)
          /\ exists msg, In msg commitMsgs /\ effect msg = RaisesMinor)
  /\ (determineBumpType commitMsgs = str "patch"
      <-> (forall msg, In msg commitMsgs -> effect msg <> Breaks)
          /\ (forall msg, In msg commitMsgs -> effect msg <> RaisesMinor)
          /\ exists msg, In msg commitMsgs /\ effect msg = RaisesPatch)
  /\ (determineBumpType commitMsgs = str "none"
      <-> forall msg, In msg commitMsgs -> effect msg = Skipped)
  /\ In (determineBumpType commitMsgs)
       [str "none"; str "patch"; str "minor"; str "major"].
Proof.
  rewrite determineBumpType_spec.
  rewrite <- !existsb_hasEffect, <- !existsb_hasEffect_false.
  assert (N : existsb (hasEffect Breaks) commitMsgs = false ->
              existsb (hasEffect RaisesMinor) commitMsgs = false ->
              existsb (hasEffect RaisesPatch) commitMsgs = false ->
              forall msg, In msg commitMsgs -> effect msg = Skipped).
  { intros B M P msg I.
    rewrite existsb_hasEffect_false in B, M, P.
    specialize (B msg I). specialize (M msg I). specialize (P msg I).
    now destruct (effect msg). }
  assert (S : (forall msg, In msg commitMsgs -> effect msg = Skipped) ->
              existsb (hasEffect Breaks) commitMsgs = false
              /\ existsb (hasEffect RaisesMinor) commitMsgs = false
              /\ existsb (hasEffect RaisesPatch) commitMsgs = false).
  { intros H. repeat split; apply existsb_hasEffect_false; intros msg I E;
      rewrite (H msg I) in E; discriminate. }
  destruct (existsb (hasEffect Breaks) commitMsgs) eqn:B;
    destruct (existsb (hasEffect RaisesMinor) commitMsgs) eqn:M;
    destruct (existsb (hasEffect RaisesPatch) commitMsgs) eqn:P;
    (split; [split; (reflexivity || discriminate || (intros ?; discriminate))|]);
    (split; [split; [try discriminate; auto | intros [? ?]; (reflexivity || discriminate)]|]);
    (split; [split; [try discriminate; auto
                    | intros (? & ? & ?); (reflexivity || discriminate)]|]);
    (split; [split; [try discriminate; intros _; now apply N
                    | intros H; apply S in H as (? & ? & ?);
                      (reflexivity || discriminate)]|]);
    simpl; tauto.
Qed.

(** Property X5 ([determineBumpType]): the bump of two lists put one
    after the other is the higher of their bumps, in the order none,
    patch, minor, major; so more commits never lower the bump. *)
Theorem determineBumpType_app (l1 l2 : list gostring) :
  determineBumpType (l1 ++ l2) = maxBump (determineBumpType l1) (determineBumpType l2)
  /\ bumpRank (determineBumpType l1) <= bumpRank (determineBumpType (l1 ++ l2))
  /\ bumpRank (determineBumpType l2) <= bumpRank (determineBumpType (l1 ++ l2)).
Proof.
  rewrite determineBumpType_app_max. split; [reflexivity|].
  unfold maxBump.
  destruct (bumpRank (determineBumpType l1) <? bumpRank (determineBumpType l2)) eqn:E.
  - apply Nat.ltb_lt in E. lia.
  - apply Nat.ltb_ge in E. lia.
Qed.

(** Property X6 ([getCommitMessagesBetweenRefs]): every message the
    function returns is not empty, has no white space at its ends, and
    holds no empty line: the output of [git log] is cut at every empty
    line, so the body of a commit is a message of its own. *)
Theorem getCommitMessagesBetweenRefs_messages
    (out : gostring) (commitMsgs : list gostring) (msg : gostring) :
  getCommitMessagesBetweenRefs (Some out) = Some commitMsgs ->
  In msg commitMsgs ->
  msg <> [] /\ strings.TrimSpace msg = msg
  /\ strings.Contains msg (nl ++ nl) = false.
Proof.
  cbn [getCommitMessagesBetweenRefs]. intros [= <-] I.
  apply filter_In in I as [I NE]. apply in_map_iff in I as (piece & <- & I).
  split; [now apply streq_neq, negb_true_iff|].
  split; [apply TrimSpace_idem|].
  pose proof (Split_blank out) as F. rewrite Forall_forall in F.
  specialize (F piece I). destruct (TrimSpace_infix piece) as (a & b & E).
  rewrite E in F. now apply Contains_infix in F.
Qed.

Lemma getCommitMessagesBetweenRefs_messages_witness :
  str "BREAKING CHANGE: b" <> []
  /\ strings.TrimSpace (str "BREAKING CHANGE: b") = str "BREAKING CHANGE: b"
  /\ strings.Contains (str "BREAKING CHANGE: b") (nl ++ nl) = false.
Proof.
  apply (getCommitMessagesBetweenRefs_messages
           (str "feat: a" ++ nl ++ nl ++ str "BREAKING CHANGE: b" ++ nl ++ nl)
           [str "feat: a"; str "BREAKING CHANGE: b"]).
  - reflexivity.
  - right. left. reflexivity.
Defined.

(** ** Skip markers and the commit of the changelog *)

(** Property X7 ([shouldSkipCI]): the answer is true exactly when some
    part of the message, its letters put in lower case, is one of the
    three patterns; so the markers count in any case of letters and
    anywhere in the message. *)
Theorem shouldSkipCI_iff (commitMsg : gostring) :
  shouldSkipCI commitMsg = true
  <-> exists a w b pattern,
        commitMsg = a ++ w ++ b /\ In pattern skipPatterns
        /\ strings.ToLower w = pattern.
Proof.
  unfold shouldSkipCI. rewrite existsb_exists. split.
  - intros (pattern & I & C). apply Contains_map in C as (a & w & b & E & L).
    now exists a, w, b, pattern.
  - intros (a & w & b & pattern & E & I & L). exists pattern. split; [exact I|].
    apply Contains_map. now exists a, w, b.
Qed.

(** Property X8 ([addAndCommitChangelog]): the commit the program makes
    for the changelog does not count in a later run.  For every tag
    name its message holds a skip marker, so the changelog loop leaves
    it out; for a tag name without line feed [validateCommitMessage]
    accepts it, as a chore of scope release; and for a tag name that
    does not hold the breaking marker [determineBumpType] passes over
    it. *)
Theorem changelog_commit_inert (tagName : gostring) :
  shouldSkipCI (changelogCommitMessage tagName) = true
  /\ (forall n : Notes, categorizeCommit n (changelogCommitMessage tagName) = n)
  /\ (~ In LF tagName ->
      validateCommitMessage (changelogCommitMessage tagName) = (true, [])
      /\ FindStringSubmatch (changelogCommitMessage tagName)
         = Some (mkSubmatch (str "chore") (str "release") []
                   (str "update changelog for " ++ tagName ++ str " [skip-ci]")))
  /\ (strings.Contains tagName breakingMarker = false ->
      forall (bumpType : gostring) (rest : list gostring),
        determineBumpTypeFrom bumpType (changelogCommitMessage tagName :: rest)
        = determineBumpTypeFrom bumpType rest).
Proof.
  split; [apply changelogCommitMessage_skipped|].
  split.
  { intros n. apply categorizeCommit_leftOut. unfold leftOut.
    now rewrite changelogCommitMessage_skipped. }
  split.
  - intros NL. pose proof (changelogCommitMessage_match tagName NL) as M.
    split; [|exact M]. unfold validateCommitMessage, MatchString. rewrite M.
    reflexivity.
  - intros C bumpType rest. rewrite determineBumpTypeFrom_cons.
    now rewrite (changelogCommitMessage_effect tagName C).
Qed.

Lemma changelog_commit_inert_witness :
  validateCommitMessage (changelogCommitMessage (str "v1.3.0")) = (true, [])
  /\ determineBumpTypeFrom (str "none")
       [changelogCommitMessage (str "v1.3.0"); str "fix: a"]
     = determineBumpTypeFrom (str "none") [str "fix: a"].
Proof.
  pose proof (changelog_commit_inert (str "v1.3.0")) as (_ & _ & V & D).
  split.
  - apply V. intros H. simpl in H. repeat destruct H as [H|H]; discriminate || exact H.
  - apply D. reflexivity.
Defined.

(** ** The release notes *)

(** Property X9 ([generateReleaseNotes]): the categorising loop works
    commit by commit: the entries of two lists of commits put one after
    the other are, slice by slice, the entries of the first list
    followed by those of the second. *)
Theorem categorize_app (l1 l2 : list gostring) :
  categorize (l1 ++ l2) = appendNotes (categorize l1) (categorize l2).
Proof.
  unfold categorize at 1. rewrite fold_left_app.
  fold (categorize l1). apply fold_categorizeCommit.
Qed.

(** Property X10 (the loop of [generateReleaseNotes] over the messages
    of [getCommitMessagesBetweenRefs]): a message handed to the loop
    gives at most one entry, and none when it holds a skip marker or
    starts with [Merge ]: a breaking feat is listed under the breaking
    changes only.  So the four slices together never hold more entries
    than there are messages that are not left out, and no more than the
    output of [git log] has pieces between empty lines.  A message is
    such a piece, not a commit: a commit whose body follows an empty
    line is two messages, and can give two entries. *)
Theorem categorize_one_entry_each (commitMsgs : list gostring) :
  countEntries (categorize commitMsgs)
  <= List.length (filter (fun msg => negb (leftOut msg)) commitMsgs)
  /\ List.length (filter (fun msg => negb (leftOut msg)) commitMsgs)
     <= List.length commitMsgs
  /\ forall out : gostring,
       getCommitMessagesBetweenRefs (Some out) = Some commitMsgs ->
       List.length commitMsgs <= List.length (strings.Split out (nl ++ nl)).
Proof.
  split; [|split; [apply filter_length_le|]].
  - induction commitMsgs as [|msg rest IH] using rev_ind; [reflexivity|].
    rewrite categorize_snoc, categorizeCommit_appendNotes, countEntries_appendNotes.
    rewrite filter_app, length_app. cbn [filter].
    pose proof (countEntries_categorizeCommit msg) as C.
    destruct (leftOut msg); cbn [negb List.length]; lia.
  - intros out. cbn [getCommitMessagesBetweenRefs]. intros [= <-].
    rewrite <- (length_map strings.TrimSpace (strings.Split out (nl ++ nl))).
    apply filter_length_le.
Qed.

(** One commit with a body after an empty line: two messages, and two
    entries. *)
Lemma categorize_one_entry_each_witness :
  getCommitMessagesBetweenRefs
    (Some (str "feat: add x" ++ nl ++ nl ++ str "This is the body." ++ nl))
  = Some [str "feat: add x"; str "This is the body."]
  /\ countEntries (categorize [str "feat: add x"; str "This is the body."]) = 2
  /\ List.length [str "feat: add x"; str "This is the body."]
     <= List.length
          (strings.Split (str "feat: add x" ++ nl ++ nl ++ str "This is the body." ++ nl)
             (nl ++ nl)).
Proof.
  split; [reflexivity|]. split; [reflexivity|].
  exact (proj2 (proj2 (categorize_one_entry_each
                         [str "feat: add x"; str "This is the body."]))
           (str "feat: add x" ++ nl ++ nl ++ str "This is the body." ++ nl) eq_refl).
Defined.

(** Property X11 ([generateReleaseNotes]): every entry under Features,
    Bug Fixes and Other Changes is one line, and every entry under
    BREAKING CHANGES is one line or two, whatever the commit messages
    are: a bullet of the changelog never runs over further lines. *)
Theorem categorize_entries_lines (commitMsgs : list gostring) :
  Forall oneOrTwoLines (breakingChanges (categorize commitMsgs))
  /\ Forall oneLine (features (categorize commitMsgs))
  /\ Forall oneLine (bugFixes (categorize commitMsgs))
  /\ Forall oneLine (otherChanges (categorize commitMsgs)).
Proof. exact (tidy_categorize commitMsgs). Qed.

(** ** Versions and tags *)

(** Property X12 ([calculateNewVersion]): for a current version as the
    library builds them, the function always returns a version text,
    never failing on the nil pointer of its default case, and the
    library reads that text back as the version it was printed from; so
    [main] never leaves at its error exit for a calculated version that
    does not parse, whatever the tag format is. *)
Theorem calculateNewVersion_parses (allTags vTags : option (list gostring))
    (current : semver.Version) (bumpType branch : gostring) (preRelease : bool) :
  wellFormed current = true ->
  exists v,
    calculateNewVersion allTags vTags current bumpType branch preRelease
    = Some (semver.String v)
    /\ semver.NewVersion (semver.String v) = Some v
    /\ forall tagFormat, finalTagName tagFormat (semver.String v) <> None.
Proof.
  intros W.
  destruct (calculateNewVersion_wellFormed allTags vTags current bumpType branch
              preRelease W) as (v & E & Wv).
  exists v. split; [exact E|]. pose proof (NewVersion_String v Wv) as P.
  split; [exact P|]. intros tagFormat. unfold finalTagName. rewrite P.
  now destruct (negb (streq tagFormat [])).
Qed.

Lemma calculateNewVersion_parses_witness :
  exists v,
    calculateNewVersion (Some branchTag140) (Some release140) version123
      (str "none") (str "feature/X") true
    = Some (semver.String v)
    /\ semver.NewVersion (semver.String v) = Some v
    /\ forall tagFormat, finalTagName tagFormat (semver.String v) <> None.
Proof.
  exact (calculateNewVersion_parses (Some branchTag140) (Some release140) version123
           (str "none") (str "feature/X") true eq_refl).
Defined.

(** Property X13 (the tag format block of [main]): with the default tag
    format the tag name of a version is the letter v and the text of the
    version without its metadata; for a version without metadata that is
    the tag name of the empty format too. *)
Theorem default_tag_format (v : semver.Version) :
  wellFormed v = true ->
  finalTagName defaultTagFormat (semver.String v)
  = Some (str "v"
          ++ semver.String
               (semver.mkVersion (semver.major v) (semver.minor v) (semver.patch v)
                  (semver.pre v) []))
  /\ (semver.metadata v = [] ->
      finalTagName defaultTagFormat (semver.String v)
      = finalTagName [] (semver.String v)).
Proof.
  intros W. split; [now apply finalTagName_default|].
  intros M. now apply finalTagName_default_plain.
Qed.

Lemma default_tag_format_witness :
  finalTagName defaultTagFormat
    (semver.String (semver.mkVersion 1 4 0 (str "dev.2") (str "build5")))
  = Some (str "v1.4.0-dev.2")
  /\ finalTagName []
       (semver.String (semver.mkVersion 1 4 0 (str "dev.2") (str "build5")))
     = Some (str "v1.4.0-dev.2+build5").
Proof.
  split.
  - exact (proj1 (default_tag_format
                    (semver.mkVersion 1 4 0 (str "dev.2") (str "build5")) eq_refl)).
  - reflexivity.
Defined.

(** Property X14 ([calculateNewVersion]): the sanitized branch name has
    the length of the branch name and holds letters, digits and hyphens
    only; sanitizing it again changes nothing, and a name made of such
    runes is its own sanitized name. *)
Theorem sanitizeBranch_facts (branch : gostring) :
  List.length (sanitizeBranch branch) = List.length branch
  /\ forallb semver.isAllowed (sanitizeBranch branch) = true
  /\ sanitizeBranch (sanitizeBranch branch) = sanitizeBranch branch
  /\ (forallb semver.isAllowed branch = true -> sanitizeBranch branch = branch).
Proof.
  split; [apply length_map|]. split; [apply sanitizeBranch_allowed|].
  split; [apply sanitizeBranch_idem | apply sanitizeBranch_clean].
Qed.

Lemma sanitizeBranch_facts_witness :
  sanitizeBranch (str "feature-X") = str "feature-X"
  /\ sanitizeBranch (str "feature/X") = str "feature-X".
Proof.
  split.
  - exact (proj2 (proj2 (proj2 (sanitizeBranch_facts (str "feature-X")))) eq_refl).
  - reflexivity.
Defined.

(** Property X15 ([calculateNewVersion]): in the pre-release regime,
    when no listed tag counts for the branch, the new version depends
    neither on the bump type nor on the current version.  It is the
    first release found among the release tags (0.0.0 without one) with
    the sanitized branch name and [.0] as prerelease when the library
    accepts that prerelease, and that release as it stands when it does
    not; the library accepts it exactly when the sanitized name is not
    empty and is not a number of several digits that starts with a
    zero. *)
Theorem first_prerelease_general (allTags : list gostring)
    (vTags : option (list gostring)) (current : semver.Version)
    (bumpType branch : gostring) :
  (forall tag v num, In tag allTags ->
                     ~ qualifies (sanitizeBranch branch) tag v num) ->
  let latest := match getCurrentReleaseVersion vTags with
                | Some v => v
                | None => version000
                end in
  calculateNewVersion (Some allTags) vTags current bumpType branch true
  = Some (semver.String
            (if semver.validatePrerelease (sanitizeBranch branch ++ str ".0")
             then semver.mkVersion (semver.major latest) (semver.minor latest)
                    (semver.patch latest) (sanitizeBranch branch ++ str ".0")
                    (semver.metadata latest)
             else latest))
  /\ semver.validatePrerelease (sanitizeBranch branch ++ str ".0")
     = negb (streq (sanitizeBranch branch) [])
       && negb (forallb strconv.isDigit (sanitizeBranch branch)
                && (1 <? List.length (sanitizeBranch branch))%nat
                && streq (firstn 1 (sanitizeBranch branch)) (str "0")).
Proof.
  intros NQ latest. split; [|apply validatePrerelease_first].
  unfold calculateNewVersion. cbn [negb highestBranchPreRelease].
  destruct (fold_left (scanTag (sanitizeBranch branch)) allTags (None, (-1)%Z))
    as [[h|] num] eqn:F.
  { apply scan_spec in F as (_ & F & _). destruct (F h eq_refl) as (tag & I & Q).
    now apply NQ in Q. }
  fold latest. unfold semver.SetPrerelease.
  assert (L : (0 <? List.length (sanitizeBranch branch ++ str ".0"))%nat = true).
  { rewrite length_app. apply Nat.ltb_lt. simpl. lia. }
  rewrite L. cbn [andb].
  now destruct (semver.validatePrerelease (sanitizeBranch branch ++ str ".0")).
Qed.

(** The release 0.9.0 with a tag of another branch, and with a tag of
    the branch whose minor number starts with a zero: the pattern of
    [main.go] matches that tag, the library refuses it, and it does not
    count. *)
Lemma first_prerelease_general_witness :
  calculateNewVersion (Some [str "v1.04.0-br.1"; str "v0.9.0"; str "v0.9.0-other.3"])
    (Some [str "v0.9.0"]) version123 (str "major") (str "br") true
  = Some (str "0.9.0-br.0").
Proof.
  refine (eq_trans
            (proj1 (first_prerelease_general
                      [str "v1.04.0-br.1"; str "v0.9.0"; str "v0.9.0-other.3"]
                      (Some [str "v0.9.0"]) version123 (str "major") (str "br") _))
            eq_refl).
  intros tag v num [<-|[<-|[<-|[]]]] (ds & F & _ & P);
    [discriminate P | discriminate F | discriminate F].
Defined.

(** Property X16 ([calculateNewVersion]): the search for the highest
    pre-release tag of the branch.  A tag counts when the pattern of the
    branch matches it, its number is read by [Atoi] and its text behind
    the [v] is a version.  The search finds a version exactly when some
    tag counts; the version and number it returns are those of a tag
    that counts, and no tag that counts has a higher number; without
    such a tag the number is -1. *)
Theorem highestBranchPreRelease_highest (sanitizedBranch : gostring)
    (tags : list gostring) (highest : option semver.Version) (num : Z) :
  highestBranchPreRelease sanitizedBranch (Some tags) = (highest, num) ->
  (forall tag v n, In tag tags -> qualifies sanitizedBranch tag v n ->
                   (n <= num)%Z /\ highest <> None)
  /\ (forall v, highest = Some v ->
                exists tag, In tag tags /\ qualifies sanitizedBranch tag v num)
  /\ (highest = None -> num = (-1)%Z).
Proof. apply scan_spec. Qed.

Lemma highestBranchPreRelease_highest_witness :
  (forall tag v n,
      In tag [str "v1.4.0-dev.2"; str "v1.5.0-dev.10"; str "v1.4.0"] ->
      qualifies (str "dev") tag v n ->
      (n <= 10)%Z /\ Some (semver.mkVersion 1 5 0 (str "dev.10") []) <> None)
  /\ (forall v, Some (semver.mkVersion 1 5 0 (str "dev.10") []) = Some v ->
                exists tag,
                  In tag [str "v1.4.0-dev.2"; str "v1.5.0-dev.10"; str "v1.4.0"]
                  /\ qualifies (str "dev") tag v 10%Z)
  /\ (Some (semver.mkVersion 1 5 0 (str "dev.10") []) = None -> 10%Z = (-1)%Z).
Proof.
  exact (highestBranchPreRelease_highest (str "dev")
           [str "v1.4.0-dev.2"; str "v1.5.0-dev.10"; str "v1.4.0"]
           (Some (semver.mkVersion 1 5 0 (str "dev.10") [])) 10%Z eq_refl).
Defined.

(** Property X17 ([calculateNewVersion] and the tag format block of
    [main]): a pre-release tag written with the default or the empty
    format is found again.  For a version as the library builds them,
    without metadata, whose prerelease is the sanitized branch name, a
    dot and a number below 2^63, the tag [v] and the text of the
    version counts for the branch with that number.  So when it is
    listed the search finds the version of a listed tag that counts,
    with a number that is not lower, and the new version is the bumped
    base of the version found (its major, minor or patch increment by
    the bump type, its three numbers alone for any other bump type)
    with, as prerelease, the sanitized branch name, a dot and the
    number after the one found; the bumped base as it stands if the
    library refuses that prerelease. *)
Theorem created_prerelease_tag_found (allTags : list gostring)
    (v : semver.Version) (branch : gostring) (n : N) :
  wellFormed v = true ->
  semver.pre v = sanitizeBranch branch ++ str "." ++ strconv.FormatUint n ->
  semver.metadata v = [] ->
  (n < 2 ^ 63)%N ->
  qualifies (sanitizeBranch branch) (str "v" ++ semver.String v) v (Z.of_N n)
  /\ (In (str "v" ++ semver.String v) allTags ->
      exists highest num tag,
        highestBranchPreRelease (sanitizeBranch branch) (Some allTags)
        = (Some highest, num)
        /\ In tag allTags
        /\ qualifies (sanitizeBranch branch) tag highest num
        /\ (Z.of_N n <= num)%Z
        /\ forall (vTags : option (list gostring)) (current : semver.Version)
                  (bumpType : gostring),
             let newPreRelease :=
               sanitizeBranch branch ++ str "."
               ++ strconv.FormatInt (wrapInt64 (num + 1)) in
             calculateNewVersion (Some allTags) vTags current bumpType branch true
             = Some (semver.String
                       (fst (semver.SetPrerelease (bumpedBaseOf bumpType highest)
                               newPreRelease)))
             /\ fst (semver.SetPrerelease (bumpedBaseOf bumpType highest)
                       newPreRelease)
                = (if semver.validatePrerelease newPreRelease
                   then semver.mkVersion
                          (semver.major (bumpedBaseOf bumpType highest))
                          (semver.minor (bumpedBaseOf bumpType highest))
                          (semver.patch (bumpedBaseOf bumpType highest))
                          newPreRelease []
                   else bumpedBaseOf bumpType highest)).
Proof.
  intros W P M B. pose proof (qualifies_created v _ n W P M B) as Q.
  split; [exact Q|]. intros I.
  destruct (highestBranchPreRelease (sanitizeBranch branch) (Some allTags))
    as [h num] eqn:E.
  pose proof E as E'. apply scan_spec in E' as (E1 & E2 & _).
  destruct (E1 _ _ _ I Q) as [L NN].
  destruct h as [h|]; [|congruence].
  destruct (E2 h eq_refl) as (tag & It & Qt).
  exists h, num, tag.
  split; [reflexivity|]. split; [exact It|]. split; [exact Qt|]. split; [exact L|].
  intros vTags current bumpType newPreRelease. split.
  - now apply (calculateNewVersion_next_base (Some allTags) vTags current h num).
  - unfold semver.SetPrerelease.
    assert (NE : (0 <? List.length newPreRelease)%nat = true).
    { unfold newPreRelease. rewrite !length_app. apply Nat.ltb_lt. simpl. lia. }
    rewrite NE. cbn [andb].
    assert (MB : semver.metadata (bumpedBaseOf bumpType h) = []).
    { unfold bumpedBaseOf, semver.IncMajor, semver.IncMinor, semver.IncPatch.
      destruct (streq bumpType (str "major")); [reflexivity|].
      destruct (streq bumpType (str "minor")); [reflexivity|].
      destruct (streq bumpType (str "patch")); [|reflexivity].
      now destruct (negb (streq (semver.pre h) [])). }
    destruct (semver.validatePrerelease newPreRelease); cbn [negb fst];
      [now rewrite MB | reflexivity].
Qed.

(** The tag of 1.4.0-feature-X.7 beside the release 1.4.0 and a tag of
    the branch with a lower number: a minor bump gives
    1.5.0-feature-X.8. *)
Lemma created_prerelease_tag_found_witness :
  qualifies (sanitizeBranch (str "feature/X"))
    (str "v" ++ semver.String (semver.mkVersion 1 4 0 (str "feature-X.7") []))
    (semver.mkVersion 1 4 0 (str "feature-X.7") []) (Z.of_N 7)
  /\ highestBranchPreRelease (sanitizeBranch (str "feature/X"))
       (Some [str "v1.4.0"; str "v1.3.0-feature-X.2"; str "v1.4.0-feature-X.7"])
     = (Some (semver.mkVersion 1 4 0 (str "feature-X.7") []), 7%Z)
  /\ bumpedBaseOf (str "minor") (semver.mkVersion 1 4 0 (str "feature-X.7") [])
     = semver.mkVersion 1 5 0 [] []
  /\ calculateNewVersion
       (Some [str "v1.4.0"; str "v1.3.0-feature-X.2"; str "v1.4.0-feature-X.7"]) None
       version123 (str "minor") (str "feature/X") true
     = Some (str "1.5.0-feature-X.8").
Proof.
  split; [|split; [reflexivity|split; reflexivity]].
  apply (created_prerelease_tag_found
           [str "v1.4.0"; str "v1.3.0-feature-X.2"; str "v1.4.0-feature-X.7"]
           (semver.mkVersion 1 4 0 (str "feature-X.7") []) (str "feature/X") 7%N);
    reflexivity.
Defined.

(** Property X18 ([getCurrentReleaseVersion]): once the tags are listed
    the function returns a version without prerelease: the version of
    the first listed tag that, trimmed, starts with [v] and is behind it
    a version without prerelease, and 0.0.0 when no listed tag is such a
    tag. *)
Theorem getCurrentReleaseVersion_first (tags : list gostring) :
  exists v,
    getCurrentReleaseVersion (Some tags) = Some v
    /\ semver.pre v = []
    /\ wellFormed v = true
    /\ ((v = version000 /\ forall tag w, In tag tags -> ~ releaseTag tag w)
        \/ (exists l1 tag l2,
               tags = l1 ++ tag :: l2
               /\ releaseTag tag v
               /\ forall t w, In t l1 -> ~ releaseTag t w)).
Proof.
  exists (firstRelease tags). split; [reflexivity|].
  pose proof (firstRelease_spec tags) as S.
  split.
  - destruct S as [[-> _] | (l1 & tag & l2 & _ & (_ & _ & P) & _)];
      [reflexivity | exact P].
  - split; [apply firstRelease_wellFormed | exact S].
Qed.

(** Property X19 ([getCurrentVersion]): once the tags are listed the
    function returns a version, whatever order [GreaterThan] is: the
    version of a listed tag that, trimmed, starts with [v] and is behind
    it a version, or 0.0.0 when no listed tag is such a tag. *)
Theorem getCurrentVersion_from_tags
    (GreaterThan : semver.Version -> semver.Version -> bool)
    (tags : list gostring) :
  exists v,
    getCurrentVersion GreaterThan (Some tags) = Some v
    /\ wellFormed v = true
    /\ ((exists tag,
            In tag tags
            /\ strings.HasPrefix (strings.TrimSpace tag) (str "v") = true
            /\ semver.NewVersion
                 (strings.TrimPrefix (strings.TrimSpace tag) (str "v")) = Some v)
        \/ (v = version000
            /\ forall tag,
                 In tag tags ->
                 strings.HasPrefix (strings.TrimSpace tag) (str "v") = true ->
                 semver.NewVersion
                   (strings.TrimPrefix (strings.TrimSpace tag) (str "v")) = None)).
Proof.
  pose proof (currentVersion_fold GreaterThan tags) as F.
  assert (E : exists v, getCurrentVersion GreaterThan (Some tags) = Some v).
  { cbn [getCurrentVersion].
    destruct (fold_left _ tags None) as [v|]; [now exists v|].
    exists version000. apply NewVersion_000. }
  destruct E as [v E]. exists v. split; [exact E|].
  split; [exact (getCurrentVersion_wellFormed _ _ _ E)|].
  cbn [getCurrentVersion] in E.
  destruct (fold_left _ tags None) as [w|].
  - injection E as <-. now left.
  - right. rewrite NewVersion_000 in E. injection E as <-. now split.
Qed.

(** Property X20 ([main]): the new version [main] settles on always
    passes the tag format block.  With the current version of
    [getCurrentVersion], the version of the [set-version] flag or the
    calculated one is a text the library parses, so a tag name is made
    of it for every tag format; and without the flag a new version is
    always calculated. *)
Theorem newVersionOfMain_formats
    (GreaterThan : semver.Version -> semver.Version -> bool)
    (tags : option (list gostring)) (setVersionFlag : gostring)
    (tagListing : gostring -> option gostring)
    (allTags vTags : option (list gostring)) (currentVersion : semver.Version)
    (bumpType branch : gostring) (preRelease : bool) :
  getCurrentVersion GreaterThan tags = Some currentVersion ->
  (setVersionFlag = [] ->
   newVersionOfMain setVersionFlag tagListing allTags vTags currentVersion
     bumpType branch preRelease <> None)
  /\ (forall newVersion,
         newVersionOfMain setVersionFlag tagListing allTags vTags currentVersion
           bumpType branch preRelease = Some newVersion ->
         exists parsedNewVer,
           semver.NewVersion newVersion = Some parsedNewVer
           /\ forall tagFormat,
                finalTagName tagFormat newVersion
                = Some (if streq tagFormat [] then str "v" ++ newVersion
                        else formatTag tagFormat parsedNewVer)).
Proof.
  intros C. apply getCurrentVersion_wellFormed in C.
  destruct (calculateNewVersion_wellFormed allTags vTags currentVersion bumpType
              branch preRelease C) as (v & E & Wv).
  split.
  - intros ->. cbn [newVersionOfMain streq negb]. now rewrite E.
  - intros newVersion. unfold newVersionOfMain.
    assert (G : forall p, semver.NewVersion newVersion = Some p ->
                          exists parsedNewVer,
                            semver.NewVersion newVersion = Some parsedNewVer
                            /\ forall tagFormat,
                                 finalTagName tagFormat newVersion
                                 = Some (if streq tagFormat [] then str "v" ++ newVersion
                                         else formatTag tagFormat parsedNewVer)).
    { intros p P. exists p. split; [exact P|]. intros tagFormat.
      unfold finalTagName. rewrite P. now destruct (streq tagFormat []). }
    destruct (negb (streq setVersionFlag [])).
    + destruct (tagExists _); [discriminate|].
      match goal with
      | |- context [match semver.NewVersion ?x with _ => _ end] =>
          destruct (semver.NewVersion x) as [p|] eqn:P; [|discriminate]
      end.
      intros [= <-]. now apply (G p).
    + rewrite E. intros [= <-]. apply (G v). now apply NewVersion_String.
Qed.

Lemma newVersionOfMain_formats_witness :
  (str "2.0.0-rc.1" = [] ->
   newVersionOfMain (str "2.0.0-rc.1") (fun _ => Some []) None None version123
     (str "minor") (str "main") false <> None)
  /\ (forall newVersion,
         newVersionOfMain (str "2.0.0-rc.1") (fun _ => Some []) None None version123
           (str "minor") (str "main") false = Some newVersion ->
         exists parsedNewVer,
           semver.NewVersion newVersion = Some parsedNewVer
           /\ forall tagFormat,
                finalTagName tagFormat newVersion
                = Some (if streq tagFormat [] then str "v" ++ newVersion
                        else formatTag tagFormat parsedNewVer)).
Proof.
  exact (newVersionOfMain_formats (fun _ _ => false) (Some [str "v1.2.3"])
           (str "2.0.0-rc.1") (fun _ => Some []) None None version123
           (str "minor") (str "main") false eq_refl).
Defined.

(** Property X21 ([main]): the [set-version] flag may be given with or
    without the leading [v].  For a text that is not empty and does not
    start with [v], both forms give the same result: the text itself,
    when no tag of the name [v] and the text is listed and the library
    parses the text, and an exit of the program otherwise. *)
Theorem set_version_with_or_without_v (s : gostring)
    (tagListing : gostring -> option gostring)
    (allTags vTags : option (list gostring)) (currentVersion : semver.Version)
    (bumpType branch : gostring) (preRelease : bool) :
  s <> [] ->
  strings.HasPrefix s (str "v") = false ->
  newVersionOfMain (str "v" ++ s) tagListing allTags vTags currentVersion
    bumpType branch preRelease
  = newVersionOfMain s tagListing allTags vTags currentVersion
      bumpType branch preRelease
  /\ newVersionOfMain s tagListing allTags vTags currentVersion
       bumpType branch preRelease
     = (if tagExists (tagListing (str "v" ++ s)) then None
        else match semver.NewVersion s with
             | Some _ => Some s
             | None => None
             end).
Proof.
  intros NE HP. unfold newVersionOfMain. rewrite HP.
  assert (streq s [] = false) as -> by now apply streq_neq.
  change (streq (str "v" ++ s) []) with false.
  change (strings.HasPrefix (str "v" ++ s) (str "v")) with true.
  cbn [negb]. cbv zeta.
  change (strings.TrimPrefix (str "v" ++ s) (str "v")) with s.
  split; reflexivity.
Qed.

(** The flag [2.1.0], and the flag [01.2.3] that the library refuses. *)
Lemma set_version_with_or_without_v_witness :
  newVersionOfMain (str "v" ++ str "2.1.0") (fun _ => Some []) None None version123
    (str "patch") (str "main") false
  = newVersionOfMain (str "2.1.0") (fun _ => Some []) None None version123
      (str "patch") (str "main") false
  /\ newVersionOfMain (str "2.1.0") (fun _ => Some []) None None version123
       (str "patch") (str "main") false
     = Some (str "2.1.0")
  /\ newVersionOfMain (str "v" ++ str "01.2.3") (fun _ => Some []) None None
       version123 (str "patch") (str "main") false
     = newVersionOfMain (str "01.2.3") (fun _ => Some []) None None version123
         (str "patch") (str "main") false
  /\ newVersionOfMain (str "01.2.3") (fun _ => Some []) None None version123
       (str "patch") (str "main") false
     = None.
Proof.
  split; [|split; [|split]].
  - apply (set_version_with_or_without_v (str "2.1.0") (fun _ => Some []) None None
             version123 (str "patch") (str "main") false);
      [discriminate | reflexivity].
  - reflexivity.
  - apply (set_version_with_or_without_v (str "01.2.3") (fun _ => Some []) None None
             version123 (str "patch") (str "main") false);
      [discriminate | reflexivity].
  - reflexivity.
Defined.

(** ** The remote *)

(** The pushes of [pushTag]: their number, when one succeeds, and which
    one does. *)
Lemma pushTag_pushes (remote : option gostring) (push : nat -> bool) :
  snd (pushTag remote push) <= maxRetries + 1
  /\ (fst (pushTag remote push) = true
      <-> (exists out, remote = Some out /\ strings.TrimSpace out <> [])
          /\ exists i, i <= maxRetries /\ push i = true)
  /\ (fst (pushTag remote push) = true ->
      push (snd (pushTag remote push) - 1) = true
      /\ forall j, j < snd (pushTag remote push) - 1 -> push j = false).
Proof.
  unfold pushTag.
  destruct remote as [out|].
  2:{ cbn [fst snd]. split; [lia|]. split; [|discriminate].
      split; [discriminate|]. intros [(out & E & _) _]. discriminate. }
  destruct (strings.TrimSpace out) as [|c t] eqn:T.
  { cbn [List.length Nat.eqb fst snd]. split; [lia|]. split; [|discriminate].
    split; [discriminate|]. intros [(o & [= <-] & NE) _]. congruence. }
  cbn [List.length Nat.eqb]. cbv [maxRetries Nat.add pushLoop Nat.eqb].
  assert (R : exists o, Some out = Some o /\ strings.TrimSpace o <> []).
  { exists out. split; [reflexivity|]. now rewrite T. }
  destruct (push 0) eqn:P0; cbn [fst snd].
  { split; [lia|]. split.
    - split; [|reflexivity]. intros _. split; [exact R|]. exists 0. split; [lia | exact P0].
    - intros _. split; [exact P0|]. intros j Hj. lia. }
  destruct (push 1) eqn:P1; cbn [fst snd].
  { split; [lia|]. split.
    - split; [|reflexivity]. intros _. split; [exact R|]. exists 1. split; [lia | exact P1].
    - intros _. split; [exact P1|]. intros j Hj. assert (j = 0) as -> by lia. exact P0. }
  destruct (push 2) eqn:P2; cbn [fst snd].
  { split; [lia|]. split.
    - split; [|reflexivity]. intros _. split; [exact R|]. exists 2. split; [lia | exact P2].
    - intros _. split; [exact P2|]. intros j Hj.
      assert (j = 0 \/ j = 1) as [-> | ->] by lia; assumption. }
  split; [lia|]. split; [|discriminate]. split; [discriminate|].
  intros [_ (i & Hi & Pi)].
  assert (i = 0 \/ i = 1 \/ i = 2) as [-> | [-> | ->]] by lia; congruence.
Qed.

(** Property X22 ([pushTag]): the tag is pushed at most three times, and
    not at all without a configured remote: when [git remote] fails or
    prints white space only the function returns an error and has run no
    push, and with a configured remote it runs at least one.  The
    function returns no error exactly when a remote is configured and
    one of the first three pushes succeeds; it stops at the first push
    that succeeds, and gives up with an error after the third that
    fails. *)
Theorem pushTag_attempts (remote : option gostring) (push : nat -> bool) :
  snd (pushTag remote push) <= maxRetries + 1
  /\ (fst (pushTag remote push) = true
      <-> (exists out, remote = Some out /\ strings.TrimSpace out <> [])
          /\ exists i, i <= maxRetries /\ push i = true)
  /\ (fst (pushTag remote push) = true ->
      push (snd (pushTag remote push) - 1) = true
      /\ forall j, j < snd (pushTag remote push) - 1 -> push j = false)
  /\ ((forall out, remote = Some out -> strings.TrimSpace out = []) ->
      pushTag remote push = (false, 0))
  /\ ((exists out, remote = Some out /\ strings.TrimSpace out <> []) ->
      1 <= snd (pushTag remote push)
      /\ (fst (pushTag remote push) = false ->
          snd (pushTag remote push) = maxRetries + 1
          /\ forall j, j <= maxRetries -> push j = false)).
Proof.
  destruct (pushTag_pushes remote push) as (A & B & C).
  split; [exact A|]. split; [exact B|]. split; [exact C|]. split.
  - intros H. unfold pushTag. destruct remote as [out|]; [|reflexivity].
    now rewrite (H out eq_refl).
  - intros (out & -> & NE). unfold pushTag.
    destruct (strings.TrimSpace out) as [|c t]; [congruence|].
    cbn [List.length Nat.eqb]. cbv [maxRetries Nat.add pushLoop Nat.eqb].
    destruct (push 0) eqn:P0; cbn [fst snd]; [split; [lia | discriminate]|].
    destruct (push 1) eqn:P1; cbn [fst snd]; [split; [lia | discriminate]|].
    destruct (push 2) eqn:P2; cbn [fst snd]; [split; [lia | discriminate]|].
    split; [lia|]. intros _. split; [reflexivity|]. intros j Hj.
    assert (j = 0 \/ j = 1 \/ j = 2) as [-> | [-> | ->]] by lia; assumption.
Qed.

Lemma pushTag_attempts_witness :
  pushTag (Some (str "origin" ++ nl)) (fun i => (i =? 1)%nat) = (true, 2)
  /\ (fun i => (i =? 1)%nat) (snd (pushTag (Some (str "origin" ++ nl))
                                     (fun i => (i =? 1)%nat)) - 1) = true
  /\ pushTag (Some nl) (fun _ => true) = (false, 0)
  /\ pushTag (Some (str "origin" ++ nl)) (fun _ => false) = (false, 3).
Proof.
  split; [reflexivity|]. split; [|split; [|reflexivity]].
  - exact (proj1 (proj1 (proj2 (proj2 (pushTag_attempts (Some (str "origin" ++ nl))
                                         (fun i => (i =? 1)%nat)))) eq_refl)).
  - apply (proj1 (proj2 (proj2 (proj2 (pushTag_attempts (Some nl) (fun _ => true)))))).
    now intros out [= <-].
Defined.

(** Property X23 ([isDefaultBranch] and the pre-release switch of
    [main]): when the remote cannot be asked, or its answer does not
    hold the text [HEAD branch:], the default branches are [main] and
    [master] and no other.  When the first line of the answer that
    holds that text has it after white space alone, followed by white
    space and a name, the default branch is that name, trimmed, and no
    other, [main] and [master] included.  [main] turns the pre-release
    regime on for every branch that is not the default one. *)
Theorem isDefaultBranch_decides (branch : gostring) :
  (forall out : option gostring,
      out = None
      \/ (exists text, out = Some text
                       /\ strings.Contains text headBranchLabel = false) ->
      isDefaultBranch out branch = true
      <-> branch = str "main" \/ branch = str "master")
  /\ (forall before indent gap name rest : gostring,
         strings.Contains before headBranchLabel = false ->
         before = [] \/ endsLF before = true ->
         forallb reSpace indent = true ->
         forallb reSpace gap = true ->
         name <> [] ->
         forallb (fun r => negb (reSpace r)) name = true ->
         match rest with [] => True | c :: _ => reSpace c = true end ->
         isDefaultBranch
           (Some (before ++ indent ++ headBranchLabel ++ gap ++ name ++ rest)) branch
         = streq branch (strings.TrimSpace name))
  /\ (forall (out : option gostring) (preRelease : bool),
         preReleaseOfMain preRelease out branch
         = preRelease || negb (isDefaultBranch out branch)).
Proof.
  split; [|split].
  - intros out H.
    assert (F : match out with
                | Some text => findHeadBranch true text
                | None => None
                end = None).
    { destruct H as [-> | (text & -> & C)]; [reflexivity|].
      destruct (findHeadBranch true text) as [name|] eqn:E; [|reflexivity].
      apply findHeadBranch_Contains in E. congruence. }
    unfold isDefaultBranch. rewrite F. rewrite orb_true_iff, !streq_eq. reflexivity.
  - intros before indent gap name rest C E I G NE N R.
    unfold isDefaultBranch.
    rewrite (findHeadBranch_line [] before indent gap name rest true); auto.
  - intros out preRelease. unfold preReleaseOfMain.
    now destruct preRelease, (isDefaultBranch out branch).
Qed.

Lemma isDefaultBranch_decides_witness :
  (isDefaultBranch None (str "master") = true
   <-> str "master" = str "main" \/ str "master" = str "master")
  /\ isDefaultBranch
       (Some ((str "* remote origin" ++ nl) ++ str "  " ++ headBranchLabel ++ str " "
              ++ str "develop" ++ nl))
       (str "master")
     = streq (str "master") (strings.TrimSpace (str "develop")).
Proof.
  pose proof (isDefaultBranch_decides (str "master")) as (F & L & _).
  split.
  - apply F. now left.
  - apply L; [reflexivity | now right | reflexivity | reflexivity | discriminate
              | reflexivity | reflexivity].
Defined.
(** ** From one run to the next *)

(** Property X24 ([main] and [getCurrentVersion]): the tag a run
    creates and the reference of a later run.  For a version as the
    library builds them, without metadata and other than 0.0.0, the
    reference [main] takes for the range of commits is the tag name the
    default and the empty tag format give that version, and that tag
    counts in the search of [getCurrentVersion] with that version.
    [getCurrentVersion] returns the version from every listing that
    holds the tag and in which the version of every tag that counts is
    that version or a lower one: one the version is greater than and
    that is not greater than the version.  A listed tag with a greater
    version takes its place. *)
Theorem fromRef_is_created_tag
    (GreaterThan : semver.Version -> semver.Version -> bool) (v : semver.Version) :
  wellFormed v = true ->
  semver.metadata v = [] ->
  fromRef v <> [] ->
  finalTagName defaultTagFormat (semver.String v) = Some (fromRef v)
  /\ finalTagName [] (semver.String v) = Some (fromRef v)
  /\ versionTag (fromRef v) v
  /\ (forall tags : list gostring,
         In (fromRef v) tags ->
         (forall tag w, In tag tags -> versionTag tag w ->
                        w = v \/ (GreaterThan v w = true /\ GreaterThan w v = false)) ->
         getCurrentVersion GreaterThan (Some tags) = Some v)
  /\ getCurrentVersion GreaterThan (Some [fromRef v]) = Some v.
Proof.
  intros W M NE.
  assert (E : fromRef v = str "v" ++ semver.String v).
  { unfold fromRef in *.
    destruct ((semver.Major v =? 0)%N && (semver.Minor v =? 0)%N
              && (semver.Patch v =? 0)%N && streq (semver.Prerelease v) []);
      [congruence | reflexivity]. }
  rewrite E. pose proof (versionTag_created v W) as V.
  assert (T : forall tags : list gostring,
             In (str "v" ++ semver.String v) tags ->
             (forall tag w, In tag tags -> versionTag tag w ->
                            w = v \/ (GreaterThan v w = true /\ GreaterThan w v = false)) ->
             getCurrentVersion GreaterThan (Some tags) = Some v).
  { intros tags Hin H. cbn [getCurrentVersion].
    rewrite (currentVersion_fold_top GreaterThan v tags H tags None);
      [reflexivity | apply incl_refl
       | exists (str "v" ++ semver.String v); split; [exact Hin | exact V]
       | exact I]. }
  split; [|split; [|split; [|split]]].
  - rewrite (finalTagName_default_plain v W M). reflexivity.
  - reflexivity.
  - exact V.
  - exact T.
  - apply T; [now left|]. intros tag w [<-|[]] [_ P]. left.
    destruct V as [_ P']. congruence.
Qed.

(** The tag of 2.0.0 listed after the tag of 1.2.3 and a tag that is no
    version, with the versions ordered by their major number; and the
    tag of 3.0.0 taking its place when it is listed too. *)
Lemma fromRef_is_created_tag_witness :
  fromRef (semver.mkVersion 2 0 0 [] []) = str "v2.0.0"
  /\ getCurrentVersion (fun a b => (semver.major b <? semver.major a)%N)
       (Some [str "v1.2.3"; str "latest"; str "v2.0.0"])
     = Some (semver.mkVersion 2 0 0 [] [])
  /\ getCurrentVersion (fun a b => (semver.major b <? semver.major a)%N)
       (Some [str "v1.2.3"; str "v3.0.0"; str "v2.0.0"])
     = Some (semver.mkVersion 3 0 0 [] []).
Proof.
  split; [reflexivity|]. split; [|reflexivity].
  apply (proj1 (proj2 (proj2 (proj2
           (fromRef_is_created_tag (fun a b => (semver.major b <? semver.major a)%N)
              (semver.mkVersion 2 0 0 [] []) eq_refl eq_refl
              ltac:(discriminate)))))).
  - right. right. left. reflexivity.
  - intros tag w [<-|[<-|[<-|[]]]] [HP P]; vm_compute in HP, P;
      try discriminate HP; injection P as <-; [right | left]; now split.
Defined.

(** Property X25 ([getCurrentVersion]): when [GreaterThan] is a strict
    order on the versions the library builds, not reflexive and
    transitive, the version returned is a highest one: no listed tag
    that, trimmed, starts with [v] and is behind it a version has a
    version greater than it. *)
Theorem getCurrentVersion_highest
    (GreaterThan : semver.Version -> semver.Version -> bool)
    (tags : list gostring) (latest : semver.Version) :
  (forall a, wellFormed a = true -> GreaterThan a a = false) ->
  (forall a b c,
      wellFormed a = true -> wellFormed b = true -> wellFormed c = true ->
      GreaterThan a b = true -> GreaterThan b c = true -> GreaterThan a c = true) ->
  getCurrentVersion GreaterThan (Some tags) = Some latest ->
  forall tag w, In tag tags -> versionTag tag w -> GreaterThan w latest = false.
Proof.
  intros Irr Tr E tag w I V. cbn [getCurrentVersion] in E.
  pose proof (currentVersion_fold GreaterThan tags) as N.
  destruct (fold_left (currentVersionStep GreaterThan) tags None) as [l|] eqn:F.
  - injection E as <-.
    exact (proj2 (currentVersion_fold_highest GreaterThan Irr Tr tags l F) tag w I V).
  - destruct V as [V1 V2]. rewrite (N tag I V1) in V2. discriminate.
Qed.

Lemma getCurrentVersion_highest_witness :
  (fun a b : semver.Version => (semver.major b <? semver.major a)%N)
    version123 (semver.mkVersion 2 0 0 [] [])
  = false.
Proof.
  apply (getCurrentVersion_highest
           (fun a b => (semver.major b <? semver.major a)%N)
           [str "v1.2.3"; str "v2.0.0"; str "latest"]
           (semver.mkVersion 2 0 0 [] [])) with (tag := str "v1.2.3").
  - intros a _. apply N.ltb_irrefl.
  - intros a b c _ _ _ H1 H2. apply N.ltb_lt in H1, H2. apply N.ltb_lt. lia.
  - reflexivity.
  - left. reflexivity.
  - split; reflexivity.
Defined.

(** Property X26 ([determineBumpType] and [generateReleaseNotes]): the
    sections of the changelog explain the bump.  For messages without
    white space at their ends, as [getCommitMessagesBetweenRefs] returns
    them, none of which holds a skip marker, the bump is [major] exactly
    when there are entries under BREAKING CHANGES; [minor] exactly when
    there are none but some under Features; [patch] exactly when there
    are none under either but some under Bug Fixes; and [none] exactly
    when the three are empty.  Each of the three holds one entry for
    every message of its effect. *)
Theorem changelog_explains_bump (commitMsgs : list gostring) :
  (forall msg, In msg commitMsgs ->
               strings.TrimSpace msg = msg /\ shouldSkipCI msg = false) ->
  (determineBumpType commitMsgs = str "major"
   <-> breakingChanges (categorize commitMsgs) <> [])
  /\ (determineBumpType commitMsgs = str "minor"
      <-> breakingChanges (categorize commitMsgs) = []
          /\ features (categorize commitMsgs) <> [])
  /\ (determineBumpType commitMsgs = str "patch"
      <-> breakingChanges (categorize commitMsgs) = []
          /\ features (categorize commitMsgs) = []
          /\ bugFixes (categorize commitMsgs) <> [])
  /\ (determineBumpType commitMsgs = str "none"
      <-> breakingChanges (categorize commitMsgs) = []
          /\ features (categorize commitMsgs) = []
          /\ bugFixes (categorize commitMsgs) = [])
  /\ sectionCounts (categorize commitMsgs)
     = (countEffect Breaks commitMsgs, countEffect RaisesMinor commitMsgs,
        countEffect RaisesPatch commitMsgs).
Proof.
  intros H. pose proof (categorize_counts commitMsgs H) as C.
  split; [|split; [|split; [|split; [|exact C]]]];
    unfold sectionCounts in C; injection C as CB CF CX;
    rewrite determineBumpType_spec, !countEffect_existsb, <- CB, <- CF, <- CX;
    destruct (breakingChanges (categorize commitMsgs));
    destruct (features (categorize commitMsgs));
    destruct (bugFixes (categorize commitMsgs));
    cbn [List.length Nat.eqb negb];
    (split; [intros E; repeat split; (discriminate || reflexivity)
            | intros E; first [reflexivity
                               | exfalso; apply E; reflexivity
                               | exfalso; destruct E as [E1 E2];
                                 first [discriminate E1
                                       | apply E2; reflexivity
                                       | destruct E2 as [E2 E3];
                                         first [discriminate E2
                                               | discriminate E3
                                               | apply E3; reflexivity]]]]).
Qed.

Lemma changelog_explains_bump_witness :
  breakingChanges (categorize [str "feat: a"; str "fix: b"; str "docs: c"]) = []
  /\ features (categorize [str "feat: a"; str "fix: b"; str "docs: c"]) <> [].
Proof.
  assert (H : forall msg,
             In msg [str "feat: a"; str "fix: b"; str "docs: c"] ->
             strings.TrimSpace msg = msg /\ shouldSkipCI msg = false)
    by (intros msg [<-|[<-|[<-|[]]]]; split; reflexivity).
  exact (proj1 (proj1 (proj2 (changelog_explains_bump _ H))) eq_refl).
Defined.
